(** * Measurement-driven pagination of bilingual posts

    A shallow embedding of the pagination service (paginate,
    paginateMainContent, smartSplitText, splitComment, paginateComments),
    of the preprocessing of the image generator (preprocessPostData) and
    of the bilingual tokenizer of the text utilities (smartSplit), with
    the properties of the specification that concern them.

    Conventions of the embedding:
    - a JavaScript string is the list of its UTF-16 code units;
    - array indices and lengths are natural numbers; rendered heights are
      integers, for the code only compares them with integer budgets;
    - the rendering collaborator (renderHTML, measureContentHeight) is an
      arbitrary state-passing oracle: it may answer any height, answer
      differently each time, or throw;
    - asynchronous code is written in a state-and-exception monad; every
      [while] loop carries a fuel counter, and running out of fuel is a
      third outcome, distinct from returning and from throwing. The
      properties are proved for every fuel above an explicit bound, and
      all those fuels give the same run.

    The definitions come first: strings, the tokenizer, the monad, the
    data model, the preprocessing, the pagination service, the vocabulary
    of the specification and sample inputs. The properties follow. *)

From Stdlib Require Import List ZArith NArith Lia Bool Arith PeanoNat.
From Stdlib Require Import Sorting.Permutation Sorting.Sorted.
From Stdlib Require DecimalNat.
Import ListNotations.

Set Implicit Arguments.

(* ===================================================================== *)
(** ** JavaScript strings *)
(* ===================================================================== *)

Module JS.

(** A UTF-16 code unit. *)
Definition char := N.

Definition string := list char.

Definition LF : char := 0x0a%N.

(** WhiteSpace and LineTerminator code units, the ones
    String.prototype.trim removes. *)
Definition isWhiteSpace (c : char) : bool :=
  ((0x09 <=? c) && (c <=? 0x0d) || (c =? 0x20) || (c =? 0xa0)
   || (c =? 0x1680) || (0x2000 <=? c) && (c <=? 0x200a)
   || (c =? 0x2028) || (c =? 0x2029) || (c =? 0x202f) || (c =? 0x205f)
   || (c =? 0x3000) || (c =? 0xfeff))%N.

Fixpoint trimStart (s : string) : string :=
  match s with
  | [] => []
  | c :: s' => if isWhiteSpace c then trimStart s' else s
  end.

Definition trim (s : string) : string :=
  rev (trimStart (rev (trimStart s))).

(** [s.trim().length > 0], [s.trim() !== ''] and the truthiness of
    [s.trim()] are all this test. *)
Definition nonBlank (s : string) : bool :=
  0 <? length (trim s).

(** Some code unit of [s] is not white space. *)
Definition hasInk (s : string) : bool :=
  existsb (fun c => negb (isWhiteSpace c)) s.

(** [s.split(sep)] for a separator matching exactly one code unit (a
    one-character string, or a regular expression that is a character
    class): the pieces between the matches, [['']] for the empty string. *)
Fixpoint splitBy (isSep : char -> bool) (s : string) : list string :=
  match s with
  | [] => [[]]
  | c :: s' =>
      if isSep c then [] :: splitBy isSep s'
      else match splitBy isSep s' with
           | p :: ps => (c :: p) :: ps
           | [] => [[c]]
           end
  end.

Definition split (sep : char) (s : string) : list string :=
  splitBy (N.eqb sep) s.

(** [parts.join(sep)] for a one-character separator. *)
Fixpoint join (sep : char) (parts : list string) : string :=
  match parts with
  | [] => []
  | [p] => p
  | p :: ps => p ++ sep :: join sep ps
  end.

(** [a || b] on values that are a string or undefined: the empty string
    and undefined are falsy. *)
Definition truthy (a : option string) : bool :=
  match a with
  | Some (_ :: _) => true
  | _ => false
  end.

Definition or (a b : option string) : option string :=
  if truthy a then a else b.

(** [a || ''] *)
Definition orEmpty (a : option string) : string :=
  match a with
  | Some s => s
  | None => []
  end.

End JS.

(* ===================================================================== *)
(** ** Text utilities: the classifier and the tokenizer (textUtils.js) *)
(* ===================================================================== *)

Module TextUtils.

Import JS.

(** The code units U+4E00 to U+9FFF. *)
Definition isChinese (c : char) : bool :=
  ((0x4e00 <=? c) && (c <=? 0x9fff))%N.

(** /[a-zA-Z]/ *)
Definition isEnglish (c : char) : bool :=
  ((0x61 <=? c) && (c <=? 0x7a) || (0x41 <=? c) && (c <=? 0x5a))%N.

(** The six ASCII marks , . ! ? ; : and the seven full-width ones
    U+FF0C U+3002 U+FF01 U+FF1F U+FF1B U+FF1A U+3001. *)
Definition isPunctuation (c : char) : bool :=
  existsb (N.eqb c)
    [0x2c; 0x2e; 0x21; 0x3f; 0x3b; 0x3a;
     0xff0c; 0x3002; 0xff01; 0xff1f; 0xff1b; 0xff1a; 0x3001]%N.

Inductive CharType := chinese | english | space | punctuation | other.

Definition CharType_eqb (a b : CharType) : bool :=
  match a, b with
  | chinese, chinese | english, english | space, space
  | punctuation, punctuation | other, other => true
  | _, _ => false
  end.

(** The if-chain at the head of the loop body of smartSplit. *)
Definition classify (c : char) : CharType :=
  if isChinese c then chinese
  else if isEnglish c then english
  else if (c =? 0x20)%N then space
  else if isPunctuation c then punctuation
  else other.

(** The variables of the loop of smartSplit. *)
Record LoopState := {
  result : list string;
  current : string;
  lastType : option CharType
}.

(** [if (current.trim()) result.push(current)] *)
Definition pushIfNonBlank (result : list string) (current : string)
  : list string :=
  if nonBlank current then result ++ [current] else result.

(** One iteration of the loop of smartSplit, on the code unit [c]. *)
Definition smartSplitStep (st : LoopState) (c : char) : LoopState :=
  let currentType := classify c in
  let '(result1, current1) :=
    match lastType st with
    | Some lt =>
        if negb (CharType_eqb lt currentType) then
          if CharType_eqb lt english && CharType_eqb currentType space then
            (result st, current st ++ [c])
          else if CharType_eqb lt space && CharType_eqb currentType english then
            (result st, current st ++ [c])
          else if CharType_eqb currentType chinese then
            (pushIfNonBlank (result st) (current st), [c])
          else if CharType_eqb lt chinese then
            (pushIfNonBlank (result st) (current st), [c])
          else
            (result st, current st ++ [c])
        else (result st, current st ++ [c])
    | None => (result st, current st ++ [c])
    end in
  if CharType_eqb currentType chinese && (1 <? length current1) then
    {| result := result1 ++ [removelast current1];
       current := [c];
       lastType := Some currentType |}
  else
    {| result := result1; current := current1;
       lastType := Some currentType |}.

Definition smartSplitLoop (text : string) : LoopState :=
  fold_left smartSplitStep text
    {| result := []; current := []; lastType := None |}.

Definition smartSplit (text : string) : list string :=
  let st := smartSplitLoop text in
  filter nonBlank (pushIfNonBlank (result st) (current st)).

End TextUtils.

(* ===================================================================== *)
(** ** Asynchronous computations over the rendering collaborator *)
(* ===================================================================== *)

(** How an asynchronous function ends: it returns a value, it throws, or
    (in this embedding only) one of its [while] loops used up its fuel. *)
Inductive outcome (A : Type) : Type :=
| Ok (a : A)
| Throw
| OutOfFuel.

Arguments Throw {A}.
Arguments OutOfFuel {A}.

Module Async.

Section Monad.

Variable World : Type.

(** A computation reads and updates the state of the outside world (the
    headless browser behind the renderer). *)
Definition M (A : Type) : Type := World -> outcome A * World.

Definition ret {A} (a : A) : M A := fun w => (Ok a, w).

Definition bind {A B} (m : M A) (k : A -> M B) : M B :=
  fun w =>
    match m w with
    | (Ok a, w') => k a w'
    | (Throw, w') => (Throw, w')
    | (OutOfFuel, w') => (OutOfFuel, w')
    end.

Definition outOfFuel {A} : M A := fun w => (OutOfFuel, w).

(** [try { body } catch (error) { handler }]: only a throw is caught. *)
Definition try_catch {A} (body handler : M A) : M A :=
  fun w =>
    match body w with
    | (Throw, w') => handler w'
    | r => r
    end.

(** [await f(...)] for a capability [f] of the collaborator, which
    answers or throws. *)
Definition await {A} (f : World -> option A * World) : M A :=
  fun w =>
    match f w with
    | (Some a, w') => (Ok a, w')
    | (None, w') => (Throw, w')
    end.

(** How a run may end. [endsOr T Q]: it returns a value satisfying [Q],
    or it throws and [T] holds; it does not run out of fuel. With [T]
    true the run may throw ([ends]); with [T] false it returns
    ([returns]). *)
Definition endsOr (T : Prop) {A} (Q : A -> Prop) (r : outcome A * World)
  : Prop :=
  match fst r with
  | Ok a => Q a
  | Throw => T
  | OutOfFuel => False
  end.

Definition ends {A} (Q : A -> Prop) (r : outcome A * World) : Prop :=
  endsOr True Q r.

Definition returns {A} (Q : A -> Prop) (r : outcome A * World) : Prop :=
  endsOr False Q r.

(** [extends r r']: the run [r'], made with more fuel, is the run [r]
    whenever [r] did not run out of fuel. *)
Definition extends {A} (r r' : outcome A * World) : Prop :=
  fst r <> OutOfFuel -> r' = r.

End Monad.

Arguments ret {World A} a.
Arguments outOfFuel {World A}.

End Async.

Declare Scope async_scope.
Delimit Scope async_scope with async.
Notation "x <- c ;; k" := (Async.bind c (fun x => k))
  (at level 100, c at next level, right associativity) : async_scope.
Open Scope async_scope.

(* ===================================================================== *)
(** ** Data model *)
(* ===================================================================== *)

(** Fields that validation requires are plain values; fields that may be
    missing from the JavaScript object are options ([None] is undefined). *)

Module Comment.

Record t := mk {
  author : JS.string;
  body : JS.string;
  body_zh : option JS.string;
  parent_id : option JS.string;
  ups : Z;
  icon_img : option JS.string;
  isContinuation : option bool
}.

End Comment.

Module Post.

Record t := mk {
  id : JS.string;
  title : JS.string;
  title_polish_zh : option JS.string;
  title_zh : option JS.string;
  subreddit : JS.string;
  selftext : option JS.string;
  selftext_zh : option JS.string;
  created : Z;
  ups : Z;
  name : JS.string;
  summary_zh : option JS.string;
  commentList : list Comment.t
}.

End Post.

Inductive PageType := main | main_continued | comments.

(** The page-shaped objects: the pages of the result and the data handed
    to the renderer, which are object literals with some of these keys. *)
Module Page.

Record t := mk {
  type : option PageType;
  title : option JS.string;
  title_zh : option JS.string;
  ups : option Z;
  subreddit : option JS.string;
  content_zh : option JS.string;
  content : option JS.string;
  comments : option (list Comment.t)
}.

End Page.

(** The rendering collaborator of htmlRenderer.js and the height
    measurement built on its browser: both are opaque here. They read and
    change the state of the world, and answer ([Some]) or throw ([None]). *)

Inductive Template := main_card | comment_card.

Inductive Selector := MAIN_CONTENT_SELECTOR | COMMENTS_SECTION_SELECTOR.

Class Renderer (World Html : Type) := {
  renderHTML : Template -> Page.t -> World -> option Html * World;
  measureContentHeight : Html -> Selector -> World -> option Z * World
}.

(* ===================================================================== *)
(** ** The image generator: preprocessing of the comments *)
(* ===================================================================== *)

Module ImageGenerator.

Import JS.

(** The stable sort of Array.prototype.sort under the comparator
    [(a, b) => b.ups - a.ups]: descending score, comments of equal score
    in their original order. *)
Fixpoint insertByUps (c : Comment.t) (sorted : list Comment.t)
  : list Comment.t :=
  match sorted with
  | [] => [c]
  | d :: rest =>
      if (Comment.ups c <? Comment.ups d)%Z then d :: insertByUps c rest
      else c :: sorted
  end.

Fixpoint sortByUps (l : list Comment.t) : list Comment.t :=
  match l with
  | [] => []
  | c :: rest => insertByUps c (sortByUps rest)
  end.

(** The tests of validatePostData: [!post[field]] for the required
    fields, and [!comment.author || !comment.body] for every comment. *)
Definition validatePostData (post : Post.t) : bool :=
  negb (length (Post.id post) =? 0)
  && negb (length (Post.title post) =? 0)
  && negb (length (Post.subreddit post) =? 0)
  && negb (Post.created post =? 0)%Z
  && negb (Post.ups post =? 0)%Z
  && negb (length (Post.name post) =? 0)
  && forallb (fun c => negb (length (Comment.author c) =? 0)
                       && negb (length (Comment.body c) =? 0))
       (Post.commentList post).

(** The object built by the [map] callback of preprocessPostData. *)
Definition cleanComment (c : Comment.t) : Comment.t :=
  {| Comment.author := trim (Comment.author c);
     Comment.body := Comment.body c;
     Comment.body_zh := Some (orEmpty (Comment.body_zh c));
     Comment.parent_id := Comment.parent_id c;
     Comment.ups := Comment.ups c;
     Comment.icon_img := Comment.icon_img c;
     Comment.isContinuation := Comment.isContinuation c |}.

(** [None] when validatePostData throws. *)
Definition preprocessPostData (post : Post.t) : option Post.t :=
  if validatePostData post then
    Some {| Post.id := Post.id post;
            Post.title := Post.title post;
            Post.title_polish_zh := Some (orEmpty (Post.title_polish_zh post));
            Post.title_zh := Some (orEmpty (Post.title_zh post));
            Post.subreddit := Post.subreddit post;
            Post.selftext := Some (orEmpty (Post.selftext post));
            Post.selftext_zh := Some (orEmpty (Post.selftext_zh post));
            Post.created := Post.created post;
            Post.ups := Post.ups post;
            Post.name := Post.name post;
            Post.summary_zh := Some (orEmpty (Post.summary_zh post));
            Post.commentList :=
              sortByUps
                (map cleanComment
                   (filter (fun c => negb (length (Comment.body c) =? 0)
                                     && nonBlank (Comment.body c))
                      (Post.commentList post))) |}
  else None.

End ImageGenerator.

(* ===================================================================== *)
(** ** The pagination service *)
(* ===================================================================== *)

Module Pagination.

Import JS.
Import Async.

Definition MAX_HEIGHT_MAIN_CONTENT : Z := 800.
Definition MAX_HEIGHT_COMMENTS : Z := 900.
Definition MAX_HEIGHT_SINGLE_COMMENT : Z := 870.

(** [text.split('\n').filter(p => p.trim().length > 0)] *)
Definition paragraphs (text : string) : list string :=
  filter nonBlank (split LF text).

(** The sentence terminators U+3002 U+FF01 U+FF1F and . ! ? *)
Definition isSentenceEnd (c : char) : bool :=
  existsb (N.eqb c) [0x3002; 0xff01; 0xff1f; 0x2e; 0x21; 0x3f]%N.

Definition FULL_STOP : char := 0x3002%N.

(** One iteration of [for (const sentence of sentences)] in
    smartSplitText, on the pair (newSegments, currentSegment). *)
Definition repackStep (st : list string * string) (sentence : string)
  : list string * string :=
  let '(newSegments, currentSegment) := st in
  let potentialSegment := currentSegment ++ sentence ++ [FULL_STOP] in
  if (150 <? length potentialSegment) && (0 <? length currentSegment) then
    (newSegments ++ [trim currentSegment], sentence ++ [FULL_STOP])
  else
    (newSegments, potentialSegment).

(** One iteration of [for (const segment of segments)] in smartSplitText. *)
Definition resplitSegment (newSegments : list string) (segment : string)
  : list string :=
  if 200 <? length segment then
    let sentences := filter nonBlank (splitBy isSentenceEnd segment) in
    if 1 <? length sentences then
      let '(newSegments', currentSegment) :=
        fold_left repackStep sentences (newSegments, []) in
      if nonBlank currentSegment then newSegments' ++ [trim currentSegment]
      else newSegments'
    else newSegments ++ [segment]
  else newSegments ++ [segment].

Definition smartSplitText (text : string) : list string :=
  if length text =? 0 then []
  else
    let segments := paragraphs text in
    if (length segments <=? 2) && (500 <? length text) then
      fold_left resplitSegment segments []
    else segments.

(** [{ ...basePageData }] of paginateMainContent. *)
Definition basePageData (post : Post.t) : Page.t :=
  {| Page.type := None;
     Page.title := Some (Post.title post);
     Page.title_zh := JS.or (Post.title_zh post) (Post.title_polish_zh post);
     Page.ups := Some (Post.ups post);
     Page.subreddit := Some (Post.subreddit post);
     Page.content_zh := None;
     Page.content := None;
     Page.comments := None |}.

(** [{ ...basePageData, type: 'main' }], also the default page of paginate. *)
Definition defaultPage (post : Post.t) : Page.t :=
  let base := basePageData post in
  {| Page.type := Some main;
     Page.title := Page.title base;
     Page.title_zh := Page.title_zh base;
     Page.ups := Page.ups base;
     Page.subreddit := Page.subreddit base;
     Page.content_zh := Page.content_zh base;
     Page.content := Page.content base;
     Page.comments := Page.comments base |}.

(** [{ ...basePageData, type, content_zh: zh.join('\n'),
       content: en.join('\n') }] *)
Definition mainPageData (post : Post.t) (ty : PageType)
  (zh en : list string) : Page.t :=
  let base := basePageData post in
  {| Page.type := Some ty;
     Page.title := Page.title base;
     Page.title_zh := Page.title_zh base;
     Page.ups := Page.ups base;
     Page.subreddit := Page.subreddit base;
     Page.content_zh := Some (join LF zh);
     Page.content := Some (join LF en);
     Page.comments := Page.comments base |}.

(** [{ comments: [comment] }] *)
Definition singleCommentData (comment : Comment.t) : Page.t :=
  {| Page.type := None; Page.title := None; Page.title_zh := None;
     Page.ups := None; Page.subreddit := None;
     Page.content_zh := None; Page.content := None;
     Page.comments := Some [comment] |}.

(** [{ type: 'comments', comments: pageComments,
       title: post.title_zh || post.title }] *)
Definition commentsPageData (post : Post.t) (pageComments : list Comment.t)
  : Page.t :=
  {| Page.type := Some comments;
     Page.title := JS.or (Post.title_zh post) (Some (Post.title post));
     Page.title_zh := None;
     Page.ups := None; Page.subreddit := None;
     Page.content_zh := None; Page.content := None;
     Page.comments := Some pageComments |}.

(** [{ ...comment, body_zh: zh.join('\n'), body: en.join('\n'),
       isContinuation }] *)
Definition commentChunk (comment : Comment.t) (zh en : list string)
  (continuation : bool) : Comment.t :=
  {| Comment.author := Comment.author comment;
     Comment.body := join LF en;
     Comment.body_zh := Some (join LF zh);
     Comment.parent_id := Comment.parent_id comment;
     Comment.ups := Comment.ups comment;
     Comment.icon_img := Comment.icon_img comment;
     Comment.isContinuation := Some continuation |}.

(** How one pass through the [try] block of the packer's inner loop ends. *)
Inductive Growth := Added | AddedAndFull | Stop.

Section WithRenderer.

Context {World Html : Type} {R : Renderer World Html}.

Local Abbreviation M := (Async.M World).

(** The height-constrained fitter: the inner [while (low <= high)] loop
    that paginateMainContent and splitComment both contain. [probe mid]
    renders the first [mid] items of the two queues and measures them. *)
Fixpoint fitSearch (probe : nat -> M Z) (limit : Z)
  (fuel low high best_fit_size : nat) : M nat :=
  if low <=? high then
    match fuel with
    | O => outOfFuel
    | S fuel' =>
        let mid := (low + high) / 2 in
        if mid =? 0 then fitSearch probe limit fuel' 1 high best_fit_size
        else
          height <- probe mid ;;
          if (0 <? height)%Z && (height <=? limit)%Z then
            fitSearch probe limit fuel' (mid + 1) high mid
          else
            fitSearch probe limit fuel' low (mid - 1) best_fit_size
    end
  else ret best_fit_size.

(** [if (best_fit_size === 0) best_fit_size = 1] *)
Definition atLeastOne (best_fit_size : nat) : nat :=
  if best_fit_size =? 0 then 1 else best_fit_size.

(** One invocation of the fitter on queues of [n] items at most: the
    search over [1, n] followed by the forced minimum of one item. *)
Definition fit (probe : nat -> M Z) (limit : Z) (fuel n : nat) : M nat :=
  found <- fitSearch probe limit fuel 1 n 0 ;;
  ret (atLeastOne found).

(** The probe of paginateMainContent. *)
Definition measureMain (post : Post.t) (remaining_zh remaining_en : list string)
  (mid : nat) : M Z :=
  html <- await (renderHTML main_card
                   (mainPageData post main (firstn mid remaining_zh)
                      (firstn mid remaining_en))) ;;
  await (measureContentHeight html MAIN_CONTENT_SELECTOR).

(** The outer [while] loop of paginateMainContent; [n] bounds its
    iterations and [fuel] those of each binary search. *)
Fixpoint mainLoop (post : Post.t) (fuel n : nat)
  (remaining_zh remaining_en : list string) (isFirstPage : bool)
  (pages : list Page.t) : M (list Page.t) :=
  if (0 <? length remaining_zh) || (0 <? length remaining_en) then
    match n with
    | O => outOfFuel
    | S n' =>
        best_fit_size <- fit (measureMain post remaining_zh remaining_en)
                           MAX_HEIGHT_MAIN_CONTENT fuel
                           (Nat.max (length remaining_zh)
                              (length remaining_en)) ;;
        let chunk_zh := firstn best_fit_size remaining_zh in
        let chunk_en := firstn best_fit_size remaining_en in
        mainLoop post fuel n'
          (skipn best_fit_size remaining_zh)
          (skipn best_fit_size remaining_en)
          false
          (pages ++ [mainPageData post
                       (if isFirstPage then main else main_continued)
                       chunk_zh chunk_en])
    end
  else ret pages.

Definition paginateMainContent (fuel : nat) (post : Post.t)
  (pages : list Page.t) : M (list Page.t) :=
  let paragraphs_zh := paragraphs (orEmpty (Post.selftext_zh post)) in
  let paragraphs_en := paragraphs (orEmpty (Post.selftext post)) in
  if (length paragraphs_zh =? 0) && (length paragraphs_en =? 0) then
    ret (pages ++ [defaultPage post])
  else
    mainLoop post fuel fuel paragraphs_zh paragraphs_en true pages.

(** The probe of splitComment. *)
Definition measureChunk (comment : Comment.t) (rem_zh rem_en : list string)
  (isFirstChunk : bool) (mid : nat) : M Z :=
  html <- await (renderHTML comment_card
                   (singleCommentData
                      (commentChunk comment (firstn mid rem_zh)
                         (firstn mid rem_en) (negb isFirstChunk)))) ;;
  await (measureContentHeight html COMMENTS_SECTION_SELECTOR).

(** The outer [while] loop of splitComment. *)
Fixpoint splitLoop (comment : Comment.t) (fuel n : nat)
  (rem_zh rem_en : list string) (isFirstChunk : bool)
  (chunks : list Comment.t) : M (list Comment.t) :=
  if (0 <? length rem_zh) || (0 <? length rem_en) then
    match n with
    | O => outOfFuel
    | S n' =>
        found <- fitSearch (measureChunk comment rem_zh rem_en isFirstChunk)
                   MAX_HEIGHT_SINGLE_COMMENT fuel 1
                   (Nat.max (length rem_zh) (length rem_en)) 0 ;;
        if (found =? 0)
           && negb ((0 <? length rem_zh) || (0 <? length rem_en)) then
          ret chunks
        else
          let best_fit_size := atLeastOne found in
          let chunk_zh := firstn best_fit_size rem_zh in
          let chunk_en := firstn best_fit_size rem_en in
          splitLoop comment fuel n'
            (skipn best_fit_size rem_zh)
            (skipn best_fit_size rem_en)
            false
            (chunks ++ [commentChunk comment chunk_zh chunk_en
                          (negb isFirstChunk)])
    end
  else ret chunks.

Definition splitComment (fuel : nat) (comment : Comment.t)
  : M (list Comment.t) :=
  let pars_zh := smartSplitText (orEmpty (Comment.body_zh comment)) in
  let pars_en := smartSplitText (Comment.body comment) in
  splitLoop comment fuel fuel pars_zh pars_en true [].

(** The body of the first [for] loop of paginateComments: what one
    comment adds to the queue. *)
Definition processComment (fuel : nat) (comment : Comment.t)
  : M (list Comment.t) :=
  try_catch
    (html <- await (renderHTML comment_card (singleCommentData comment)) ;;
     height <- await (measureContentHeight html COMMENTS_SECTION_SELECTOR) ;;
     if (MAX_HEIGHT_SINGLE_COMMENT <? height)%Z then
       splitComment fuel comment
     else ret [comment])
    (ret [comment]).

(** The first [for] loop of paginateComments. *)
Fixpoint buildQueue (fuel : nat) (comments : list Comment.t)
  (commentQueue : list Comment.t) : M (list Comment.t) :=
  match comments with
  | [] => ret commentQueue
  | comment :: rest =>
      pushed <- processComment fuel comment ;;
      buildQueue fuel rest (commentQueue ++ pushed)
  end.

(** The [try] block of the packer's inner loop, for the queue head
    [nextComment]. *)
Definition tryAdd (post : Post.t) (pageComments : list Comment.t)
  (nextComment : Comment.t) : M Growth :=
  try_catch
    (html <- await (renderHTML comment_card
                      (commentsPageData post (pageComments ++ [nextComment]))) ;;
     height <- await (measureContentHeight html COMMENTS_SECTION_SELECTOR) ;;
     if (0 <? height)%Z && (height <=? MAX_HEIGHT_COMMENTS)%Z then
       if 3 <=? length (pageComments ++ [nextComment]) then ret AddedAndFull
       else ret Added
     else ret Stop)
    (ret Stop).

(** The inner [while (commentQueue.length > 0)] loop of the packer: the
    page under construction and the queue that is left. *)
Fixpoint growPage (post : Post.t) (commentQueue pageComments : list Comment.t)
  : M (list Comment.t * list Comment.t) :=
  match commentQueue with
  | [] => ret (pageComments, commentQueue)
  | nextComment :: rest =>
      growth <- tryAdd post pageComments nextComment ;;
      match growth with
      | Added => growPage post rest (pageComments ++ [nextComment])
      | AddedAndFull => ret (pageComments ++ [nextComment], rest)
      | Stop => ret (pageComments, commentQueue)
      end
  end.

(** [if (pageComments.length === 0 && commentQueue.length > 0)
       pageComments.push(commentQueue.shift())] *)
Definition forceOne (grown : list Comment.t * list Comment.t)
  : list Comment.t * list Comment.t :=
  match grown with
  | ([], forced :: rest) => ([forced], rest)
  | _ => grown
  end.

(** The outer [while (commentQueue.length > 0)] loop of the packer. *)
Fixpoint packPages (post : Post.t) (n : nat) (commentQueue : list Comment.t)
  (pages : list Page.t) : M (list Page.t) :=
  if 0 <? length commentQueue then
    match n with
    | O => outOfFuel
    | S n' =>
        grown <- growPage post commentQueue [] ;;
        let '(pageComments, commentQueue') := forceOne grown in
        packPages post n' commentQueue'
          (if 0 <? length pageComments then
             pages ++ [commentsPageData post pageComments]
           else pages)
    end
  else ret pages.

Definition paginateComments (fuel : nat) (post : Post.t)
  (pages : list Page.t) : M (list Page.t) :=
  let comments := Post.commentList post in
  if length comments =? 0 then ret pages
  else
    commentQueue <- buildQueue fuel comments [] ;;
    packPages post fuel commentQueue pages.

Definition paginate (fuel : nat) (post : Post.t) : M (list Page.t) :=
  pages <- paginateMainContent fuel post [] ;;
  pages <- paginateComments fuel post pages ;;
  if length pages =? 0 then ret (pages ++ [defaultPage post])
  else ret pages.

End WithRenderer.

End Pagination.

(* ===================================================================== *)
(** ** Vocabulary of the specification *)
(* ===================================================================== *)

Module Spec.

Import JS.

(** The paragraphs of the content of a page (or of the body of a chunk):
    the content split on the paragraph separator; a missing or empty
    content holds no paragraph. *)
Definition splitContent (content : option string) : list string :=
  match content with
  | None => []
  | Some [] => []
  | Some s => split LF s
  end.

Definition isMainPage (p : Page.t) : bool :=
  match Page.type p with
  | Some main => true
  | Some main_continued => true
  | _ => false
  end.

Definition isCommentsPage (p : Page.t) : bool :=
  match Page.type p with
  | Some comments => true
  | _ => false
  end.

Definition commentsOf (p : Page.t) : list Comment.t :=
  match Page.comments p with
  | Some cs => cs
  | None => []
  end.

(** A paragraph as the paragraphizers produce them: not blank, and
    without a separator inside. *)
Definition cleanParagraph (p : string) : Prop :=
  nonBlank p = true /\ ~ In LF p.

(** The non-empty strings of [bodies] joined by the paragraph separator. *)
Definition joinNonEmpty (bodies : list string) : string :=
  join LF (filter (fun s => negb (length s =? 0)) bodies).

(** The paragraph counts that bound the loops of splitComment. *)
Definition chunkBound (c : Comment.t) : nat :=
  Nat.max (length (Pagination.smartSplitText (orEmpty (Comment.body_zh c))))
          (length (Pagination.smartSplitText (Comment.body c))).

(** The chunks of a split of [comment]: consecutive parts of its two
    paragraph queues, one chunk for each part. *)
Definition splitOf (comment : Comment.t) (chunks : list Comment.t) : Prop :=
  exists parts : list (list string * list string * bool),
    chunks = map (fun p => Pagination.commentChunk comment
                             (fst (fst p)) (snd (fst p)) (snd p)) parts /\
    concat (map (fun p => fst (fst p)) parts)
    = Pagination.smartSplitText (orEmpty (Comment.body_zh comment)) /\
    concat (map (fun p => snd (fst p)) parts)
    = Pagination.smartSplitText (Comment.body comment) /\
    length parts <= chunkBound comment /\
    (chunkBound comment <> 0 -> parts <> []).

(** The working queue built from [comments]: every comment, in order,
    stands for itself or is replaced by the chunks of its split. *)
Definition expansionOf (comments queue : list Comment.t) : Prop :=
  exists pieces : list (list Comment.t),
    queue = concat pieces /\
    Forall2 (fun c piece => piece = [c] \/ splitOf c piece) comments pieces.

(** A Comments page as the packer emits them: between one and three
    comments of the queue under the display title. *)
Definition packedPage (post : Post.t) (p : Page.t) : Prop :=
  exists cs, p = Pagination.commentsPageData post cs /\ 1 <= length cs <= 3.

(** A collaborator whose two capabilities always answer. *)
Definition neverThrows {World Html : Type} (R : Renderer World Html) : Prop :=
  (forall t d w, fst (renderHTML t d w) <> None) /\
  (forall h s w, fst (measureContentHeight h s w) <> None).

(** The Main and MainContinued pages of a post: at least one page, the
    pages carry the paragraphs of the two body tracks in order, and a
    post without paragraphs has the default page alone. *)
Definition mainPagesOf (post : Post.t) (mains : list Page.t) : Prop :=
  mains <> [] /\
  Forall (fun p => isMainPage p = true /\ Page.comments p = None) mains /\
  flat_map (fun p => splitContent (Page.content_zh p)) mains
  = Pagination.paragraphs (orEmpty (Post.selftext_zh post)) /\
  flat_map (fun p => splitContent (Page.content p)) mains
  = Pagination.paragraphs (orEmpty (Post.selftext post)) /\
  (Pagination.paragraphs (orEmpty (Post.selftext_zh post)) = [] ->
   Pagination.paragraphs (orEmpty (Post.selftext post)) = [] ->
   mains = [Pagination.defaultPage post]).

(** The Comments pages packed from [queue]. *)
Definition packedFrom (post : Post.t) (queue : list Comment.t)
  (packed : list Page.t) : Prop :=
  flat_map commentsOf packed = queue /\ Forall (packedPage post) packed.

(** The page sequence of a post: its main pages, then the pages packed
    from the working queue of its comments. *)
Definition paginated (post : Post.t) (pages : list Page.t) : Prop :=
  exists mains queue packed,
    pages = mains ++ packed /\
    mainPagesOf post mains /\
    expansionOf (Post.commentList post) queue /\
    packedFrom post queue packed.

(** The properties of a page sequence that the specification names. *)


(** Count cap: a Comments page carries at most three comments. *)
Definition countCapped (pages : list Page.t) : Prop :=
  Forall (fun p => isCommentsPage p = true -> length (commentsOf p) <= 3)
    pages.

(** Comment reconstruction: the non-empty bodies of the chunks, joined in
    order by the paragraph separator, are the paragraphs of the comment
    joined, for each language track; they are the body itself exactly
    when the body is empty or its paragraphs are its lines. *)
Definition reconstructs (comment : Comment.t) (chunks : list Comment.t)
  : Prop :=
  (joinNonEmpty (map Comment.body chunks)
   = join LF (Pagination.smartSplitText (Comment.body comment)) /\
   joinNonEmpty (map (fun c => orEmpty (Comment.body_zh c)) chunks)
   = join LF (Pagination.smartSplitText (orEmpty (Comment.body_zh comment))))
  /\
  (joinNonEmpty (map Comment.body chunks) = Comment.body comment <->
   Comment.body comment = [] \/
   Pagination.smartSplitText (Comment.body comment)
   = split LF (Comment.body comment)) /\
  (joinNonEmpty (map (fun c => orEmpty (Comment.body_zh c)) chunks)
   = orEmpty (Comment.body_zh comment) <->
   orEmpty (Comment.body_zh comment) = [] \/
   Pagination.smartSplitText (orEmpty (Comment.body_zh comment))
   = split LF (orEmpty (Comment.body_zh comment))).

(** Every comment of [comments] is on the Comments pages, as itself or
    as its chunks, in order: the pages carry a working queue that is the
    expansion of all the comments. *)
Definition carriesAll (comments : list Comment.t) (pages : list Page.t)
  : Prop :=
  exists queue,
    expansionOf comments queue /\
    length comments <= length queue /\
    flat_map commentsOf (filter isCommentsPage pages) = queue.

(** The whole-body rendering or measurement of [comment] throws in the
    world [w] and leaves the world [w1]. *)
Definition wholeBodyThrows {World Html : Type} {R : Renderer World Html}
  (comment : Comment.t) (w w1 : World) : Prop :=
  renderHTML comment_card (Pagination.singleCommentData comment) w
  = (None, w1)
  \/ exists html w0,
       renderHTML comment_card (Pagination.singleCommentData comment) w
       = (Some html, w0) /\
       measureContentHeight html COMMENTS_SECTION_SELECTOR w0 = (None, w1).

(** Fuel that suffices for every loop of paginate on [post]. *)
Definition fuelBound (post : Post.t) : nat :=
  Nat.max
    (Nat.max
       (length (Pagination.paragraphs (orEmpty (Post.selftext_zh post))))
       (length (Pagination.paragraphs (orEmpty (Post.selftext post)))))
    (list_sum (map (fun c => Nat.max 1 (chunkBound c))
                 (Post.commentList post))).

End Spec.

(* ===================================================================== *)
(** ** Sample collaborators and inputs *)
(* ===================================================================== *)

Module Samples.

Import JS.

(** A probe that answers the heights [h] and never throws, in a world
    without state. *)
Definition pureProbe (h : nat -> Z) (k : nat) : Async.M unit Z :=
  Async.ret (h k).

(** The heights of the worked example: 400, 850, 1300 for one, two and
    three paragraphs. *)
Definition workedHeights (k : nat) : Z := 450 * Z.of_nat k - 50.

(** Heights that start with rendering faults: 0, 0, 5, 5, ... *)
Definition faultyHeights (k : nat) : Z := if k <? 3 then 0 else 5.

(** The number of lines of a text. *)
Definition lines (s : string) : Z := Z.of_nat (length (split LF s)).

(** A collaborator without state whose markup is the page data itself. A
    main card is 400 high for one paragraph and 450 more for each further
    one (the heights of the worked example); a comment takes 100 plus 200
    for each line of its longer body. *)
Definition lineHeight (data : Page.t) : Z :=
  match Page.comments data with
  | Some cs =>
      fold_right
        (fun c acc =>
           100 + 200 * Z.max (lines (Comment.body c))
                             (lines (orEmpty (Comment.body_zh c))) + acc)%Z
        0%Z cs
  | None =>
      (450 * Z.max (lines (orEmpty (Page.content data)))
                   (lines (orEmpty (Page.content_zh data))) - 50)%Z
  end.

Definition lineRenderer : Renderer unit Page.t :=
  {| renderHTML := fun _ data w => (Some data, w);
     measureContentHeight := fun html _ w => (Some (lineHeight html), w) |}.

(** A collaborator for which everything is 1000 high: nothing fits. *)
Definition tallRenderer : Renderer unit unit :=
  {| renderHTML := fun _ _ w => (Some tt, w);
     measureContentHeight := fun _ _ w => (Some 1000%Z, w) |}.

(** A collaborator whose world counts the renderings, and whose first
    rendering throws; afterwards it is the line collaborator. *)
Definition flakyRenderer : Renderer nat Page.t :=
  {| renderHTML := fun _ data w =>
       (if w =? 0 then None else Some data, S w);
     measureContentHeight := fun html _ w => (Some (lineHeight html), w) |}.

(** Strings of ASCII letters for the samples. *)
Definition str_a : string := [0x61]%N.
Definition str_b : string := [0x62]%N.
Definition str_c : string := [0x63]%N.

Definition sampleComment (author body : string) (ups : Z) : Comment.t :=
  {| Comment.author := author;
     Comment.body := body;
     Comment.body_zh := None;
     Comment.parent_id := None;
     Comment.ups := ups;
     Comment.icon_img := None;
     Comment.isContinuation := None |}.

Definition samplePost (selftext : option string) (cs : list Comment.t)
  : Post.t :=
  {| Post.id := str_a;
     Post.title := str_a;
     Post.title_polish_zh := None;
     Post.title_zh := None;
     Post.subreddit := str_b;
     Post.selftext := selftext;
     Post.selftext_zh := None;
     Post.created := 1;
     Post.ups := 1;
     Post.name := str_c;
     Post.summary_zh := None;
     Post.commentList := cs |}.

(** The post of the worked example: three paragraphs, no comment. *)
Definition workedPost : Post.t :=
  samplePost (Some [0x41; 0x0a; 0x42; 0x0a; 0x43]%N) [].

(** A post without body and with one short comment. *)
Definition commentOnlyPost : Post.t :=
  samplePost None [sampleComment str_a str_b 1].

(** A post with four comments out of order, one of them blank. *)
Definition unsortedPost : Post.t :=
  samplePost (Some str_a)
    [sampleComment str_a str_a 5; sampleComment str_b [0x20]%N 9;
     sampleComment str_c str_b 7; sampleComment str_a str_c 3].

(** A post with thirteen short comments, of scores 1 to 13. *)
Definition thirteenPost : Post.t :=
  samplePost None
    (map (fun i => sampleComment str_a str_b (Z.of_nat i)) (seq 1 13)).

(** The post that preprocessPostData returns, or the post itself when
    validation throws. *)
Definition preprocessed (post : Post.t) : Post.t :=
  match ImageGenerator.preprocessPostData post with
  | Some cleaned => cleaned
  | None => post
  end.

End Samples.

(* ===================================================================== *)
(** ** Vocabulary of the page sequence and of the cost of a search *)
(* ===================================================================== *)

Module Order.

Import JS.

(** A run of main pages: the first one is the Main page when the run
    opens the body ([isFirstPage]), every later one is MainContinued. *)
Definition mainRun (isFirstPage : bool) (pages : list Page.t) : Prop :=
  match pages with
  | [] => True
  | first :: continued =>
      Page.type first = Some (if isFirstPage then main else main_continued) /\
      Forall (fun p => Page.type p = Some main_continued) continued
  end.

(** The order of a page sequence: one Main page, then the MainContinued
    pages, then the Comments pages. *)
Definition ordered (pages : list Page.t) : Prop :=
  exists first continued packed,
    pages = first :: continued ++ packed /\
    Page.type first = Some main /\
    Forall (fun p => Page.type p = Some main_continued) continued /\
    Forall (fun p => Page.type p = Some comments) packed.

(** The continuation flags of a run of chunks: the first chunk of a
    comment ([isFirstChunk]) is not a continuation, every later one is. *)
Definition flagged (isFirstChunk : bool) (chunks : list Comment.t) : Prop :=
  match chunks with
  | [] => True
  | first :: continued =>
      Comment.isContinuation first = Some (negb isFirstChunk) /\
      Forall (fun c => Comment.isContinuation c = Some true) continued
  end.

(** A chunk keeps what identifies its comment. *)
Definition sameIdentity (comment chunk : Comment.t) : Prop :=
  Comment.author chunk = Comment.author comment /\
  Comment.ups chunk = Comment.ups comment /\
  Comment.parent_id chunk = Comment.parent_id comment /\
  Comment.icon_img chunk = Comment.icon_img comment.

(** A probe instrumented with a counter of its invocations. *)
Definition counting {World : Type} (probe : nat -> Async.M World Z)
  (k : nat) : Async.M (World * nat) Z :=
  fun wc =>
    let '(r, w') := probe k (fst wc) in (r, (w', S (snd wc))).

(** A height within a budget, as the fitter and the packer test it. *)
Definition within (limit height : Z) : Prop :=
  (0 < height <= limit)%Z.

(** The collaborator is a function of the data: rendering and measuring
    a page data never throws and answers the height [H] of the data. *)
Definition measures {World Html : Type} (R : Renderer World Html)
  (t : Template) (s : Selector) (H : Page.t -> Z) : Prop :=
  forall data w, exists html w1 w2,
    renderHTML t data w = (Some html, w1) /\
    measureContentHeight html s w1 = (Some (H data), w2).


(** A page of the packer within the budget: its comments measured within
    the budget, or it is the single comment that is forced on a page
    when it does not fit alone. *)
Definition budgetedComments (post : Post.t) (H : Page.t -> Z)
  (cs : list Comment.t) : Prop :=
  within Pagination.MAX_HEIGHT_COMMENTS (H (Pagination.commentsPageData post cs))
  \/ length cs = 1.

(** The pages of the packer are greedy: a page is closed before it holds
    three comments only when the comment that opens the next page did
    not fit below its own comments, or when it is a forced single
    comment, which did not fit alone. *)
Fixpoint greedy (post : Post.t) (H : Page.t -> Z)
  (packed : list (list Comment.t)) : Prop :=
  match packed with
  | [] => True
  | cs :: rest =>
      match concat rest with
      | [] => True
      | next :: _ =>
          length cs = 3 \/
          ~ within Pagination.MAX_HEIGHT_COMMENTS
              (H (Pagination.commentsPageData post (cs ++ [next]))) \/
          length cs = 1 /\
          ~ within Pagination.MAX_HEIGHT_COMMENTS
              (H (Pagination.commentsPageData post cs))
      end /\ greedy post H rest
  end.

End Order.

(* ===================================================================== *)
(** ** Text utilities: truncation, cleaning and line wrapping
       (textUtils.js) *)
(* ===================================================================== *)

Module TextLayout.

Import JS TextUtils.

Definition CR : char := 0x0d%N.
Definition TAB : char := 0x09%N.
Definition SPACE : char := 0x20%N.

(** ['...'] *)
Definition ELLIPSIS : string := [0x2e; 0x2e; 0x2e]%N.

(** [s.slice(0, end)] for an integer [end]: a negative end counts from
    the end of the string. *)
Definition sliceTo (s : string) (end_ : Z) : string :=
  if (end_ <? 0)%Z then firstn (length s - Z.to_nat (- end_)) s
  else firstn (Z.to_nat end_) s.

(** truncateText, for an integer [maxLength]; the empty string is falsy. *)
Definition truncateText (text : string) (maxLength : Z) : string :=
  if (length text =? 0) || (Z.of_nat (length text) <=? maxLength)%Z then text
  else sliceTo text (maxLength - 3) ++ ELLIPSIS.

(** [s.replace(/\r\n/g, '\n')] *)
Fixpoint replaceCRLF (s : string) : string :=
  match s with
  | [] => []
  | c :: rest =>
      match rest with
      | d :: rest' =>
          if (c =? CR)%N && (d =? LF)%N then LF :: replaceCRLF rest'
          else c :: replaceCRLF rest
      | [] => [c]
      end
  end.

(** [s.replace(/\r/g, '\n')] *)
Definition replaceCR (s : string) : string :=
  map (fun c => if (c =? CR)%N then LF else c) s.

(** [s.replace(/X+/g, r)] for a class X of code units: every maximal run
    of code units of the class is replaced by [r]. *)
Fixpoint squeeze (isX : char -> bool) (r : char) (s : string) : string :=
  match s with
  | [] => []
  | c :: rest =>
      if isX c then
        match rest with
        | d :: _ =>
            if isX d then squeeze isX r rest else r :: squeeze isX r rest
        | [] => [r]
        end
      else c :: squeeze isX r rest
  end.

(** The class [ \t] *)
Definition isBlank (c : char) : bool := ((c =? SPACE) || (c =? TAB))%N.

Definition cleanText (text : string) : string :=
  if length text =? 0 then []
  else
    trim (squeeze isBlank SPACE
            (squeeze (N.eqb LF) LF (replaceCR (replaceCRLF text)))).

(** No two neighbours of [s] are both of the class. *)
Fixpoint noRun (isX : char -> bool) (s : string) : bool :=
  match s with
  | [] => true
  | c :: rest =>
      match rest with
      | d :: _ => negb (isX c && isX d) && noRun isX rest
      | [] => true
      end
  end.

(** A cleaned text: no carriage return and no tabulation, no two line
    feeds and no two spaces in a row, no white space at either end. *)
Definition cleaned (s : string) : Prop :=
  ~ In CR s /\ ~ In TAB s /\
  noRun (N.eqb LF) s = true /\ noRun (N.eqb SPACE) s = true /\
  trim s = s.

(** The code units of [s] that are not white space, in order. *)
Definition ink (s : string) : string :=
  filter (fun c => negb (isWhiteSpace c)) s.

Section Wrapping.

(** The canvas context is used for one thing: to decide whether a text
    set in the current font is wider than the line,
    [ctx.measureText(s).width > maxWidth]. *)
Variable overflows : string -> bool.

(** [maxLines]: a number of lines, or [None] for Infinity. *)
Variable maxLines : option nat.

(** [n >= maxLines] *)
Definition reached (n : nat) : bool :=
  match maxLines with
  | Some m => m <=? n
  | None => false
  end.

(** [n < maxLines] *)
Definition below (n : nat) : bool :=
  match maxLines with
  | Some m => n <? m
  | None => true
  end.

(** The loop that shortens the last line until the ellipsis fits, on the
    reversed line: [while (overflows(line + '...') && line.length > 0)
    line = line.slice(0, -1)]. *)
Fixpoint shortenRev (reversed : string) : string :=
  match reversed with
  | [] => []
  | _ :: shorter =>
      if overflows (rev reversed ++ ELLIPSIS) then shortenRev shorter
      else reversed
  end.

Definition shorten (line : string) : string :=
  rev (shortenRev (rev line)).

(** The [for] loop of wrapText over the words that are left: the lines
    and the current line when it ends, by exhaustion or by [break]. *)
Fixpoint wrapLoop (words : list string) (lines : list string)
  (currentLine : string) : list string * string :=
  match words with
  | [] => (lines, currentLine)
  | word :: rest =>
      let testLine := currentLine ++ word in
      if overflows testLine && negb (length currentLine =? 0) then
        let lines1 := lines ++ [trim currentLine] in
        if reached (length lines1) then
          let lastLine := last lines1 [] in
          (removelast lines1 ++ [shorten lastLine ++ ELLIPSIS], currentLine)
        else wrapLoop rest lines1 word
      else wrapLoop rest lines testLine
  end.

Definition wrapText (text : string) : list string :=
  if (length text =? 0) || negb (nonBlank text) then []
  else
    let '(lines, currentLine) := wrapLoop (smartSplit text) [] [] in
    if nonBlank currentLine && below (length lines) then
      lines ++ [trim currentLine]
    else lines.

End Wrapping.

End TextLayout.

(* ===================================================================== *)
(** ** The character-count paginator of the text utilities
       (paginateContent, textUtils.js) *)
(* ===================================================================== *)

(** The page objects of the character-count paginator. *)
Module LegacyPage.

Import JS.

(** A page number: [Math.floor(i / n) + 1] is NaN when [n] is zero. *)
Inductive Number := NaN | Num (n : nat).

(** The page objects of paginateContent; a key that an object literal
    does not set is [None]. *)
Record t := {
  type : PageType;
  title : option string;
  title_zh : option string;
  content : option string;
  content_zh : option string;
  ups : option Z;
  subreddit : option string;
  summary : option string;
  comments : option (list Comment.t);
  pageNumber : option Number
}.

End LegacyPage.

Module LegacyPagination.

Import JS.

(** The options of paginateContent, for natural numbers. *)
Record Options := {
  maxContentPerPage : nat;
  maxCommentsPerPage : nat;
  minPages : nat;
  maxPages : nat
}.

(** [{ maxContentPerPage = 800, maxCommentsPerPage = 3, minPages = 2,
       maxPages = 4 } = options] for no option given. *)
Definition defaults : Options :=
  {| maxContentPerPage := 800; maxCommentsPerPage := 3;
     minPages := 2; maxPages := 4 |}.

Definition firstPage (post : Post.t) : LegacyPage.t :=
  {| LegacyPage.type := main;
     LegacyPage.title := Some (Post.title post);
     LegacyPage.title_zh := JS.or (Post.title_zh post) (Post.title_polish_zh post);
     LegacyPage.content := Post.selftext post;
     LegacyPage.content_zh := Post.selftext_zh post;
     LegacyPage.ups := Some (Post.ups post);
     LegacyPage.subreddit := Some (Post.subreddit post);
     LegacyPage.summary := Post.summary_zh post;
     LegacyPage.comments := None;
     LegacyPage.pageNumber := None |}.

(** The comments that paginateContent shows: those with a non-blank
    body, in descending score order, the first twelve. *)
Definition selected (post : Post.t) : list Comment.t :=
  firstn 12
    (ImageGenerator.sortByUps
       (filter (fun c => negb (length (Comment.body c) =? 0)
                         && nonBlank (Comment.body c))
          (Post.commentList post))).

Definition commentsPage (post : Post.t) (opts : Options)
  (pageComments : list Comment.t) (i : nat) : LegacyPage.t :=
  {| LegacyPage.type := comments;
     LegacyPage.title := JS.or (JS.or (Post.title_zh post) (Post.title_polish_zh post))
                (Some (Post.title post));
     LegacyPage.title_zh := None;
     LegacyPage.content := None;
     LegacyPage.content_zh := None;
     LegacyPage.ups := None;
     LegacyPage.subreddit := None;
     LegacyPage.summary := None;
     LegacyPage.comments := Some pageComments;
     LegacyPage.pageNumber :=
       Some (if maxCommentsPerPage opts =? 0 then LegacyPage.NaN
             else LegacyPage.Num (i / maxCommentsPerPage opts + 1)) |}.

(** The loop [for (let i = 0; i < comments.length;
    i += maxCommentsPerPage)], on the pages that follow the first one:
    it ends by exhaustion, or by [break] when the page count reaches
    [maxPages]. [None]: the fuel ran out. *)
Fixpoint groupLoop (post : Post.t) (opts : Options)
  (shown : list Comment.t) (fuel i : nat) (rest : list LegacyPage.t)
  : option (list LegacyPage.t) :=
  if i <? length shown then
    match fuel with
    | O => None
    | S fuel' =>
        let pageComments := firstn (maxCommentsPerPage opts) (skipn i shown) in
        let rest1 := rest ++ [commentsPage post opts pageComments i] in
        if maxPages opts <=? S (length rest1) then Some rest1
        else groupLoop post opts shown fuel' (i + maxCommentsPerPage opts) rest1
    end
  else Some rest.

(** The two halves of the first page, cut at the middle of its content. *)
Definition firstHalf (first : LegacyPage.t) (text : string) : LegacyPage.t :=
  let midPoint := length text / 2 in
  {| LegacyPage.type := LegacyPage.type first;
     LegacyPage.title := LegacyPage.title first;
     LegacyPage.title_zh := LegacyPage.title_zh first;
     LegacyPage.content := Some (firstn midPoint text);
     LegacyPage.content_zh := Some (if truthy (LegacyPage.content_zh first)
                         then firstn midPoint (orEmpty (LegacyPage.content_zh first))
                         else []);
     LegacyPage.ups := LegacyPage.ups first;
     LegacyPage.subreddit := LegacyPage.subreddit first;
     LegacyPage.summary := LegacyPage.summary first;
     LegacyPage.comments := LegacyPage.comments first;
     LegacyPage.pageNumber := LegacyPage.pageNumber first |}.

Definition secondHalf (first : LegacyPage.t) (text : string) : LegacyPage.t :=
  let midPoint := length text / 2 in
  {| LegacyPage.type := main_continued;
     LegacyPage.title := LegacyPage.title first;
     LegacyPage.title_zh := LegacyPage.title_zh first;
     LegacyPage.content := Some (skipn midPoint text);
     LegacyPage.content_zh := Some (if truthy (LegacyPage.content_zh first)
                         then skipn midPoint (orEmpty (LegacyPage.content_zh first))
                         else []);
     LegacyPage.ups := LegacyPage.ups first;
     LegacyPage.subreddit := LegacyPage.subreddit first;
     LegacyPage.summary := None;
     LegacyPage.comments := None;
     LegacyPage.pageNumber := None |}.

(** The loop [while (pages.length < minPages && pages.length < maxPages)]
    on the first page and the pages that follow it. *)
Fixpoint ensureLoop (opts : Options) (fuel : nat) (first : LegacyPage.t)
  (rest : list LegacyPage.t) : option (list LegacyPage.t) :=
  if (S (length rest) <? minPages opts) && (S (length rest) <? maxPages opts)
  then
    match fuel with
    | O => None
    | S fuel' =>
        if truthy (LegacyPage.content first)
           && (maxContentPerPage opts <? length (orEmpty (LegacyPage.content first)))
        then
          ensureLoop opts fuel'
            (firstHalf first (orEmpty (LegacyPage.content first)))
            (secondHalf first (orEmpty (LegacyPage.content first)) :: rest)
        else Some (first :: rest)
    end
  else Some (first :: rest).

Definition paginateContent (post : Post.t) (opts : Options)
  : option (list LegacyPage.t) :=
  match
    (if 0 <? length (Post.commentList post) then
       groupLoop post opts (selected post) (S (maxPages opts)) 0 []
     else Some [])
  with
  | Some rest =>
      match ensureLoop opts (minPages opts) (firstPage post) rest with
      | Some pages => Some (firstn (maxPages opts) pages)
      | None => None
      end
  | None => None
  end.

Definition isBody (p : LegacyPage.t) : bool :=
  match LegacyPage.type p with
  | main | main_continued => true
  | comments => false
  end.

Definition shownOn (p : LegacyPage.t) : list Comment.t :=
  match LegacyPage.comments p with
  | Some cs => cs
  | None => []
  end.

End LegacyPagination.

(* ===================================================================== *)
(** ** The retry of the error handler (retryOperation, errorHandler.js) *)
(* ===================================================================== *)

Module ErrorHandler.

Import Async.

Section Retry.

Context {World A : Type}.

(** [await new Promise(resolve => setTimeout(resolve, ms))]: the world
    after the wait. The log entries that retryOperation writes are left
    out, and what is thrown is an Error object. *)
Variable sleep : Z -> World -> World.

(** [throw new AppError(...)] *)
Definition throw : M World A := fun w => (Throw, w).

(** The loop [for (let attempt = 1; attempt <= maxRetries; attempt++)]
    for the [remaining] attempts from [attempt] on, and the throw that
    follows it. *)
Fixpoint retryLoop (operation : M World A) (maxRetries : nat) (delay : Z)
  (remaining attempt : nat) : M World A :=
  match remaining with
  | O => throw
  | S remaining' =>
      try_catch operation
        (if attempt =? maxRetries then throw
         else fun w =>
                retryLoop operation maxRetries delay remaining' (S attempt)
                  (sleep (delay * Z.of_nat attempt) w))
  end.

Definition retryOperation (operation : M World A) (maxRetries : nat)
  (delay : Z) : M World A :=
  retryLoop operation maxRetries delay maxRetries 1.

End Retry.

(** An operation that follows a script, in a world that counts the
    invocations of the operation and the milliseconds waited: the
    invocation number [k] (from zero) answers [script k], or throws. *)
Definition scripted {A : Type} (script : nat -> option A)
  : M (nat * Z) A :=
  fun w =>
    (match script (fst w) with
     | Some a => Ok a
     | None => Throw
     end, (S (fst w), snd w)).

Definition clock (ms : Z) (w : nat * Z) : nat * Z :=
  (fst w, (snd w + ms)%Z).

(** The milliseconds of the [waits] waits that follow the attempts
    [attempt], [attempt + 1], ... *)
Fixpoint backoff (delay : Z) (attempt waits : nat) : Z :=
  match waits with
  | O => 0
  | S waits' =>
      (delay * Z.of_nat attempt + backoff delay (S attempt) waits')%Z
  end.

End ErrorHandler.

(* ===================================================================== *)
(** ** The image generator: batches (generateBatchCards,
       imageGenerator.js) *)
(* ===================================================================== *)

Module Batch.

Import JS Async.

Record Summary := {
  totalPosts : nat;
  successCount : nat;
  failureCount : nat;
  totalImages : nat
}.

(** The result of generateBatchCards; a failure is recorded by the id of
    its post (its message, which comes with the error, is left out). *)
Record Result (Cards : Type) := {
  successful : list Cards;
  failed : list string;
  summary : Summary
}.

Section Generate.

Context {World Cards : Type}.

(** generatePostCards with the options of the batch, as a collaborator
    that answers the cards of a post or throws. *)
Variable generatePostCards : Post.t -> World -> option Cards * World.

(** [result.images.length] *)
Variable imageCount : Cards -> nat.

(** The [for] loop of generateBatchCards. *)
Fixpoint batchLoop (posts : list Post.t) (results : list Cards)
  (errors : list string) : M World (list Cards * list string) :=
  match posts with
  | [] => ret (results, errors)
  | post :: rest =>
      both <- try_catch
                (result <- await (generatePostCards post) ;;
                 ret (results ++ [result], errors))
                (ret (results, errors ++ [Post.id post])) ;;
      batchLoop rest (fst both) (snd both)
  end.

Definition generateBatchCards (posts : list Post.t)
  : M World (Result Cards) :=
  both <- batchLoop posts [] [] ;;
  ret {| successful := fst both;
         failed := snd both;
         summary :=
           {| totalPosts := length posts;
              successCount := length (fst both);
              failureCount := length (snd both);
              totalImages :=
                fold_left (fun sum result => sum + imageCount result)
                  (fst both) 0 |} |}.

End Generate.

End Batch.

(* ===================================================================== *)
(** ** The data handed to the templates (preprocessData,
       htmlRenderer.js) *)
(* ===================================================================== *)

Module HtmlRenderer.

Import JS.

(** A comment as the template receives it:
    [{ ...comment, body_zh: comment.body_zh || comment.body,
       body: comment.body_zh ? comment.body : null }]. *)
Record ShownComment := {
  comment : Comment.t;
  body_zh : string;
  body : option string
}.

Definition showComment (c : Comment.t) : ShownComment :=
  {| comment := c;
     body_zh := if truthy (Comment.body_zh c)
                then orEmpty (Comment.body_zh c) else Comment.body c;
     body := if truthy (Comment.body_zh c)
             then Some (Comment.body c) else None |}.

(** The processed data: the data itself, the paragraph lists that are
    added to it (absent when the text is), and its comments replaced. *)
Record Processed := {
  data : Page.t;
  content_zh_paragraphs : option (list string);
  summary_zh_paragraphs : option (list string);
  content_paragraphs : option (list string);
  comments : option (list ShownComment)
}.

(** [text.split('\n').filter(p => p.trim().length > 0).slice(0, n)] for
    a truthy text. *)
Definition firstParagraphs (n : nat) (text : option string)
  : option (list string) :=
  if truthy text then Some (firstn n (Pagination.paragraphs (orEmpty text)))
  else None.

(** preprocessData on page data, and on the [summary_zh] key that a
    caller may add to it. *)
Definition preprocessData (pageData : Page.t) (summary_zh : option string)
  : Processed :=
  {| data := pageData;
     content_zh_paragraphs := firstParagraphs 6 (Page.content_zh pageData);
     summary_zh_paragraphs := firstParagraphs 4 summary_zh;
     content_paragraphs := firstParagraphs 5 (Page.content pageData);
     comments :=
       match Page.comments pageData with
       | Some cs => Some (map showComment (firstn 3 cs))
       | None => None
       end |}.

End HtmlRenderer.

(* ===================================================================== *)
(** ** The image generator: the cards of a post (generatePostCards,
       imageGenerator.js) *)
(* ===================================================================== *)

(** [{ ...pages[i], pageNumber: i + 1, totalPages }] *)
Module CardData.

Record t := {
  page : Page.t;
  pageNumber : nat;
  totalPages : nat
}.

End CardData.

(** An entry of [results]. *)
Module Image.

Record t := {
  filename : JS.string;
  filepath : JS.string;
  url : JS.string;
  pageType : option PageType;
  pageIndex : nat
}.

End Image.

(** The result of generatePostCards. *)
Module Cards.

Record t := {
  postId : JS.string;
  images : list Image.t;
  totalPages : nat;
  generatedAt : JS.string
}.

End Cards.

(** The options of generatePostCards; [None] is a key that is not given. *)
Module GenerateOptions.

Record t := {
  outputDir : option JS.string;
  baseUrl : option JS.string;
  timestamp : option nat
}.

End GenerateOptions.

(** What generatePostCards uses besides the pagination: the card
    rendering of the renderer, the file system, the clock and the path
    functions. The capabilities answer or throw; the clock and the path
    functions always answer. *)
Class Studio (World Buffer : Type) := {
  renderCard : Template -> CardData.t -> World -> option Buffer * World;
  mkdir : JS.string -> World -> option unit * World;
  writeFile : JS.string -> Buffer -> World -> option unit * World;
  dateNow : World -> nat * World;
  toISOString : World -> JS.string * World;
  setTimeout : Z -> World -> World;
  pathJoin : JS.string -> JS.string -> JS.string;
  pathDirname : JS.string -> JS.string;
  defaultOutputDir : JS.string
}.

Module CardGenerator.

Import JS Async.

(** The decimal digits of a number, as a template literal prints a
    non-negative integer. *)
Fixpoint digits (d : Decimal.uint) : string :=
  match d with
  | Decimal.Nil => []
  | Decimal.D0 d' => 0x30%N :: digits d'
  | Decimal.D1 d' => 0x31%N :: digits d'
  | Decimal.D2 d' => 0x32%N :: digits d'
  | Decimal.D3 d' => 0x33%N :: digits d'
  | Decimal.D4 d' => 0x34%N :: digits d'
  | Decimal.D5 d' => 0x35%N :: digits d'
  | Decimal.D6 d' => 0x36%N :: digits d'
  | Decimal.D7 d' => 0x37%N :: digits d'
  | Decimal.D8 d' => 0x38%N :: digits d'
  | Decimal.D9 d' => 0x39%N :: digits d'
  end.

Definition decimal (n : nat) : string := digits (Nat.to_uint n).

(** ['reddit_card_'], ['_'], ['.png'] and ['/images/'] *)
Definition REDDIT_CARD : string :=
  [0x72; 0x65; 0x64; 0x64; 0x69; 0x74; 0x5f; 0x63; 0x61; 0x72; 0x64; 0x5f]%N.
Definition UNDERSCORE : char := 0x5f%N.
Definition PNG : string := [0x2e; 0x70; 0x6e; 0x67]%N.
Definition IMAGES : string :=
  [0x2f; 0x69; 0x6d; 0x61; 0x67; 0x65; 0x73; 0x2f]%N.

(** [`reddit_card_${post.id}_${timestamp}_${pageIndex}.png`] *)
Definition fileName (post : Post.t) (timestamp pageIndex : nat) : string :=
  REDDIT_CARD ++ Post.id post ++ UNDERSCORE :: decimal timestamp
  ++ UNDERSCORE :: decimal pageIndex ++ PNG.

(** [baseUrl ? `${baseUrl}/images/${filename}` : `/images/${filename}`] *)
Definition imageUrl (baseUrl filename : string) : string :=
  if length baseUrl =? 0 then IMAGES ++ filename
  else baseUrl ++ IMAGES ++ filename.

(** [type === 'main' || type === 'main_continued' ? 'main-card'
     : 'comment-card'] *)
Definition templateOf (type : option PageType) : Template :=
  match type with
  | Some main | Some main_continued => main_card
  | _ => comment_card
  end.

Section WithStudio.

Context {World Html Buffer : Type}.
Context {R : Renderer World Html} {studio : Studio World Buffer}.

Local Abbreviation M := (Async.M World).

(** A call that always answers. *)
Definition always {A} (f : World -> A * World) : M A :=
  fun w => let '(a, w') := f w in (Ok a, w').

(** The body of the [for] loop: the image of the page [i], or the throw
    of an ImageGenerationError. *)
Definition renderPage (post : Post.t) (outputDir baseUrl : string)
  (timestamp : nat) (pageData : CardData.t) (pageIndex : nat)
  : M Image.t :=
  try_catch
    (let templateName := templateOf (Page.type (CardData.page pageData)) in
     imageBuffer <- ErrorHandler.retryOperation setTimeout
                      (await (renderCard templateName pageData)) 2 500 ;;
     let filename := fileName post timestamp pageIndex in
     let filepath := pathJoin outputDir filename in
     _ <- ErrorHandler.retryOperation setTimeout
            (_ <- await (mkdir (pathDirname filepath)) ;;
             await (writeFile filepath imageBuffer)) 3 1000 ;;
     ret {| Image.filename := filename;
            Image.filepath := filepath;
            Image.url := imageUrl baseUrl filename;
            Image.pageType := Page.type (CardData.page pageData);
            Image.pageIndex := pageIndex |})
    ErrorHandler.throw.

(** The loop [for (let i = 0; i < pages.length; i++)] on the pages from
    the index [i] on. *)
Fixpoint cardLoop (post : Post.t) (outputDir baseUrl : string)
  (timestamp totalPages : nat) (pages : list Page.t) (i : nat)
  (results : list Image.t) : M (list Image.t) :=
  match pages with
  | [] => ret results
  | page :: rest =>
      image <- renderPage post outputDir baseUrl timestamp
                 {| CardData.page := page;
                    CardData.pageNumber := i + 1;
                    CardData.totalPages := totalPages |}
                 (i + 1) ;;
      cardLoop post outputDir baseUrl timestamp totalPages rest (S i)
        (results ++ [image])
  end.

Definition generatePostCards (fuel : nat) (post : Post.t)
  (options : GenerateOptions.t) : M Cards.t :=
  try_catch
    (let outputDir :=
       match GenerateOptions.outputDir options with
       | Some dir => dir
       | None => defaultOutputDir
       end in
     let baseUrl := orEmpty (GenerateOptions.baseUrl options) in
     timestamp <- match GenerateOptions.timestamp options with
                  | Some t => ret t
                  | None => always dateNow
                  end ;;
     pages <- Pagination.paginate fuel post ;;
     results <- cardLoop post outputDir baseUrl timestamp (length pages)
                  pages 0 [] ;;
     generatedAt <- always toISOString ;;
     ret {| Cards.postId := Post.id post;
            Cards.images := results;
            Cards.totalPages := length pages;
            Cards.generatedAt := generatedAt |})
    ErrorHandler.throw.

End WithStudio.

End CardGenerator.

(* ===================================================================== *)
(** ** The cleanup service (cleanupOldImages, cleanupService.js) *)
(* ===================================================================== *)

Module Cleanup.

Import JS Async.

(** [stats] *)
Record Stats := {
  filesScanned : nat;
  filesDeleted : nat;
  filesSkipped : nat;
  errors : nat;
  totalSizeFreed : nat
}.

(** What the service reads of [fs.stat]: [mtime.getTime()] and [size]. *)
Record FileStat := {
  mtime : Z;
  size : nat
}.

(** [this.config]: the directory and the retention, a number of days
    without fraction; the file pattern is the one that the constructor
    sets. *)
Record Config := {
  imageDir : string;
  retentionDays : Z
}.

(** The file system and the clock. *)
Class Disk (World : Type) := {
  access : string -> World -> option unit * World;
  readdir : string -> World -> option (list string) * World;
  stat : string -> World -> option FileStat * World;
  unlink : string -> World -> option unit * World;
  now : World -> Z * World;
  join : string -> string -> string
}.

(** The line terminators, which the dot of a regular expression does not
    match. *)
Definition isLineTerminator (c : char) : bool :=
  ((c =? 0x0a) || (c =? 0x0d) || (c =? 0x2028) || (c =? 0x2029))%N.

(** [s] without the prefix [prefix], if it starts with it. *)
Fixpoint stripPrefix (prefix s : string) : option string :=
  match prefix, s with
  | [], _ => Some s
  | p :: prefix', c :: s' =>
      if (p =? c)%N then stripPrefix prefix' s' else None
  | _ :: _, [] => None
  end.

(** [/^reddit_card_.*\.png$/.test(filename)] *)
Definition matchesPattern (filename : string) : bool :=
  match stripPrefix CardGenerator.REDDIT_CARD filename with
  | Some rest =>
      match stripPrefix (rev CardGenerator.PNG) (rev rest) with
      | Some middle => forallb (fun c => negb (isLineTerminator c)) middle
      | None => false
      end
  | None => false
  end.

(** The time values of a Date: at most 8.64e15 milliseconds from the
    epoch. *)
Definition validTime (t : Z) : bool := (Z.abs t <=? 8640000000000000)%Z.

Definition noStats : Stats :=
  {| filesScanned := 0; filesDeleted := 0; filesSkipped := 0;
     errors := 0; totalSizeFreed := 0 |}.

(** [stats.filesScanned++], [stats.filesSkipped++], [stats.errors++] and
    the two updates that follow a deletion. *)
Definition scanned (s : Stats) : Stats :=
  {| filesScanned := S (filesScanned s); filesDeleted := filesDeleted s;
     filesSkipped := filesSkipped s; errors := errors s;
     totalSizeFreed := totalSizeFreed s |}.

Definition skipped (s : Stats) : Stats :=
  {| filesScanned := filesScanned s; filesDeleted := filesDeleted s;
     filesSkipped := S (filesSkipped s); errors := errors s;
     totalSizeFreed := totalSizeFreed s |}.

Definition failed (s : Stats) : Stats :=
  {| filesScanned := filesScanned s; filesDeleted := filesDeleted s;
     filesSkipped := filesSkipped s; errors := S (errors s);
     totalSizeFreed := totalSizeFreed s |}.

Definition deleted (s : Stats) (bytes : nat) : Stats :=
  {| filesScanned := filesScanned s; filesDeleted := S (filesDeleted s);
     filesSkipped := filesSkipped s; errors := errors s;
     totalSizeFreed := totalSizeFreed s + bytes |}.

Section WithDisk.

Context {World : Type} {disk : Disk World}.

Local Abbreviation M := (Async.M World).

(** The loop [for (const filename of files)]. The log entries are left
    out, but for the reading of the clock in the entry of a deletion. *)
Fixpoint scanLoop (config : Config) (cutoffTime : Z) (files : list string)
  (stats : Stats) : M Stats :=
  match files with
  | [] => ret stats
  | filename :: rest =>
      let stats1 := scanned stats in
      stats2 <- try_catch
                  (if negb (matchesPattern filename) then ret (skipped stats1)
                   else
                     let filepath := join (imageDir config) filename in
                     fileStat <- await (stat filepath) ;;
                     if (mtime fileStat <? cutoffTime)%Z then
                       _ <- await (unlink filepath) ;;
                       _ <- CardGenerator.always now ;;
                       ret (deleted stats1 (size fileStat))
                     else ret (skipped stats1))
                  (ret (failed stats1)) ;;
      scanLoop config cutoffTime rest stats2
  end.

(** [cutoffDate.toISOString()], evaluated for the log entry, throws a
    RangeError on a time value that a Date cannot hold. *)
Definition cleanupOldImages (config : Config) : M Stats :=
  found <- try_catch (_ <- await (access (imageDir config)) ;; ret true)
             (ret false) ;;
  if negb found then ret noStats
  else
    time <- CardGenerator.always now ;;
    let cutoffTime := (time - retentionDays config * 24 * 60 * 60 * 1000)%Z in
    if negb (validTime cutoffTime) then (fun w => (Throw, w))
    else
      files <- await (readdir (imageDir config)) ;;
      scanLoop config cutoffTime files noStats.

End WithDisk.

(** The counters add up. *)
Definition accounted (s : Stats) : Prop :=
  filesScanned s = filesDeleted s + filesSkipped s + errors s.

End Cleanup.

(* ===================================================================== *)
(** ** The pagination service, version 2.1 *)
(* ===================================================================== *)

(** The earlier version of the service that the sources keep beside
    version 3.0: the same page data and collaborator, a binary search
    that rounds its middle up and keeps the best slices, no test for a
    zero height, no count cap and no error handling. *)
Module PaginationV2.

Import JS Async.

Definition MAX_HEIGHT_MAIN_CONTENT : Z := 800.
Definition MAX_HEIGHT_COMMENTS : Z := 880.
Definition MAX_HEIGHT_SINGLE_COMMENT : Z := 850.

(** [{ ...comment, body_zh: zh.join('\n'), body: en.join('\n') }], the
    test comment of splitComment. *)
Definition testComment (comment : Comment.t) (zh en : list string)
  : Comment.t :=
  {| Comment.author := Comment.author comment;
     Comment.body := join LF en;
     Comment.body_zh := Some (join LF zh);
     Comment.parent_id := Comment.parent_id comment;
     Comment.ups := Comment.ups comment;
     Comment.icon_img := Comment.icon_img comment;
     Comment.isContinuation := Comment.isContinuation comment |}.

Section WithRenderer.

Context {World Html : Type} {R : Renderer World Html}.

Local Abbreviation M := (Async.M World).

(** The inner loop [while (low <= high)] of the three searches, with
    [mid = Math.ceil((low + high) / 2)]: [probe mid] renders and
    measures the first [mid] items, [take mid] is the slice that becomes
    the best fit. *)
Fixpoint fitSearch {B : Type} (probe : nat -> M Z) (take : nat -> B)
  (limit : Z) (fuel low high : nat) (bestFit : B) : M B :=
  if low <=? high then
    match fuel with
    | O => outOfFuel
    | S fuel' =>
        let mid := (low + high + 1) / 2 in
        height <- probe mid ;;
        if (height <=? limit)%Z then
          fitSearch probe take limit fuel' (mid + 1) high (take mid)
        else
          fitSearch probe take limit fuel' low (mid - 1) bestFit
    end
  else ret bestFit.

(** [if (bestFit.zh.length === 0 && bestFit.en.length === 0)
       bestFit = { zh: zh.slice(0, 1), en: en.slice(0, 1) }] *)
Definition orFirst (zh en : list string)
  (bestFit : list string * list string) : list string * list string :=
  if (length (fst bestFit) =? 0) && (length (snd bestFit) =? 0)
  then (firstn 1 zh, firstn 1 en) else bestFit.

Fixpoint mainLoop (post : Post.t) (fuel n : nat)
  (remaining_zh remaining_en : list string) (isFirstPage : bool)
  (pages : list Page.t) : M (list Page.t) :=
  if (0 <? length remaining_zh) || (0 <? length remaining_en) then
    match n with
    | O => outOfFuel
    | S n' =>
        found <- fitSearch
                   (Pagination.measureMain post remaining_zh remaining_en)
                   (fun mid => (firstn mid remaining_zh,
                                firstn mid remaining_en))
                   MAX_HEIGHT_MAIN_CONTENT fuel 1
                   (Nat.max (length remaining_zh) (length remaining_en))
                   ([], []) ;;
        let bestFit := orFirst remaining_zh remaining_en found in
        mainLoop post fuel n'
          (skipn (length (fst bestFit)) remaining_zh)
          (skipn (length (snd bestFit)) remaining_en)
          false
          (pages ++ [Pagination.mainPageData post
                       (if isFirstPage then main else main_continued)
                       (fst bestFit) (snd bestFit)])
    end
  else ret pages.

Definition paginateMainContent (fuel : nat) (post : Post.t)
  (pages : list Page.t) : M (list Page.t) :=
  let paragraphs_zh := Pagination.paragraphs (orEmpty (Post.selftext_zh post)) in
  let paragraphs_en := Pagination.paragraphs (orEmpty (Post.selftext post)) in
  if (length paragraphs_zh =? 0) && (length paragraphs_en =? 0) then
    ret (pages ++ [Pagination.defaultPage post])
  else
    mainLoop post fuel fuel paragraphs_zh paragraphs_en true pages.

(** The probe of splitComment. *)
Definition measureChunk (comment : Comment.t) (rem_zh rem_en : list string)
  (mid : nat) : M Z :=
  html <- await (renderHTML comment_card
                   (Pagination.singleCommentData
                      (testComment comment (firstn mid rem_zh)
                         (firstn mid rem_en)))) ;;
  await (measureContentHeight html COMMENTS_SECTION_SELECTOR).

Fixpoint splitLoop (comment : Comment.t) (fuel n : nat)
  (rem_zh rem_en : list string) (chunks : list Comment.t)
  : M (list Comment.t) :=
  if (0 <? length rem_zh) || (0 <? length rem_en) then
    match n with
    | O => outOfFuel
    | S n' =>
        found <- fitSearch (measureChunk comment rem_zh rem_en)
                   (fun mid => (firstn mid rem_zh, firstn mid rem_en))
                   MAX_HEIGHT_SINGLE_COMMENT fuel 1
                   (Nat.max (length rem_zh) (length rem_en))
                   ([], []) ;;
        let bestFit := orFirst rem_zh rem_en found in
        splitLoop comment fuel n'
          (skipn (length (fst bestFit)) rem_zh)
          (skipn (length (snd bestFit)) rem_en)
          (chunks ++ [Pagination.commentChunk comment
                        (fst bestFit) (snd bestFit)
                        (0 <? length chunks)])
    end
  else ret chunks.

Definition splitComment (fuel : nat) (comment : Comment.t)
  : M (list Comment.t) :=
  let pars_zh := Pagination.paragraphs (orEmpty (Comment.body_zh comment)) in
  let pars_en := Pagination.paragraphs (Comment.body comment) in
  splitLoop comment fuel fuel pars_zh pars_en [].

(** The first [for] loop of paginateComments. *)
Fixpoint buildQueue (fuel : nat) (comments : list Comment.t)
  (commentQueue : list Comment.t) : M (list Comment.t) :=
  match comments with
  | [] => ret commentQueue
  | comment :: rest =>
      html <- await (renderHTML comment_card
                       (Pagination.singleCommentData comment)) ;;
      height <- await (measureContentHeight html COMMENTS_SECTION_SELECTOR) ;;
      pushed <- (if (MAX_HEIGHT_SINGLE_COMMENT <? height)%Z
                 then splitComment fuel comment else ret [comment]) ;;
      buildQueue fuel rest (commentQueue ++ pushed)
  end.

(** The probe of the packing loop. *)
Definition measurePage (post : Post.t) (commentQueue : list Comment.t)
  (mid : nat) : M Z :=
  html <- await (renderHTML comment_card
                   (Pagination.commentsPageData post
                      (firstn mid commentQueue))) ;;
  await (measureContentHeight html COMMENTS_SECTION_SELECTOR).

(** The loop [while (commentQueue.length > 0)] of paginateComments. *)
Fixpoint packPages (post : Post.t) (fuel n : nat)
  (commentQueue : list Comment.t) (pages : list Page.t)
  : M (list Page.t) :=
  if 0 <? length commentQueue then
    match n with
    | O => outOfFuel
    | S n' =>
        found <- fitSearch (measurePage post commentQueue)
                   (fun mid => firstn mid commentQueue)
                   MAX_HEIGHT_COMMENTS fuel 1 (length commentQueue) [] ;;
        let bestFit := if length found =? 0 then firstn 1 commentQueue
                       else found in
        packPages post fuel n' (skipn (length bestFit) commentQueue)
          (pages ++ [Pagination.commentsPageData post bestFit])
    end
  else ret pages.

Definition paginateComments (fuel : nat) (post : Post.t)
  (pages : list Page.t) : M (list Page.t) :=
  let comments := Post.commentList post in
  if length comments =? 0 then ret pages
  else
    commentQueue <- buildQueue fuel comments [] ;;
    packPages post fuel fuel commentQueue pages.

Definition paginate (fuel : nat) (post : Post.t) : M (list Page.t) :=
  pages <- paginateMainContent fuel post [] ;;
  pages <- paginateComments fuel post pages ;;
  if length pages =? 0 then ret (pages ++ [Pagination.defaultPage post])
  else ret pages.

End WithRenderer.

(** The paragraph counts that bound the loops of splitComment. *)
Definition chunkBound (c : Comment.t) : nat :=
  Nat.max (length (Pagination.paragraphs (orEmpty (Comment.body_zh c))))
          (length (Pagination.paragraphs (Comment.body c))).

(** Fuel that suffices for every loop of paginate on [post]. *)
Definition fuelBound (post : Post.t) : nat :=
  Nat.max
    (Nat.max
       (length (Pagination.paragraphs (orEmpty (Post.selftext_zh post))))
       (length (Pagination.paragraphs (orEmpty (Post.selftext post)))))
    (list_sum (map (fun c => Nat.max 1 (chunkBound c))
                 (Post.commentList post))).

(** The chunks of a split of [comment]: consecutive parts of its two
    paragraph queues, one chunk for each part, the first one alone not
    flagged as a continuation. *)
Definition splitOf (comment : Comment.t) (chunks : list Comment.t) : Prop :=
  exists parts : list (list string * list string),
    chunks = map (fun ip => Pagination.commentChunk comment
                              (fst (snd ip)) (snd (snd ip))
                              (0 <? fst ip))
               (combine (seq 0 (length parts)) parts) /\
    concat (map fst parts)
    = Pagination.paragraphs (orEmpty (Comment.body_zh comment)) /\
    concat (map snd parts) = Pagination.paragraphs (Comment.body comment) /\
    length parts <= chunkBound comment.

(** The page sequence of version 2.1: the main pages, which carry the
    paragraphs of the body, then non-empty Comments pages that cut the
    working queue, in which every comment stands for itself or for the
    chunks of its split. *)
Definition paginated (post : Post.t) (pages : list Page.t) : Prop :=
  exists mains pieces packed,
    pages = mains ++ map (Pagination.commentsPageData post) packed /\
    Spec.mainPagesOf post mains /\
    Forall2 (fun c piece => piece = [c] \/ splitOf c piece)
      (Post.commentList post) pieces /\
    concat packed = concat pieces /\
    Forall (fun cs => cs <> []) packed.

End PaginationV2.

(* ===================================================================== *)
(** ** Further sample collaborators and inputs *)
(* ===================================================================== *)

Module Cases.

Import JS Samples.

(** A collaborator that throws on every rendering and measurement. *)
Definition failingRenderer : Renderer unit unit :=
  {| renderHTML := fun _ _ w => (None, w);
     measureContentHeight := fun _ _ w => (None, w) |}.

(** Five comments of one line: with the line collaborator a page of
    three is 900 high and a page of four would be 1200. *)
Definition fivePost : Post.t :=
  samplePost None
    (map (fun i => sampleComment str_a str_b (Z.of_nat i)) (seq 1 5)).

(** Three comments, the first and the last of the same score. *)
Definition tiedPost : Post.t :=
  samplePost (Some str_a)
    [sampleComment str_a str_a 5; sampleComment str_b str_b 7;
     sampleComment str_c str_c 5].

(** "hi yo" *)
Definition latinText : string := [0x68; 0x69; 0x20; 0x79; 0x6f]%N.

(** A canvas on which more than three code units overflow the line. *)
Definition narrowCanvas (s : string) : bool := 3 <? length s.

(** Options that force the cut of a short body: pages of two code units
    at most, three pages at least. *)
Definition smallOptions : LegacyPagination.Options :=
  {| LegacyPagination.maxContentPerPage := 2;
     LegacyPagination.maxCommentsPerPage := 1;
     LegacyPagination.minPages := 3;
     LegacyPagination.maxPages := 4 |}.

(** An operation that throws twice and then answers its invocation
    number, and one that always throws. *)
Definition failTwice (k : nat) : option nat :=
  if k <? 2 then None else Some k.

Definition failAlways (k : nat) : option nat := None.

(** Collaborators of the card generator that always answer: the clock
    shows 7, a path is its directory, a slash and its name. *)
Definition plainStudio : Studio unit unit :=
  {| renderCard := fun _ _ w => (Some tt, w);
     mkdir := fun _ w => (Some tt, w);
     writeFile := fun _ _ w => (Some tt, w);
     dateNow := fun w => (7, w);
     toISOString := fun w => ([], w);
     setTimeout := fun _ w => w;
     pathJoin := fun dir name => dir ++ 0x2f%N :: name;
     pathDirname := fun path => path;
     defaultOutputDir := str_a |}.

Definition noOptions : GenerateOptions.t :=
  {| GenerateOptions.outputDir := None;
     GenerateOptions.baseUrl := None;
     GenerateOptions.timestamp := None |}.

(** A file system on which no file can be inspected or deleted. *)
Definition lockedDisk : Cleanup.Disk unit :=
  {| Cleanup.access := fun _ w => (Some tt, w);
     Cleanup.readdir := fun _ w => (Some [], w);
     Cleanup.stat := fun _ w => (None, w);
     Cleanup.unlink := fun _ w => (None, w);
     Cleanup.now := fun w => (0%Z, w);
     Cleanup.join := fun dir name => dir ++ 0x2f%N :: name |}.

Definition sampleConfig : Cleanup.Config :=
  {| Cleanup.imageDir := str_a; Cleanup.retentionDays := 1 |}.

(** "a.png" and "reddit_card_" *)
Definition otherFiles : list string :=
  [str_a ++ CardGenerator.PNG; CardGenerator.REDDIT_CARD].

(** "reddit_card_a.png" *)
Definition cardFile : string :=
  CardGenerator.REDDIT_CARD ++ str_a ++ CardGenerator.PNG.

End Cases.

(* ===================================================================== *)
(** * Properties *)
(* ===================================================================== *)

(** ** Strings: split and join *)

Module JSFacts.

Import JS.

Lemma splitBy_not_nil (isSep : char -> bool) (s : string) :
  splitBy isSep s <> [].
Proof.
  destruct s as [|c s]; simpl; [discriminate|].
  destruct (isSep c); [discriminate|].
  destruct (splitBy isSep s); discriminate.
Qed.

(** No piece of a split contains a separator. *)
Lemma splitBy_pieces (isSep : char -> bool) (s : string) :
  Forall (fun p => forall c, In c p -> isSep c = false) (splitBy isSep s).
Proof.
  induction s as [|c s IH]; simpl.
  - constructor; [intros ? []|constructor].
  - destruct (isSep c) eqn:Hc.
    + constructor; [intros ? []|assumption].
    + destruct (splitBy isSep s) as [|p ps]; inversion IH; subst.
      * constructor; [|constructor]. intros x [<- | []]. assumption.
      * constructor; [|assumption].
        intros x [<- | Hx]; [assumption | auto].
Qed.

Lemma splitBy_whole (isSep : char -> bool) (p : string) :
  (forall c, In c p -> isSep c = false) -> splitBy isSep p = [p].
Proof.
  induction p as [|c p IH]; intros H; simpl; [reflexivity|].
  rewrite (H c (or_introl eq_refl)).
  rewrite IH; [reflexivity|]. intros x Hx. apply H. right. assumption.
Qed.

Lemma splitBy_app_sep (isSep : char -> bool) (p rest : string) (sep : char) :
  isSep sep = true ->
  (forall c, In c p -> isSep c = false) ->
  splitBy isSep (p ++ sep :: rest) = p :: splitBy isSep rest.
Proof.
  intros Hsep. induction p as [|c p IH]; intros H; simpl.
  - rewrite Hsep. reflexivity.
  - rewrite (H c (or_introl eq_refl)).
    rewrite IH; [reflexivity|]. intros x Hx. apply H. right. assumption.
Qed.

(** Splitting a join gives the parts back, when no part contains the
    separator and there is a part at all. *)
Lemma splitBy_join (isSep : char -> bool) (sep : char) (l : list string) :
  isSep sep = true ->
  Forall (fun p => forall c, In c p -> isSep c = false) l ->
  l <> [] ->
  splitBy isSep (join sep l) = l.
Proof.
  intros Hsep Hl. induction Hl as [|p ps Hp Hps IH]; intros Hne.
  - exfalso. apply Hne. reflexivity.
  - destruct ps as [|q ps].
    + simpl. apply splitBy_whole. assumption.
    + change (join sep (p :: q :: ps)) with (p ++ sep :: join sep (q :: ps)).
      rewrite splitBy_app_sep by assumption.
      rewrite IH; [reflexivity | discriminate].
Qed.

(** Joining a split gives the string back. *)
Lemma join_splitBy (sep : char) (s : string) :
  join sep (splitBy (N.eqb sep) s) = s.
Proof.
  induction s as [|c s IH]; simpl; [reflexivity|].
  destruct (N.eqb_spec sep c) as [<- | Hne].
  - pose proof (@splitBy_not_nil (N.eqb sep) s) as Hnn.
    destruct (splitBy (N.eqb sep) s) as [|p ps]; [congruence|].
    change (join sep ([] :: p :: ps)) with ([] ++ sep :: join sep (p :: ps)).
    rewrite IH. reflexivity.
  - pose proof (@splitBy_not_nil (N.eqb sep) s) as Hnn.
    destruct (splitBy (N.eqb sep) s) as [|p ps]; [congruence|].
    destruct ps as [|q ps]; simpl in *; rewrite <- IH; reflexivity.
Qed.

Lemma join_cons (sep : char) (p : string) (l : list string) :
  l <> [] -> join sep (p :: l) = p ++ sep :: join sep l.
Proof. destruct l; [congruence | reflexivity]. Qed.

Lemma join_app (sep : char) (l1 l2 : list string) :
  l1 <> [] -> l2 <> [] ->
  join sep (l1 ++ l2) = join sep l1 ++ sep :: join sep l2.
Proof.
  intros H1 H2. induction l1 as [|p l1 IH]; [congruence|].
  destruct l1 as [|q l1].
  - simpl app. rewrite join_cons by assumption. reflexivity.
  - change ((p :: q :: l1) ++ l2) with (p :: (q :: l1) ++ l2).
    rewrite join_cons by discriminate.
    rewrite IH by discriminate.
    rewrite (@join_cons sep p (q :: l1)) by discriminate.
    rewrite <- app_assoc. reflexivity.
Qed.

Lemma nonBlank_not_nil (p : string) : nonBlank p = true -> p <> [].
Proof. intros H ->. discriminate. Qed.

Lemma join_nil_inv (sep : char) (l : list string) :
  Forall (fun p => p <> []) l -> join sep l = [] -> l = [].
Proof.
  intros Hl Hj. destruct Hl as [|p ps Hp Hps]; [reflexivity|].
  exfalso. destruct ps as [|q ps]; simpl in Hj.
  - congruence.
  - destruct p; [congruence | discriminate].
Qed.

(** *** White space and trimming *)

Lemma hasInk_app (a b : string) : hasInk (a ++ b) = hasInk a || hasInk b.
Proof. apply existsb_app. Qed.

Lemma hasInk_rev (s : string) : hasInk (rev s) = hasInk s.
Proof.
  induction s as [|c s IH]; [reflexivity|].
  simpl rev. rewrite hasInk_app, IH. simpl.
  rewrite orb_false_r. apply orb_comm.
Qed.

Lemma hasInk_trimStart (s : string) : hasInk (trimStart s) = hasInk s.
Proof.
  induction s as [|c s IH]; [reflexivity|].
  unfold hasInk in *. cbn [trimStart existsb].
  destruct (isWhiteSpace c) eqn:Hc; [exact IH|].
  cbn [existsb]. rewrite Hc. reflexivity.
Qed.

Lemma trimStart_blank (s : string) : hasInk s = false -> trimStart s = [].
Proof.
  induction s as [|c s IH]; [reflexivity|].
  unfold hasInk in *. cbn [trimStart existsb].
  destruct (isWhiteSpace c); [exact IH | discriminate].
Qed.

Lemma hasInk_trim (s : string) : hasInk (trim s) = hasInk s.
Proof.
  unfold trim.
  rewrite hasInk_rev, hasInk_trimStart, hasInk_rev, hasInk_trimStart.
  reflexivity.
Qed.

(** A string is non-blank exactly when it holds a code unit that is not
    white space. *)
Lemma nonBlank_hasInk (s : string) : nonBlank s = hasInk s.
Proof.
  unfold nonBlank. destruct (hasInk s) eqn:H.
  - rewrite <- hasInk_trim in H.
    destruct (trim s); [discriminate | reflexivity].
  - unfold trim. rewrite (trimStart_blank s H). reflexivity.
Qed.

Lemma trim_not_nil (s : string) : hasInk s = true -> trim s <> [].
Proof.
  intros H Ht. rewrite <- hasInk_trim, Ht in H. discriminate.
Qed.

(** A string with ink has a piece with ink, when the separators are
    white space. *)
Lemma splitBy_hasInk (isSep : char -> bool) (s : string) :
  (forall c, isSep c = true -> isWhiteSpace c = true) ->
  hasInk s = true ->
  exists p, In p (splitBy isSep s) /\ hasInk p = true.
Proof.
  intros Hsep. induction s as [|c s IH]; intros Hink; [discriminate|].
  unfold hasInk in Hink. cbn [existsb] in Hink. fold (hasInk s) in Hink.
  cbn [splitBy]. destruct (isSep c) eqn:Hc.
  - rewrite (Hsep c Hc) in Hink. simpl in Hink.
    destruct (IH Hink) as (p & Hp & Hpink).
    exists p. split; [right; assumption | assumption].
  - pose proof (@splitBy_not_nil isSep s) as Hnn.
    destruct (splitBy isSep s) as [|q qs]; [congruence|].
    destruct (negb (isWhiteSpace c)) eqn:Hcink.
    + exists (c :: q). split; [left; reflexivity|].
      unfold hasInk. cbn [existsb]. rewrite Hcink. reflexivity.
    + simpl in Hink. destruct (IH Hink) as (p & [<- | Hp] & Hpink).
      * exists (c :: q). split; [left; reflexivity|].
        unfold hasInk in *. cbn [existsb]. rewrite Hpink. apply orb_true_r.
      * exists p. split; [right; assumption | assumption].
Qed.

End JSFacts.

(* ===================================================================== *)
(** ** Further properties of trimming *)
(* ===================================================================== *)

Module TrimFacts.

Import JS JSFacts.

Lemma trimStart_idem (s : string) : trimStart (trimStart s) = trimStart s.
Proof.
  induction s as [|c s IH]; [reflexivity|].
  cbn [trimStart]. destruct (isWhiteSpace c) eqn:Hc; [exact IH|].
  cbn [trimStart]. rewrite Hc. reflexivity.
Qed.

Lemma trimStart_snoc (s : string) (c : char) :
  isWhiteSpace c = false ->
  exists kept, trimStart (s ++ [c]) = kept ++ [c].
Proof.
  intros Hc. induction s as [|d s IH].
  - exists []. cbn [app trimStart]. rewrite Hc. reflexivity.
  - cbn [app trimStart]. destruct (isWhiteSpace d); [exact IH|].
    exists (d :: s). reflexivity.
Qed.

(** A trimmed string starts and ends with ink. *)
Lemma trimStart_trim (s : string) : trimStart (trim s) = trim s.
Proof.
  unfold trim.
  pose proof (trimStart_idem s) as Hidem.
  destruct (trimStart s) as [|c u] eqn:Hu; [reflexivity|].
  assert (Hc : isWhiteSpace c = false).
  { cbn [trimStart] in Hidem.
    destruct (isWhiteSpace c); [|reflexivity].
    exfalso.
    assert (Hlen : length (trimStart u) <= length u).
    { clear. induction u as [|d u IH]; [simpl; lia|].
      cbn [trimStart]. destruct (isWhiteSpace d); simpl in *; lia. }
    rewrite Hidem in Hlen. simpl in Hlen. lia. }
  cbn [rev]. destruct (@trimStart_snoc (rev u) c Hc) as (kept & ->).
  rewrite rev_app_distr. cbn [rev app trimStart]. rewrite Hc. reflexivity.
Qed.

Lemma trim_idem (s : string) : trim (trim s) = trim s.
Proof.
  unfold trim at 1. rewrite trimStart_trim.
  unfold trim. rewrite rev_involutive, trimStart_idem. reflexivity.
Qed.


Lemma trimStart_suffix (s : string) :
  exists blank, s = blank ++ trimStart s /\ hasInk blank = false.
Proof.
  induction s as [|c s (blank & Hs & Hblank)].
  - exists []. split; reflexivity.
  - cbn [trimStart]. destruct (isWhiteSpace c) eqn:Hc.
    + exists (c :: blank). split; [simpl; congruence|].
      unfold hasInk in *. cbn [existsb]. rewrite Hc, Hblank. reflexivity.
    + exists []. split; reflexivity.
Qed.

(** The trimmed string is the string without a blank prefix and a blank
    suffix. *)
Lemma trim_infix (s : string) :
  exists before after,
    s = before ++ trim s ++ after /\
    hasInk before = false /\ hasInk after = false.
Proof.
  destruct (trimStart_suffix s) as (before & Hs & Hbefore).
  destruct (trimStart_suffix (rev (trimStart s))) as (after & Hr & Hafter).
  exists before, (rev after). split; [|split].
  - unfold trim. rewrite <- rev_app_distr, <- Hr, rev_involutive. exact Hs.
  - exact Hbefore.
  - rewrite hasInk_rev. exact Hafter.
Qed.

Lemma in_trim (s : string) (c : char) : In c (trim s) -> In c s.
Proof.
  intros Hc. destruct (trim_infix s) as (before & after & Hs & _).
  rewrite Hs. apply in_or_app. right. apply in_or_app. left. exact Hc.
Qed.

End TrimFacts.

(** ** The tokenizer *)

Module TextUtilsFacts.

Import JS TextUtils.

Lemma classify_chinese (c : char) :
  classify c = chinese <-> isChinese c = true.
Proof.
  unfold classify.
  destruct (isChinese c); [tauto|].
  destruct (isEnglish c); [split; discriminate|].
  destruct (c =? 32)%N; [split; discriminate|].
  destruct (isPunctuation c); split; discriminate.
Qed.

Lemma in_pushIfNonBlank (seg cur : string) (res : list string) :
  In seg (pushIfNonBlank res cur) -> In seg res \/ seg = cur.
Proof.
  unfold pushIfNonBlank. destruct (nonBlank cur); [|tauto].
  rewrite in_app_iff. simpl. intuition.
Qed.

Lemma in_snoc {A} (x y : A) (l : list A) :
  In x (l ++ [y]) -> In x l \/ x = y.
Proof. rewrite in_app_iff. simpl. intuition. Qed.

Lemma short_snoc {A} (l : list A) (c : A) :
  (1 <? length (l ++ [c])) = false -> l ++ [c] = [c].
Proof.
  intros H. apply Nat.ltb_ge in H. rewrite length_app in H. simpl in H.
  destruct l; [reflexivity | simpl in H; lia].
Qed.

(** What one iteration does on a wide character: the character opens a
    run of its own, and the only segment that may be closed is the run
    that was open. *)
Lemma smartSplitStep_wide (st : LoopState) (c : char) :
  isChinese c = true ->
  let st' := smartSplitStep st c in
  current st' = [c] /\ lastType st' = Some chinese /\
  (forall seg, In seg (result st') -> In seg (result st) \/ seg = current st).
Proof.
  intros Hw. apply classify_chinese in Hw.
  unfold smartSplitStep. rewrite Hw.
  destruct (lastType st) as [[]|]; cbn -[Nat.ltb].
  2-5: change (1 <? 1) with false; cbn; repeat split;
       intros seg; apply in_pushIfNonBlank.
  all: destruct (1 <? length (current st ++ [c])) eqn:Hlen; cbn -[Nat.ltb].
  all: try rewrite removelast_last.
  all: repeat split; try reflexivity; try (apply short_snoc; assumption).
  all: try (intros seg Hin; apply in_snoc in Hin; assumption).
  all: intros seg Hin; left; assumption.
Qed.

(** What one iteration does on any other character: it is appended to the
    open run, unless that run ended in a wide character, in which case it
    opens a new run. *)
Lemma smartSplitStep_narrow (st : LoopState) (c : char) :
  isChinese c = false ->
  let st' := smartSplitStep st c in
  lastType st' = Some (classify c) /\
  (current st' = [c] \/
   current st' = current st ++ [c] /\ lastType st <> Some chinese) /\
  (forall seg, In seg (result st') -> In seg (result st) \/ seg = current st).
Proof.
  intros Hw.
  assert (Hc : classify c <> chinese).
  { intros H. apply classify_chinese in H. congruence. }
  unfold smartSplitStep.
  destruct (classify c); [congruence | | | |].
  all: destruct (lastType st) as [[]|]; cbn -[Nat.ltb].
  all: repeat split; try reflexivity.
  all: try (right; split; [reflexivity | congruence]).
  all: try (left; reflexivity).
  all: try (intros seg; apply in_pushIfNonBlank).
  all: intros seg Hin; left; assumption.
Qed.

(** The loop invariant of smartSplit: a wide character is alone in its
    segment, closed or open, and the open run holds one only right after
    reading it. *)
Lemma smartSplitStep_invariant (st : LoopState) (c : char) :
  (forall seg, In seg (result st) ->
     forall x, In x seg -> isChinese x = true -> seg = [x]) ->
  (forall x, In x (current st) -> isChinese x = true ->
     current st = [x] /\ lastType st = Some chinese) ->
  let st' := smartSplitStep st c in
  (forall seg, In seg (result st') ->
     forall x, In x seg -> isChinese x = true -> seg = [x]) /\
  (forall x, In x (current st') -> isChinese x = true ->
     current st' = [x] /\ lastType st' = Some chinese).
Proof.
  intros Hres Hcur.
  assert (Hold : forall seg, In seg (result st) \/ seg = current st ->
            forall x, In x seg -> isChinese x = true -> seg = [x]).
  { intros seg [Hin | ->] x Hx Hw; [eauto | apply Hcur; assumption]. }
  destruct (isChinese c) eqn:Hc.
  - destruct (smartSplitStep_wide st c Hc) as (Hcur' & Hlast' & Hres').
    cbv zeta. split.
    + intros seg Hin. apply Hold, Hres', Hin.
    + rewrite Hcur', Hlast'. intros x [<- | []] _. split; reflexivity.
  - destruct (smartSplitStep_narrow st c Hc) as (Hlast' & Hcur' & Hres').
    cbv zeta. split.
    + intros seg Hin. apply Hold, Hres', Hin.
    + intros x Hx Hw. exfalso.
      destruct Hcur' as [Heq | [Heq Hne]]; rewrite Heq in Hx.
      * destruct Hx as [<- | []]. congruence.
      * apply in_snoc in Hx as [Hx | ->]; [|congruence].
        apply Hne, (Hcur x); assumption.
Qed.

Lemma smartSplitLoop_invariant (text : string) (st : LoopState) :
  (forall seg, In seg (result st) ->
     forall x, In x seg -> isChinese x = true -> seg = [x]) ->
  (forall x, In x (current st) -> isChinese x = true ->
     current st = [x] /\ lastType st = Some chinese) ->
  let st' := fold_left smartSplitStep text st in
  (forall seg, In seg (result st') ->
     forall x, In x seg -> isChinese x = true -> seg = [x]) /\
  (forall x, In x (current st') -> isChinese x = true ->
     current st' = [x] /\ lastType st' = Some chinese).
Proof.
  revert st. induction text as [|c text IH]; intros st Hres Hcur.
  - simpl. split; assumption.
  - simpl. destruct (smartSplitStep_invariant st c Hres Hcur) as [Hres' Hcur'].
    apply IH; assumption.
Qed.

(** C9. Every segment that smartSplit produces and that contains a wide
    (CJK) character consists of exactly that one character: a wide
    character is never merged with a neighbour, wide or not. *)
Theorem smartSplit_wide_singleton (text seg : string) (c : char) :
  In seg (smartSplit text) -> In c seg -> isChinese c = true -> seg = [c].
Proof.
  unfold smartSplit, smartSplitLoop. intros Hin Hc Hw.
  apply filter_In in Hin as [Hin _].
  destruct (smartSplitLoop_invariant text
              {| result := []; current := []; lastType := None |})
    as [Hres Hcur].
  - intros ? [].
  - intros ? [].
  - cbv zeta in Hres, Hcur.
    apply in_pushIfNonBlank in Hin as [Hin | ->].
    + eapply Hres; eassumption.
    + apply Hcur; assumption.
Qed.

(** The tokenizer on a Latin word, two wide characters and a Latin word:
    the second segment is the first wide character alone. *)
Lemma smartSplit_wide_singleton_witness :
  nth 1 (smartSplit [0x68; 0x69; 0x4e2d; 0x6587; 0x6f; 0x6b]%N) []
  = [0x4e2d%N].
Proof.
  apply (smartSplit_wide_singleton
           [0x68; 0x69; 0x4e2d; 0x6587; 0x6f; 0x6b]%N).
  - vm_compute. right. left. reflexivity.
  - vm_compute. left. reflexivity.
  - reflexivity.
Defined.

End TextUtilsFacts.

(** ** Running asynchronous computations *)

Module AsyncFacts.

Import Async.

Section Facts.

Context {World : Type}.

Lemma endsOr_ret (T : Prop) {A} (Q : A -> Prop) (a : A) (w : World) :
  Q a -> endsOr T Q (ret a w).
Proof. intros H. exact H. Qed.

Lemma endsOr_weaken (T T' : Prop) {A} (Q Q' : A -> Prop)
  (r : outcome A * World) :
  (T -> T') -> (forall a, Q a -> Q' a) -> endsOr T Q r -> endsOr T' Q' r.
Proof. unfold endsOr. intros HT HQ. destruct (fst r); auto. Qed.

Lemma endsOr_bind (T : Prop) {A B} (Q : A -> Prop) (Q' : B -> Prop)
  (m : M World A) (k : A -> M World B) (w : World) :
  endsOr T Q (m w) ->
  (forall a w', Q a -> endsOr T Q' (k a w')) ->
  endsOr T Q' (bind m k w).
Proof.
  unfold endsOr, bind. intros Hm Hk.
  destruct (m w) as [[a| |] w']; simpl in *; auto.
  apply Hk. assumption.
Qed.

(** A [try] whose body returns or throws, and whose handler ends, ends
    as the handler does. *)
Lemma endsOr_try_catch (T : Prop) {A} (Q : A -> Prop)
  (body handler : M World A) (w : World) :
  endsOr True Q (body w) ->
  (forall w', endsOr T Q (handler w')) ->
  endsOr T Q (try_catch body handler w).
Proof.
  unfold endsOr, try_catch. intros Hb Hh.
  destruct (body w) as [[a| |] w']; simpl in *; auto.
  apply Hh.
Qed.

(** A capability of the collaborator answers or throws. *)
Lemma endsOr_await (T : Prop) {A} (f : World -> option A * World)
  (w : World) :
  T \/ fst (f w) <> None ->
  endsOr T (fun _ => True) (await f w).
Proof.
  unfold endsOr, await. intros HT.
  destruct (f w) as [[a|] w']; simpl in *; [exact I|].
  destruct HT as [HT | HT]; [assumption | congruence].
Qed.

Lemma endsOr_not_OutOfFuel (T : Prop) {A} (Q : A -> Prop)
  (r : outcome A * World) :
  endsOr T Q r -> fst r <> OutOfFuel.
Proof. unfold endsOr. destruct (fst r); [discriminate | discriminate | tauto]. Qed.

Lemma ends_ret {A} (Q : A -> Prop) (a : A) (w : World) :
  Q a -> ends Q (ret a w).
Proof. apply endsOr_ret. Qed.

Lemma returns_ret {A} (Q : A -> Prop) (a : A) (w : World) :
  Q a -> returns Q (ret a w).
Proof. apply endsOr_ret. Qed.

Lemma ends_weaken {A} (Q Q' : A -> Prop) (r : outcome A * World) :
  (forall a, Q a -> Q' a) -> ends Q r -> ends Q' r.
Proof. apply endsOr_weaken; auto. Qed.

Lemma returns_weaken {A} (Q Q' : A -> Prop) (r : outcome A * World) :
  (forall a, Q a -> Q' a) -> returns Q r -> returns Q' r.
Proof. apply endsOr_weaken; auto. Qed.

Lemma ends_bind {A B} (Q : A -> Prop) (Q' : B -> Prop)
  (m : M World A) (k : A -> M World B) (w : World) :
  ends Q (m w) ->
  (forall a w', Q a -> ends Q' (k a w')) ->
  ends Q' (bind m k w).
Proof. apply endsOr_bind. Qed.

Lemma returns_bind {A B} (Q : A -> Prop) (Q' : B -> Prop)
  (m : M World A) (k : A -> M World B) (w : World) :
  returns Q (m w) ->
  (forall a w', Q a -> returns Q' (k a w')) ->
  returns Q' (bind m k w).
Proof. apply endsOr_bind. Qed.

Lemma returns_try_catch {A} (Q : A -> Prop) (body handler : M World A)
  (w : World) :
  ends Q (body w) ->
  (forall w', returns Q (handler w')) ->
  returns Q (try_catch body handler w).
Proof. apply endsOr_try_catch. Qed.

Lemma ends_await {A} (f : World -> option A * World) (w : World) :
  ends (fun _ => True) (await f w).
Proof. apply endsOr_await. left. exact I. Qed.

Lemma returns_inv {A} (Q : A -> Prop) (r : outcome A * World) :
  returns Q r -> exists a w', r = (Ok a, w') /\ Q a.
Proof.
  unfold returns, endsOr. destruct r as [[a| |] w']; simpl; try contradiction.
  intros H. exists a, w'. split; [reflexivity | assumption].
Qed.

Lemma bind_not_Throw {A B} (m : M World A) (k : A -> M World B) (w : World) :
  fst (m w) <> Throw ->
  (forall a w', fst (k a w') <> Throw) ->
  fst (bind m k w) <> Throw.
Proof.
  unfold bind. intros Hm Hk.
  destruct (m w) as [[a| |] w']; simpl in *;
    [apply Hk | congruence | discriminate].
Qed.

Lemma try_catch_not_Throw {A} (body handler : M World A) (w : World) :
  (forall w', fst (handler w') <> Throw) ->
  fst (try_catch body handler w) <> Throw.
Proof.
  unfold try_catch. intros Hh.
  destruct (body w) as [[a| |] w']; simpl;
    [discriminate | apply Hh | discriminate].
Qed.

(** Fuel only decides whether a run ends: more fuel does not change a run
    that ended. *)
Lemma extends_refl {A} (r : outcome A * World) : extends r r.
Proof. intros _. reflexivity. Qed.

Lemma extends_bind {A B} (m m' : M World A) (k k' : A -> M World B)
  (w : World) :
  extends (m w) (m' w) ->
  (forall a w', extends (k a w') (k' a w')) ->
  extends (bind m k w) (bind m' k' w).
Proof.
  unfold extends, bind. intros Hm Hk Hrun.
  destruct (m w) as [[a| |] w1] eqn:E; simpl in *.
  - rewrite (Hm ltac:(discriminate)). apply Hk. exact Hrun.
  - rewrite (Hm ltac:(discriminate)). reflexivity.
  - congruence.
Qed.

Lemma extends_try_catch {A} (body body' handler : M World A) (w : World) :
  extends (body w) (body' w) ->
  extends (try_catch body handler w) (try_catch body' handler w).
Proof.
  unfold extends, try_catch. intros Hb Hrun.
  destruct (body w) as [[a| |] w1] eqn:E; simpl in *.
  - rewrite (Hb ltac:(discriminate)). reflexivity.
  - rewrite (Hb ltac:(discriminate)). reflexivity.
  - congruence.
Qed.

End Facts.

End AsyncFacts.

(** ** The height-constrained fitter *)

Module FitterFacts.

Import Async AsyncFacts Pagination.

Lemma mid_bounds (low high : nat) :
  low <= high -> low <= (low + high) / 2 <= high.
Proof.
  intros H. split.
  - apply Nat.div_le_lower_bound; lia.
  - apply Nat.Div0.div_le_upper_bound; lia.
Qed.

Lemma atLeastOne_pos (found : nat) : 1 <= atLeastOne found.
Proof. unfold atLeastOne. destruct found; simpl; lia. Qed.

Section Search.

Context {World : Type}.
Variable probe : nat -> M World Z.
Variable limit : Z.
Variable T : Prop.

Lemma fitSearch_done (fuel low high best : nat) (w : World) :
  high < low -> fitSearch probe limit fuel low high best w = (Ok best, w).
Proof.
  intros H. apply Nat.leb_gt in H.
  destruct fuel; simpl; rewrite H; reflexivity.
Qed.

(** Whatever the probe answers, the search ends within [high + 1 - low]
    rounds: it returns the initial best fit or a probed size of the
    interval, or it stops on a throw of the probe. *)
Lemma fitSearch_total (fuel : nat) :
  forall low high best w,
  (forall k w, endsOr T (fun _ => True) (probe k w)) ->
  high + 1 - low <= fuel ->
  endsOr T (fun found => found = best \/ low <= found <= high)
    (fitSearch probe limit fuel low high best w).
Proof.
  induction fuel as [|fuel IH]; intros low high best w Hp Hfuel.
  - simpl. destruct (low <=? high) eqn:Hle.
    + apply Nat.leb_le in Hle. lia.
    + apply endsOr_ret. left. reflexivity.
  - cbn [fitSearch]. destruct (low <=? high) eqn:Hle.
    + apply Nat.leb_le in Hle.
      destruct (mid_bounds Hle) as [Hlo Hhi].
      destruct ((low + high) / 2 =? 0) eqn:Hmid.
      * apply Nat.eqb_eq in Hmid.
        eapply endsOr_weaken; [| |apply IH; [assumption | lia]]; [tauto|].
        intros found [Hfound | Hfound]; [left; assumption | right; lia].
      * apply Nat.eqb_neq in Hmid.
        eapply endsOr_bind; [apply Hp|]. intros height w1 _.
        destruct ((0 <? height)%Z && (height <=? limit)%Z).
        -- eapply endsOr_weaken; [| |apply IH; [assumption | lia]]; [tauto|].
           intros found [Hfound | Hfound]; right; lia.
        -- eapply endsOr_weaken; [| |apply IH; [assumption | lia]]; [tauto|].
           intros found [Hfound | Hfound]; [left; assumption | right; lia].
    + apply endsOr_ret. left. reflexivity.
Qed.

(** The fitter always makes progress: whatever the probe answers, with
    fuel for [n] rounds it returns a chunk size of at least one item (and
    at most [n]), or stops on a throw of the probe. *)
Lemma fit_ends (fuel n : nat) (w : World) :
  (forall k w, endsOr T (fun _ => True) (probe k w)) ->
  n <= fuel ->
  endsOr T (fun k => 1 <= k /\ k <= Nat.max 1 n) (fit probe limit fuel n w).
Proof.
  intros Hp Hfuel. unfold fit.
  apply endsOr_bind with (Q := fun found => found = 0 \/ 1 <= found <= n).
  - apply fitSearch_total; [assumption | lia].
  - intros found w' Hfound. apply endsOr_ret.
    unfold atLeastOne. destruct found; cbn [Nat.eqb]; lia.
Qed.

(** When no probe answers a positive height within the limit, the search
    keeps its initial best fit, and the fitter forces a chunk of one. *)
Lemma fitSearch_nothing_fits (fuel : nat) :
  forall low high best w,
  (forall k w, exists height w',
     probe k w = (Ok height, w') /\
     (0 <? height)%Z && (height <=? limit)%Z = false) ->
  high + 1 - low <= fuel ->
  fst (fitSearch probe limit fuel low high best w) = Ok best.
Proof.
  induction fuel as [|fuel IH]; intros low high best w Hp Hfuel.
  - rewrite fitSearch_done by lia. reflexivity.
  - cbn [fitSearch]. destruct (low <=? high) eqn:Hle; [|reflexivity].
    apply Nat.leb_le in Hle. destruct (mid_bounds Hle) as [Hlo Hhi].
    destruct ((low + high) / 2 =? 0) eqn:Hmid.
    + apply Nat.eqb_eq in Hmid. apply IH; [assumption | lia].
    + apply Nat.eqb_neq in Hmid. unfold bind.
      destruct (Hp ((low + high) / 2) w) as (height & w' & -> & ->).
      apply IH; [assumption | lia].
Qed.

Lemma fit_nothing_fits (fuel n : nat) (w : World) :
  (forall k w, exists height w',
     probe k w = (Ok height, w') /\
     (0 <? height)%Z && (height <=? limit)%Z = false) ->
  n <= fuel ->
  fst (fit probe limit fuel n w) = Ok 1.
Proof.
  intros Hp Hfuel. unfold fit, bind.
  pose proof (@fitSearch_nothing_fits fuel 1 n 0 w Hp ltac:(lia)) as Hrun.
  destruct (fitSearch probe limit fuel 1 n 0 w) as [r w1]. simpl in Hrun.
  subst r. reflexivity.
Qed.

(** More fuel does not change a search that ended. *)
Lemma fitSearch_extends (fuel : nat) :
  forall fuel' low high best w,
  fuel <= fuel' ->
  extends (fitSearch probe limit fuel low high best w)
          (fitSearch probe limit fuel' low high best w).
Proof.
  induction fuel as [|fuel IH]; intros fuel' low high best w Hle.
  - destruct (low <=? high) eqn:Htest.
    + intros Hrun. simpl in Hrun. rewrite Htest in Hrun.
      exfalso. apply Hrun. reflexivity.
    + intros _. destruct fuel'; simpl; rewrite Htest; reflexivity.
  - destruct fuel' as [|fuel']; [lia|].
    cbn [fitSearch]. destruct (low <=? high); [|apply extends_refl].
    destruct ((low + high) / 2 =? 0); [apply IH; lia|].
    apply extends_bind; [apply extends_refl|].
    intros height w1.
    destruct ((0 <? height)%Z && (height <=? limit)%Z); apply IH; lia.
Qed.

Lemma fit_extends (fuel fuel' n : nat) (w : World) :
  fuel <= fuel' ->
  extends (fit probe limit fuel n w) (fit probe limit fuel' n w).
Proof.
  intros Hle. unfold fit. apply extends_bind.
  - apply fitSearch_extends. exact Hle.
  - intros found w1. apply extends_refl.
Qed.

End Search.

Section Measured.

Context {World : Type}.
Variable probe : nat -> M World Z.
Variable h : nat -> Z.
Variable limit : Z.
Variable n : nat.

(** The probe is a measurement function: it answers [h k] on [k]. *)
Hypothesis probe_measures : forall k w, fst (probe k w) = Ok (h k).

(** The size that the search finds was probed and fitted, unless it is the
    initial best fit. *)
Lemma fitSearch_found (fuel : nat) :
  forall low high best w,
  high + 1 - low <= fuel ->
  exists found,
    fst (fitSearch probe limit fuel low high best w) = Ok found /\
    (found = best \/ low <= found <= high /\ (0 < h found <= limit)%Z).
Proof.
  induction fuel as [|fuel IH]; intros low high best w Hfuel.
  - exists best. rewrite fitSearch_done by lia.
    split; [reflexivity | left; reflexivity].
  - cbn [fitSearch]. destruct (low <=? high) eqn:Hle.
    + apply Nat.leb_le in Hle.
      destruct (mid_bounds Hle) as [Hlo Hhi].
      set (mid := (low + high) / 2) in *.
      destruct (mid =? 0) eqn:Hmid.
      * apply Nat.eqb_eq in Hmid.
        destruct (IH 1 high best w ltac:(lia)) as (found & Hrun & Hfound).
        exists found. split; [assumption|].
        destruct Hfound as [-> | [Hrange Hfit]];
          [left; reflexivity | right; split; [lia | assumption]].
      * apply Nat.eqb_neq in Hmid.
        unfold bind. pose proof (probe_measures mid w) as Hm.
        destruct (probe mid w) as [r w1]. simpl in Hm. subst r.
        destruct ((0 <? h mid)%Z && (h mid <=? limit)%Z) eqn:Hfit.
        -- apply andb_true_iff in Hfit as [H0 H1].
           apply Z.ltb_lt in H0. apply Z.leb_le in H1.
           destruct (IH (mid + 1) high mid w1 ltac:(lia))
             as (found & Hrun & Hfound).
           exists found. split; [assumption|]. right.
           destruct Hfound as [-> | [Hrange Hfitf]];
             split; try lia; assumption.
        -- destruct (IH low (mid - 1) best w1 ltac:(lia))
             as (found & Hrun & Hfound).
           exists found. split; [assumption|].
           destruct Hfound as [-> | [Hrange Hfitf]];
             [left; reflexivity | right; split; [lia | assumption]].
    + exists best. split; [reflexivity | left; reflexivity].
Qed.

(** The chunk size that the fitter returns is the size found, or the
    forced size one when the search found none. *)
Lemma fit_found (fuel : nat) (w : World) :
  n <= fuel ->
  exists k,
    fst (fit probe limit fuel n w) = Ok k /\
    (k = 1 \/ 1 <= k <= n /\ (0 < h k <= limit)%Z).
Proof.
  intros Hfuel.
  destruct (@fitSearch_found fuel 1 n 0 w ltac:(lia)) as (found & Hrun & Hfound).
  exists (atLeastOne found). unfold fit, bind.
  destruct (fitSearch probe limit fuel 1 n 0 w) as [r w1]. simpl in Hrun.
  subst r. split; [reflexivity|].
  destruct Hfound as [-> | [Hrange Hfit]]; [left; reflexivity|].
  right. unfold atLeastOne.
  destruct found; [lia|]. cbn [Nat.eqb]. split; assumption.
Qed.

(** Heights do not decrease with the size of the chunk, and the smallest
    chunk has a positive height. *)
Hypothesis h_monotone : forall i j, 1 <= i -> i <= j -> j <= n -> (h i <= h j)%Z.
Hypothesis h_positive : (0 < h 1)%Z.

Lemma fits_downward (i j : nat) :
  1 <= i -> i <= j -> j <= n ->
  (0 < h j <= limit)%Z -> (0 < h i <= limit)%Z.
Proof.
  intros Hi Hij Hj [_ Hfit].
  pose proof (h_monotone Hi Hij Hj).
  pose proof (h_monotone (le_n 1) Hi ltac:(lia)).
  lia.
Qed.

(** The invariant of the search: every size below [low] fits, no size
    above [high] does, and the best fit is [low - 1]. *)
Lemma fitSearch_measured (fuel : nat) :
  forall low high best w,
  1 <= low -> high <= n -> low <= high + 1 -> high + 1 - low <= fuel ->
  best = low - 1 ->
  (forall k, 1 <= k < low -> (0 < h k <= limit)%Z) ->
  (forall k, high < k <= n -> ~ (0 < h k <= limit)%Z) ->
  exists found,
    fst (fitSearch probe limit fuel low high best w) = Ok found /\
    found <= n /\
    (forall k, 1 <= k <= found -> (0 < h k <= limit)%Z) /\
    (forall k, found < k <= n -> ~ (0 < h k <= limit)%Z).
Proof.
  induction fuel as [|fuel IH];
    intros low high best w Hlow Hhigh Hlh Hfuel Hbest Hbelow Habove.
  - exists best. rewrite fitSearch_done by lia.
    split; [reflexivity|]. split; [lia|]. split.
    + intros k Hk. apply Hbelow. lia.
    + intros k Hk. apply Habove. lia.
  - cbn [fitSearch]. destruct (low <=? high) eqn:Hle.
    + apply Nat.leb_le in Hle.
      destruct (mid_bounds Hle) as [Hlo Hhi].
      set (mid := (low + high) / 2) in *.
      replace (mid =? 0) with false by (symmetry; apply Nat.eqb_neq; lia).
      unfold bind. pose proof (probe_measures mid w) as Hm.
      destruct (probe mid w) as [r w1]. simpl in Hm. subst r.
      destruct ((0 <? h mid)%Z && (h mid <=? limit)%Z) eqn:Hfit.
      * apply andb_true_iff in Hfit as [H0 H1].
        apply Z.ltb_lt in H0. apply Z.leb_le in H1.
        apply IH; try lia; [|assumption].
        intros k Hk. apply (@fits_downward k mid); lia.
      * apply IH; try lia; [assumption|].
        intros k Hk Hfitk.
        assert (Hmidfit : (0 < h mid <= limit)%Z)
          by (apply (@fits_downward mid k); lia || assumption).
        apply andb_false_iff in Hfit as [H0 | H1].
        -- apply Z.ltb_ge in H0. lia.
        -- apply Z.leb_gt in H1. lia.
    + apply Nat.leb_gt in Hle.
      exists best. split; [reflexivity|]. split; [lia|]. split.
      * intros k Hk. apply Hbelow. lia.
      * intros k Hk. apply Habove. lia.
Qed.

(** The fitter returns the largest size that fits, or one when none does. *)
Lemma fit_measured (fuel : nat) (w : World) :
  1 <= n -> n <= fuel ->
  exists k,
    fst (fit probe limit fuel n w) = Ok k /\
    1 <= k <= n /\
    ((0 < h k <= limit)%Z /\ (forall k', k < k' <= n -> ~ (0 < h k' <= limit)%Z)
     \/ k = 1 /\ (forall k', 1 <= k' <= n -> ~ (0 < h k' <= limit)%Z)).
Proof.
  intros Hn Hfuel.
  destruct (@fitSearch_measured fuel 1 n 0 w)
    as (found & Hrun & Hle & Hfit & Hnot); try lia.
  exists (atLeastOne found). unfold fit, bind.
  simpl in Hrun.
  destruct (fitSearch probe limit fuel 1 n 0 w) as [r w1]. simpl in Hrun.
  subst r. simpl. split; [reflexivity|].
  unfold atLeastOne. destruct found as [|found]; simpl.
  - split; [lia|]. right. split; [reflexivity|].
    intros k' Hk'. apply Hnot. lia.
  - split; [lia|]. left. split; [apply Hfit; lia | assumption].
Qed.

End Measured.

(** C1, as amended. For a fitter invocation over [1, n] whose probe is a
    measurement function [h] that is monotonically non-decreasing on
    [1, n], the fitter returns a chunk size [k] in [1, n] with
    [h k <= limit] whenever some size of [1, n] is within the limit, and
    [k = 1] when none is. When moreover the smallest chunk has a positive
    height (no zero-height fault), [h k] is positive and within the limit
    whenever some size of [1, n] is so, and [k = 1] when none is. *)
Theorem fit_chunk_validity {World : Type} (probe : nat -> M World Z)
  (h : nat -> Z) (limit : Z) (n fuel : nat) (w : World) :
  (forall k w, fst (probe k w) = Ok (h k)) ->
  (forall i j, 1 <= i -> i <= j -> j <= n -> (h i <= h j)%Z) ->
  1 <= n -> n <= fuel ->
  exists k,
    fst (fit probe limit fuel n w) = Ok k /\
    1 <= k <= n /\
    ((exists k', 1 <= k' <= n /\ (h k' <= limit)%Z) -> (h k <= limit)%Z) /\
    ((forall k', 1 <= k' <= n -> ~ (h k' <= limit)%Z) -> k = 1) /\
    ((0 < h 1%nat)%Z ->
     ((exists k', 1 <= k' <= n /\ (0 < h k' <= limit)%Z) ->
      (0 < h k <= limit)%Z) /\
     ((forall k', 1 <= k' <= n -> ~ (0 < h k' <= limit)%Z) -> k = 1)).
Proof.
  intros Hm Hmono Hn Hfuel.
  destruct (@fit_found World probe h limit n Hm fuel w Hfuel)
    as (k & Hrun & Hk).
  exists k. split; [assumption|].
  split; [destruct Hk as [-> | [Hk _]]; lia|].
  split; [|split].
  - intros (k' & Hk' & Hfit).
    destruct Hk as [-> | [_ Hfitk]]; [|lia].
    pose proof (Hmono 1 k' (le_n 1) ltac:(lia) ltac:(lia)). lia.
  - intros Hnone. destruct Hk as [-> | [Hk Hfitk]]; [reflexivity|].
    exfalso. apply (Hnone k Hk). lia.
  - intros Hpos.
    destruct (@fit_measured World probe h limit n Hm Hmono Hpos fuel w Hn Hfuel)
      as (k0 & Hrun0 & _ & Hcases).
    assert (k0 = k) by congruence. subst k0. split.
    + intros (k' & Hk' & Hfit).
      destruct Hcases as [[Hfitk _] | [_ Hnone]]; [assumption|].
      exfalso. apply (Hnone k'); assumption.
    + intros Hnone.
      destruct Hcases as [[Hfitk _] | [Hk1 _]]; [|assumption].
      exfalso. apply (Hnone k); [|assumption].
      destruct Hk as [-> | [Hk _]]; lia.
Qed.

(** The worked example: heights 400, 850, 1300 and the limit 800 give a
    chunk of one paragraph. *)
Lemma fit_chunk_validity_witness :
  exists k,
    fst (fit (Samples.pureProbe Samples.workedHeights) 800 3 3 tt) = Ok k /\
    1 <= k <= 3 /\
    ((exists k', 1 <= k' <= 3 /\ (Samples.workedHeights k' <= 800)%Z) ->
     (Samples.workedHeights k <= 800)%Z) /\
    ((forall k', 1 <= k' <= 3 -> ~ (Samples.workedHeights k' <= 800)%Z) ->
     k = 1) /\
    ((0 < Samples.workedHeights 1)%Z ->
     ((exists k', 1 <= k' <= 3 /\ (0 < Samples.workedHeights k' <= 800)%Z) ->
      (0 < Samples.workedHeights k <= 800)%Z) /\
     ((forall k', 1 <= k' <= 3 ->
         ~ (0 < Samples.workedHeights k' <= 800)%Z) -> k = 1)).
Proof.
  apply (@fit_chunk_validity unit (Samples.pureProbe Samples.workedHeights)
           Samples.workedHeights 800 3 3 tt).
  - intros k w. reflexivity.
  - intros i j Hi Hij Hj. unfold Samples.workedHeights. lia.
  - lia.
  - lia.
Defined.

(** The fitter moreover returns the largest size that fits. *)
Lemma fit_largest {World : Type} (probe : nat -> M World Z)
  (h : nat -> Z) (limit : Z) (n fuel : nat) (w : World) (k : nat) :
  (forall k w, fst (probe k w) = Ok (h k)) ->
  (forall i j, 1 <= i -> i <= j -> j <= n -> (h i <= h j)%Z) ->
  (0 < h 1%nat)%Z ->
  1 <= n -> n <= fuel ->
  fst (fit probe limit fuel n w) = Ok k ->
  forall k', k < k' <= n -> ~ (0 < h k' <= limit)%Z.
Proof.
  intros Hm Hmono Hpos Hn Hfuel Hrun k' Hk'.
  destruct (@fit_measured World probe h limit n Hm Hmono Hpos fuel w Hn Hfuel)
    as (k0 & Hrun0 & Hk0 & Hcases).
  assert (k0 = k) by congruence. subst k0.
  destruct Hcases as [[_ Hlarger] | [_ Hnone]].
  - apply Hlarger. assumption.
  - apply Hnone. lia.
Qed.

(** C1, as stated, fails when the monotone measurement starts with
    zero-height faults: with heights 0, 0, 5 and the limit 800 the size 3
    has a positive height within the limit, but the search discards the
    upper half after the fault at 2, finds nothing, and the forced chunk
    of one item has height 0. *)
Lemma fit_chunk_validity_counterexample :
  (forall i j, i <= j ->
     (Samples.faultyHeights i <= Samples.faultyHeights j)%Z) /\
  (exists k', 1 <= k' <= 3 /\ (0 < Samples.faultyHeights k' <= 800)%Z) /\
  fst (fit (Samples.pureProbe Samples.faultyHeights) 800 3 3 tt) = Ok 1 /\
  ~ (0 < Samples.faultyHeights 1 <= 800)%Z.
Proof.
  split; [|split; [|split]].
  - intros i j Hij. unfold Samples.faultyHeights.
    destruct (Nat.ltb_spec i 3), (Nat.ltb_spec j 3); lia.
  - exists 3. split; [lia|]. vm_compute. split; [reflexivity|discriminate].
  - reflexivity.
  - vm_compute. intros [H _]. discriminate.
Qed.

End FitterFacts.

(** ** The preprocessing of the comments *)

Module ImageGeneratorFacts.

Import JS ImageGenerator.

Lemma insertByUps_perm (c : Comment.t) (l : list Comment.t) :
  Permutation (insertByUps c l) (c :: l).
Proof.
  induction l as [|d rest IH]; simpl; [reflexivity|].
  destruct (Comment.ups c <? Comment.ups d)%Z; [|reflexivity].
  rewrite IH. apply perm_swap.
Qed.

Lemma sortByUps_perm (l : list Comment.t) : Permutation (sortByUps l) l.
Proof.
  induction l as [|c rest IH]; simpl; [reflexivity|].
  rewrite insertByUps_perm. constructor. assumption.
Qed.

Lemma insertByUps_sorted (c : Comment.t) (l : list Comment.t) :
  StronglySorted (fun a b => (Comment.ups b <= Comment.ups a)%Z) l ->
  StronglySorted (fun a b => (Comment.ups b <= Comment.ups a)%Z)
    (insertByUps c l).
Proof.
  induction 1 as [|d rest Hsorted IH Hd]; simpl.
  - constructor; constructor.
  - destruct (Comment.ups c <? Comment.ups d)%Z eqn:Hlt.
    + apply Z.ltb_lt in Hlt. constructor; [assumption|].
      apply (Permutation_Forall (Permutation_sym (insertByUps_perm c rest))).
      constructor; [lia | assumption].
    + apply Z.ltb_ge in Hlt. constructor.
      * constructor; assumption.
      * constructor; [assumption|].
        eapply Forall_impl; [|exact Hd]. intros x Hx. simpl in Hx. lia.
Qed.

(** The sort puts the comments in descending score order. *)
Lemma sortByUps_sorted (l : list Comment.t) :
  StronglySorted (fun a b => (Comment.ups b <= Comment.ups a)%Z)
    (sortByUps l).
Proof.
  induction l as [|c rest IH]; simpl; [constructor|].
  apply insertByUps_sorted. assumption.
Qed.

Lemma preprocess_filter (l : list Comment.t) :
  filter (fun c => negb (length (Comment.body c) =? 0)
                   && nonBlank (Comment.body c)) l
  = filter (fun c => nonBlank (Comment.body c)) l.
Proof.
  apply filter_ext. intros c.
  destruct (Comment.body c); reflexivity.
Qed.

(** What preprocessPostData makes of the comments: the comments with a
    non-blank body, cleaned, in descending score order; none is cut off. *)
Lemma preprocessPostData_comments (post cleaned : Post.t) :
  preprocessPostData post = Some cleaned ->
  Post.commentList cleaned
  = sortByUps (map cleanComment
                 (filter (fun c => nonBlank (Comment.body c))
                    (Post.commentList post))) /\
  Post.selftext cleaned = Some (orEmpty (Post.selftext post)) /\
  Post.selftext_zh cleaned = Some (orEmpty (Post.selftext_zh post)).
Proof.
  unfold preprocessPostData. destruct (validatePostData post); [|discriminate].
  intros H. injection H as <-. cbn [Post.commentList Post.selftext Post.selftext_zh].
  rewrite preprocess_filter. repeat split; reflexivity.
Qed.

End ImageGeneratorFacts.

(** ** The pagination loops *)

Module PaginationFacts.

Import JS Async AsyncFacts Pagination Spec JSFacts TrimFacts FitterFacts.

Lemma Forall_firstn {A} (P : A -> Prop) (n : nat) (l : list A) :
  Forall P l -> Forall P (firstn n l).
Proof.
  intros H. rewrite <- (firstn_skipn n l) in H.
  apply Forall_app in H. tauto.
Qed.

Lemma Forall_skipn {A} (P : A -> Prop) (n : nat) (l : list A) :
  Forall P l -> Forall P (skipn n l).
Proof.
  intros H. rewrite <- (firstn_skipn n l) in H.
  apply Forall_app in H. tauto.
Qed.

Lemma filter_all_true {A} (f : A -> bool) (l : list A) :
  Forall (fun x => f x = true) l -> filter f l = l.
Proof.
  induction 1 as [|x l Hx Hl IH]; [reflexivity|].
  simpl. rewrite Hx, IH. reflexivity.
Qed.

(** The source's paragraphs are clean. *)
Lemma paragraphs_clean (text : string) :
  Forall cleanParagraph (paragraphs text).
Proof.
  unfold paragraphs, split. apply Forall_forall. intros p Hp.
  apply filter_In in Hp as [Hp Hnb]. split; [assumption|].
  intros Hin.
  pose proof (splitBy_pieces (N.eqb LF) text) as Hpieces.
  rewrite Forall_forall in Hpieces.
  specialize (Hpieces p Hp LF Hin). rewrite N.eqb_refl in Hpieces.
  discriminate.
Qed.

(** Joining clean paragraphs and splitting the content again is lossless,
    also for no paragraph at all. *)
Lemma splitContent_join (l : list string) :
  Forall cleanParagraph l -> splitContent (Some (join LF l)) = l.
Proof.
  intros Hl. destruct l as [|p ps]; [reflexivity|].
  assert (Hne : join LF (p :: ps) <> []).
  { intros Hj. apply join_nil_inv in Hj; [discriminate|].
    eapply Forall_impl; [|exact Hl].
    intros q [Hq _]. apply nonBlank_not_nil. assumption. }
  unfold splitContent.
  destruct (join LF (p :: ps)) as [|c s] eqn:Hj; [congruence|].
  rewrite <- Hj. unfold split. apply splitBy_join.
  - apply N.eqb_refl.
  - eapply Forall_impl; [|exact Hl].
    intros q [_ Hq] x Hx. apply N.eqb_neq. intros <-. contradiction.
  - discriminate.
Qed.

(** The paragraphizer of the source reads a content the same way. *)
Lemma paragraphs_join (l : list string) :
  Forall cleanParagraph l -> paragraphs (join LF l) = l.
Proof.
  intros Hl. destruct l as [|p ps]; [reflexivity|].
  unfold paragraphs, split. rewrite splitBy_join.
  - apply filter_all_true. eapply Forall_impl; [|exact Hl].
    intros q [Hq _]. exact Hq.
  - apply N.eqb_refl.
  - eapply Forall_impl; [|exact Hl].
    intros q [_ Hq] x Hx. apply N.eqb_neq. intros <-. contradiction.
  - discriminate.
Qed.

(** *** The paragraphs of smartSplitText *)

Lemma hasInk_full_stop (s : string) : hasInk (s ++ [FULL_STOP]) = true.
Proof. rewrite hasInk_app. simpl. apply orb_true_r. Qed.

Lemma repackStep_pieces (sentences : list string) :
  forall newSegments currentSegment,
  Forall (fun p => p <> []) newSegments ->
  (currentSegment = [] \/ hasInk currentSegment = true) ->
  Forall (fun p => p <> [])
    (fst (fold_left repackStep sentences (newSegments, currentSegment))) /\
  (snd (fold_left repackStep sentences (newSegments, currentSegment)) = [] \/
   hasInk (snd (fold_left repackStep sentences (newSegments, currentSegment)))
   = true) /\
  (sentences <> [] ->
   hasInk (snd (fold_left repackStep sentences (newSegments, currentSegment)))
   = true).
Proof.
  induction sentences as [|sentence sentences IH];
    intros newSegments currentSegment Hnew Hcur.
  - simpl. split; [assumption|]. split; [assumption|]. congruence.
  - cbn [fold_left].
    assert (Hstep : exists ns cs,
              repackStep (newSegments, currentSegment) sentence = (ns, cs) /\
              Forall (fun p => p <> []) ns /\ hasInk cs = true).
    { unfold repackStep.
      destruct ((150 <? length (currentSegment ++ sentence ++ [FULL_STOP]))
                && (0 <? length currentSegment)) eqn:Hcond.
      - apply andb_true_iff in Hcond as [_ Hlen]. apply Nat.ltb_lt in Hlen.
        assert (Hink : hasInk currentSegment = true).
        { destruct Hcur as [-> | H]; [simpl in Hlen; lia | assumption]. }
        eexists _, _. split; [reflexivity|]. split.
        + apply Forall_app. split; [assumption|].
          constructor; [|constructor]. apply trim_not_nil. assumption.
        + apply hasInk_full_stop.
      - eexists _, _. split; [reflexivity|]. split; [assumption|].
        rewrite app_assoc. apply hasInk_full_stop. }
    destruct Hstep as (ns & cs & -> & Hns & Hcs).
    destruct (IH ns cs Hns (or_intror Hcs)) as (H1 & H2 & H3).
    split; [assumption|]. split; [assumption|]. intros _.
    destruct sentences; [exact Hcs | apply H3; discriminate].
Qed.

Lemma repack_result (sentences newSegments ns : list string)
  (cs : string) :
  fold_left repackStep sentences (newSegments, []) = (ns, cs) ->
  Forall (fun p => p <> []) newSegments ->
  sentences <> [] ->
  Forall (fun p => p <> []) ns /\ hasInk cs = true.
Proof.
  intros E Hnew Hne.
  destruct (@repackStep_pieces sentences newSegments [] Hnew
              (or_introl eq_refl)) as (H1 & _ & H3).
  unfold string in *.
  rewrite E in H1, H3. split; [exact H1 | exact (H3 Hne)].
Qed.

Lemma resplitSegment_pieces (newSegments : list string) (segment : string) :
  Forall (fun p => p <> []) newSegments ->
  nonBlank segment = true ->
  Forall (fun p => p <> []) (resplitSegment newSegments segment) /\
  resplitSegment newSegments segment <> [].
Proof.
  intros Hnew Hseg.
  assert (Hpush : Forall (fun p => p <> []) (newSegments ++ [segment]) /\
                  newSegments ++ [segment] <> []).
  { split.
    - apply Forall_app. split; [assumption|].
      constructor; [|constructor]. apply nonBlank_not_nil. assumption.
    - destruct newSegments; discriminate. }
  unfold resplitSegment.
  destruct (200 <? length segment); [|assumption].
  destruct (1 <? length (filter nonBlank (splitBy isSentenceEnd segment)))
    eqn:Hmany; [|assumption].
  destruct (fold_left repackStep
              (filter nonBlank (splitBy isSentenceEnd segment))
              (newSegments, [])) as [newSegments' currentSegment] eqn:E.
  apply repack_result in E as [H1 Hink]; [|assumption|].
  - rewrite nonBlank_hasInk, Hink. split.
    + apply Forall_app. split; [assumption|].
      constructor; [|constructor]. apply trim_not_nil. assumption.
    + destruct newSegments'; discriminate.
  - intros Hnil. rewrite Hnil in Hmany. discriminate.
Qed.

Lemma resplit_pieces (segments : list string) :
  forall newSegments,
  Forall (fun p => p <> []) newSegments ->
  Forall (fun p => nonBlank p = true) segments ->
  Forall (fun p => p <> []) (fold_left resplitSegment segments newSegments) /\
  (newSegments <> [] \/ segments <> [] ->
   fold_left resplitSegment segments newSegments <> []).
Proof.
  induction segments as [|segment segments IH]; intros newSegments Hnew Hsegs.
  - simpl. split; [assumption|].
    intros [H | H]; [exact H | exfalso; apply H; reflexivity].
  - inversion Hsegs as [|? ? Hseg Hrest]; subst.
    destruct (@resplitSegment_pieces newSegments segment Hnew Hseg) as [H1 H2].
    destruct (IH _ H1 Hrest) as [H3 H4].
    simpl. split; [assumption|]. intros _. apply H4. left. assumption.
Qed.

Lemma paragraphs_nonBlank (text : string) :
  Forall (fun p => nonBlank p = true) (paragraphs text).
Proof.
  eapply Forall_impl; [|apply paragraphs_clean]. intros p [H _]. exact H.
Qed.

(** No paragraph of smartSplitText is empty. *)
Lemma smartSplitText_pieces (text : string) :
  Forall (fun p => p <> []) (smartSplitText text).
Proof.
  unfold smartSplitText.
  destruct (length text =? 0); [constructor|].
  destruct ((length (paragraphs text) <=? 2) && (500 <? length text)).
  - apply resplit_pieces; [constructor | apply paragraphs_nonBlank].
  - eapply Forall_impl; [|apply paragraphs_nonBlank].
    intros p. apply nonBlank_not_nil.
Qed.

(** *** The paragraphs of smartSplitText hold no separator *)

(** The code units of the pieces of a split are code units of the
    string. *)
Lemma splitBy_units (isSep : char -> bool) (s : string) :
  Forall (fun p => forall c, In c p -> In c s) (splitBy isSep s).
Proof.
  induction s as [|d s IH]; cbn [splitBy].
  - constructor; [intros c []|constructor].
  - assert (Hstep : Forall (fun p => forall c, In c p -> In c (d :: s))
                      (splitBy isSep s)).
    { eapply Forall_impl; [|exact IH]. intros p Hp c Hc. right. auto. }
    destruct (isSep d).
    + constructor; [intros c []|exact Hstep].
    + destruct (splitBy isSep s) as [|p ps].
      * constructor; [|constructor]. intros c [<- | []]. left. reflexivity.
      * inversion Hstep as [|? ? Hp Hps]; subst.
        constructor; [|exact Hps].
        intros c [<- | Hc]; [left; reflexivity | apply Hp; exact Hc].
Qed.

Lemma repack_separator_free (sentences : list string) :
  forall newSegments currentSegment,
  Forall (fun p => ~ In LF p) sentences ->
  Forall (fun p => ~ In LF p) newSegments ->
  ~ In LF currentSegment ->
  Forall (fun p => ~ In LF p)
    (fst (fold_left repackStep sentences (newSegments, currentSegment))) /\
  ~ In LF (snd (fold_left repackStep sentences (newSegments, currentSegment))).
Proof.
  induction sentences as [|sentence sentences IH];
    intros newSegments currentSegment Hsent Hnew Hcur.
  - split; assumption.
  - inversion Hsent as [|? ? Hfirst Hrest]; subst. cbn [fold_left].
    assert (Hstop : ~ In LF (sentence ++ [FULL_STOP])).
    { intros Hin. apply in_app_or in Hin as [Hin | [Hin | []]];
        [contradiction | discriminate]. }
    unfold repackStep at 2 4.
    destruct ((150 <? length (currentSegment ++ sentence ++ [FULL_STOP]))
              && (0 <? length currentSegment)).
    + apply IH; [assumption | | assumption].
      apply Forall_app. split; [assumption|].
      constructor; [|constructor]. intros Hin. apply Hcur, in_trim, Hin.
    + apply IH; [assumption | assumption |].
      intros Hin. apply in_app_or in Hin as [Hin | Hin]; contradiction.
Qed.

Lemma resplitSegment_separator_free (newSegments : list string)
  (segment : string) :
  Forall (fun p => ~ In LF p) newSegments ->
  ~ In LF segment ->
  Forall (fun p => ~ In LF p) (resplitSegment newSegments segment).
Proof.
  intros Hnew Hseg.
  assert (Hpush : Forall (fun p => ~ In LF p) (newSegments ++ [segment])).
  { apply Forall_app. split; [assumption|]. constructor; [assumption|].
    constructor. }
  unfold resplitSegment.
  destruct (200 <? length segment); [|assumption].
  destruct (1 <? length (filter nonBlank (splitBy isSentenceEnd segment)));
    [|assumption].
  assert (Hsent : Forall (fun p => ~ In LF p)
                    (filter nonBlank (splitBy isSentenceEnd segment))).
  { apply Forall_forall. intros p Hp. apply filter_In in Hp as [Hp _].
    pose proof (splitBy_units isSentenceEnd segment) as Hunits.
    rewrite Forall_forall in Hunits. intros Hin.
    apply Hseg, (Hunits p Hp), Hin. }
  match goal with |- context [fold_left repackStep ?l ?i] =>
    assert (Hfold : Forall (fun p => ~ In LF p)
                      (fst (fold_left repackStep l i)) /\
                    ~ In LF (snd (fold_left repackStep l i)))
      by (apply repack_separator_free;
          [exact Hsent | exact Hnew | intros []]);
    destruct (fold_left repackStep l i) as [newSegments' currentSegment]
  end.
  destruct Hfold as [H1 H2]. cbn [fst snd] in H1, H2.
  destruct (nonBlank currentSegment); [|assumption].
  apply Forall_app. split; [assumption|].
  constructor; [|constructor]. intros Hin. apply H2, in_trim, Hin.
Qed.

Lemma smartSplitText_separator_free (text : string) :
  Forall (fun p => ~ In LF p) (smartSplitText text).
Proof.
  assert (Hpars : Forall (fun p => ~ In LF p) (paragraphs text)).
  { eapply Forall_impl; [|apply paragraphs_clean]. intros p [_ H]. exact H. }
  unfold smartSplitText.
  destruct (length text =? 0); [constructor|].
  destruct ((length (paragraphs text) <=? 2) && (500 <? length text));
    [|exact Hpars].
  assert (Hfold : forall segments newSegments,
            Forall (fun p => ~ In LF p) segments ->
            Forall (fun p => ~ In LF p) newSegments ->
            Forall (fun p => ~ In LF p)
              (fold_left resplitSegment segments newSegments)).
  { induction segments as [|segment segments IH]; intros newSegments Hs Hn.
    - exact Hn.
    - inversion Hs; subst. cbn [fold_left]. apply IH; [assumption|].
      apply resplitSegment_separator_free; assumption. }
  apply Hfold; [exact Hpars | constructor].
Qed.

(** The paragraphs joined are the text only when the text is empty or
    the paragraphs are its lines. *)
Lemma join_smartSplitText_inv (text : string) :
  join LF (smartSplitText text) = text ->
  text = [] \/ smartSplitText text = split LF text.
Proof.
  intros Hjoin.
  pose proof (smartSplitText_separator_free text) as Hfree.
  remember (smartSplitText text) as pieces eqn:Hpieces.
  destruct pieces as [|p ps]; [left; symmetry; exact Hjoin | right].
  rewrite <- Hjoin. unfold split. symmetry. apply splitBy_join.
  - apply N.eqb_refl.
  - eapply Forall_impl; [|exact Hfree].
    intros q Hq c Hc. apply N.eqb_neq. intros <-. contradiction.
  - discriminate.
Qed.

Lemma paragraphs_not_nil (text : string) :
  nonBlank text = true -> paragraphs text <> [].
Proof.
  intros Hink. rewrite nonBlank_hasInk in Hink.
  destruct (@splitBy_hasInk (N.eqb LF) text) as (p & Hp & Hpink);
    [|assumption|].
  - intros c Hc. apply N.eqb_eq in Hc. subst c. reflexivity.
  - intros Hnil.
    assert (Hin : In p (paragraphs text)).
    { unfold paragraphs, split. apply filter_In. split; [assumption|].
      rewrite nonBlank_hasInk. assumption. }
    rewrite Hnil in Hin. contradiction.
Qed.

(** A non-blank text has a paragraph. *)
Lemma smartSplitText_not_nil (text : string) :
  nonBlank text = true -> smartSplitText text <> [].
Proof.
  intros Hink. unfold smartSplitText.
  destruct (length text =? 0) eqn:Hlen.
  - apply Nat.eqb_eq, length_zero_iff_nil in Hlen. subst. discriminate.
  - pose proof (paragraphs_not_nil text Hink) as Hpars.
    destruct ((length (paragraphs text) <=? 2) && (500 <? length text));
      [|assumption].
    apply resplit_pieces;
      [constructor | apply paragraphs_nonBlank | right; assumption].
Qed.

(** Joining the non-empty joins of the parts of a partition is joining
    the whole, when there is no empty paragraph. *)
Lemma joinNonEmpty_concat (parts : list (list string)) :
  Forall (Forall (fun p => p <> [])) parts ->
  joinNonEmpty (map (join LF) parts) = join LF (concat parts).
Proof.
  unfold joinNonEmpty.
  induction 1 as [|part rest Hpart Hrest IH]; [reflexivity|].
  cbn [map filter concat].
  destruct part as [|p ps].
  - simpl. exact IH.
  - assert (Hj : join LF (p :: ps) <> []).
    { intros Hj. apply join_nil_inv in Hj; [discriminate | assumption]. }
    assert (Hkeep : negb (length (join LF (p :: ps)) =? 0) = true).
    { destruct (join LF (p :: ps)); [congruence | reflexivity]. }
    rewrite Hkeep.
    assert (Hall : Forall (fun p => p <> []) (concat rest)).
    { apply Forall_concat. assumption. }
    destruct (filter (fun s => negb (length s =? 0)) (map (join LF) rest))
      as [|b bs] eqn:Efilter.
    + simpl in IH. symmetry in IH. apply join_nil_inv in IH; [|assumption].
      rewrite IH, app_nil_r. reflexivity.
    + assert (Hb : b <> []).
      { assert (Hin : In b (b :: bs)) by (left; reflexivity).
        rewrite <- Efilter in Hin. apply filter_In in Hin as [_ Hb].
        intros ->. discriminate. }
      assert (Hcr : concat rest <> []).
      { intros Hcr. unfold string in *. rewrite Hcr in IH. simpl in IH.
        destruct bs; simpl in IH; [congruence|].
        destruct b; [congruence | discriminate]. }
      rewrite join_cons by discriminate.
      rewrite IH. rewrite join_app by (assumption || discriminate).
      reflexivity.
Qed.

(** The chunks of a split carry the paragraphs of the comment: joined,
    the non-empty bodies give the paragraphs joined. *)
Lemma splitOf_reconstruction (comment : Comment.t) (chunks : list Comment.t) :
  splitOf comment chunks ->
  joinNonEmpty (map Comment.body chunks)
  = join LF (smartSplitText (Comment.body comment)) /\
  joinNonEmpty (map (fun c => orEmpty (Comment.body_zh c)) chunks)
  = join LF (smartSplitText (orEmpty (Comment.body_zh comment))).
Proof.
  intros (parts & -> & Hzh & Hen & _).
  rewrite !map_map.
  cbn [commentChunk Comment.body Comment.body_zh orEmpty].
  assert (Hpieces : Forall (Forall (fun p : string => p <> []))
                      (map (fun p => snd (fst p)) parts)).
  { apply Forall_concat. rewrite Hen. apply smartSplitText_pieces. }
  assert (Hpieces_zh : Forall (Forall (fun p : string => p <> []))
                         (map (fun p => fst (fst p)) parts)).
  { apply Forall_concat. rewrite Hzh. apply smartSplitText_pieces. }
  split.
  - rewrite <- Hen, <- (map_map (fun p => snd (fst p)) (join LF)).
    apply joinNonEmpty_concat. assumption.
  - rewrite <- Hzh, <- (map_map (fun p => fst (fst p)) (join LF)).
    apply joinNonEmpty_concat. assumption.
Qed.

Section Loops.

Context {World Html : Type} {R : Renderer World Html}.

(** The lemmas on code that lets a throw of the collaborator out are
    stated for both cases at once: a throw is allowed ([T] true), or the
    collaborator never throws and neither does the code. *)
Variable T : Prop.
Hypothesis throws_allowed : T \/ neverThrows R.

Lemma render_ends (t : Template) (d : Page.t) (w : World) :
  endsOr T (fun _ => True) (await (renderHTML t d) w).
Proof.
  apply endsOr_await.
  destruct throws_allowed as [HT | [Hr _]]; [left; assumption | right; apply Hr].
Qed.

Lemma measure_ends (h : Html) (s : Selector) (w : World) :
  endsOr T (fun _ => True) (await (measureContentHeight h s) w).
Proof.
  apply endsOr_await.
  destruct throws_allowed as [HT | [_ Hm]]; [left; assumption | right; apply Hm].
Qed.

Lemma measureMain_ends post zh en (k : nat) (w : World) :
  endsOr T (fun _ => True) (measureMain post zh en k w).
Proof.
  unfold measureMain.
  eapply endsOr_bind; [apply render_ends | intros; apply measure_ends].
Qed.

Lemma max_skipn_lt {A B} (k n : nat) (l1 : list A) (l2 : list B) :
  1 <= k ->
  Nat.max (length l1) (length l2) <= S n ->
  Nat.max (length (skipn k l1)) (length (skipn k l2)) <= n.
Proof. intros Hk Hn. rewrite !length_skipn. lia. Qed.

(** The outer loop of paginateMainContent cuts the two paragraph queues
    into pages without losing, duplicating, reordering or altering a
    paragraph, and emits only Main and MainContinued pages; it ends within
    as many rounds as the longer queue has paragraphs. *)
Lemma mainLoop_ends (post : Post.t) (fuel n : nat) :
  forall zh en isFirstPage pages w,
  Forall cleanParagraph zh -> Forall cleanParagraph en ->
  Nat.max (length zh) (length en) <= n ->
  Nat.max (length zh) (length en) <= fuel ->
  endsOr T (fun pages' => exists new,
          pages' = pages ++ new /\
          flat_map (fun p => splitContent (Page.content_zh p)) new = zh /\
          flat_map (fun p => splitContent (Page.content p)) new = en /\
          Forall (fun p => isMainPage p = true /\ Page.comments p = None) new /\
          (zh <> [] \/ en <> [] -> new <> []))
       (mainLoop post fuel n zh en isFirstPage pages w).
Proof.
  induction n as [|n IH]; intros zh en isFirstPage pages w Hzh Hen Hn Hfuel.
  - assert (zh = []) by (apply length_zero_iff_nil; lia).
    assert (en = []) by (apply length_zero_iff_nil; lia).
    subst. simpl. apply endsOr_ret. exists []. rewrite app_nil_r.
    repeat split; try constructor. intros [H | H]; congruence.
  - cbn [mainLoop].
    destruct ((0 <? length zh) || (0 <? length en)) eqn:Hnonempty.
    + eapply endsOr_bind.
      * apply fit_ends; [apply measureMain_ends | assumption].
      * intros k w' [Hk1 Hk2]. cbv beta zeta.
        eapply endsOr_weaken;
          [| |apply IH;
              [apply Forall_skipn; assumption | apply Forall_skipn; assumption
              | apply max_skipn_lt; assumption
              | rewrite !length_skipn; lia]]; [tauto|].
        intros pages' (new & -> & Hnzh & Hnen & Hty & _).
        eexists (_ :: new). split; [rewrite <- app_assoc; reflexivity|].
        cbn [flat_map mainPageData Page.content_zh Page.content].
        rewrite !splitContent_join by (apply Forall_firstn; assumption).
        rewrite Hnzh, Hnen, !firstn_skipn.
        repeat split; try reflexivity.
        -- constructor; [|assumption].
           destruct isFirstPage; split; reflexivity.
        -- discriminate.
    + apply orb_false_iff in Hnonempty as [H1 H2].
      apply Nat.ltb_ge in H1, H2.
      assert (zh = []) by (apply length_zero_iff_nil; lia).
      assert (en = []) by (apply length_zero_iff_nil; lia).
      subst. apply endsOr_ret. exists []. rewrite app_nil_r.
      repeat split; try constructor. intros [H | H]; congruence.
Qed.

Lemma measureChunk_ends comment zh en isFirst (k : nat) (w : World) :
  endsOr T (fun _ => True) (measureChunk comment zh en isFirst k w).
Proof.
  unfold measureChunk.
  eapply endsOr_bind; [apply render_ends | intros; apply measure_ends].
Qed.

(** The outer loop of splitComment cuts the two paragraph queues into
    consecutive parts, one chunk for each part; it ends within as many
    rounds as the longer queue has paragraphs. *)
Lemma splitLoop_ends (comment : Comment.t) (fuel n : nat) :
  forall zh en isFirstChunk chunks w,
  Nat.max (length zh) (length en) <= n ->
  Nat.max (length zh) (length en) <= fuel ->
  endsOr T (fun chunks' => exists parts : list (list string * list string * bool),
          chunks' = chunks ++
            map (fun p => commentChunk comment (fst (fst p)) (snd (fst p)) (snd p))
              parts /\
          concat (map (fun p => fst (fst p)) parts) = zh /\
          concat (map (fun p => snd (fst p)) parts) = en /\
          length parts <= Nat.max (length zh) (length en) /\
          (zh <> [] \/ en <> [] -> parts <> []))
       (splitLoop comment fuel n zh en isFirstChunk chunks w).
Proof.
  induction n as [|n IH]; intros zh en isFirstChunk chunks w Hn Hfuel.
  - assert (zh = []) by (apply length_zero_iff_nil; lia).
    assert (en = []) by (apply length_zero_iff_nil; lia).
    subst. simpl. apply endsOr_ret. exists []. rewrite app_nil_r.
    repeat split; try reflexivity. intros [H | H]; congruence.
  - cbn [splitLoop].
    destruct ((0 <? length zh) || (0 <? length en)) eqn:Hnonempty.
    + eapply endsOr_bind.
      * apply fitSearch_total with (best := 0) (low := 1);
          [apply measureChunk_ends | lia].
      * intros found w' Hfound. cbn [negb andb]. rewrite andb_false_r.
        assert (Hk : 1 <= atLeastOne found) by apply atLeastOne_pos.
        eapply endsOr_weaken;
          [| |apply IH; [apply max_skipn_lt; assumption
                        | rewrite !length_skipn; lia]]; [tauto|].
        intros chunks' (parts & -> & Hzh & Hen & Hlen & _).
        exists ((firstn (atLeastOne found) zh, firstn (atLeastOne found) en,
                 negb isFirstChunk) :: parts).
        cbn [map concat fst snd length].
        rewrite Hzh, Hen, !firstn_skipn, <- app_assoc.
        repeat split; try reflexivity.
        -- rewrite !length_skipn in Hlen.
           apply orb_true_iff in Hnonempty as [H | H]; apply Nat.ltb_lt in H; lia.
        -- discriminate.
    + apply orb_false_iff in Hnonempty as [H1 H2].
      apply Nat.ltb_ge in H1, H2.
      assert (zh = []) by (apply length_zero_iff_nil; lia).
      assert (en = []) by (apply length_zero_iff_nil; lia).
      subst. apply endsOr_ret. exists []. rewrite app_nil_r.
      repeat split; try reflexivity. intros [H | H]; congruence.
Qed.

(** With fuel for its paragraphs, splitComment returns a split of the
    comment, or stops on a throw of the collaborator. *)
Lemma splitComment_ends (fuel : nat) (comment : Comment.t) (w : World) :
  chunkBound comment <= fuel ->
  endsOr T (splitOf comment) (splitComment fuel comment w).
Proof.
  intros Hfuel. unfold splitComment, chunkBound in *.
  eapply endsOr_weaken; [| |apply splitLoop_ends; lia]; [tauto|].
  intros chunks (parts & -> & Hzh & Hen & Hlen & Hne).
  exists parts. cbn [app]. unfold chunkBound.
  split; [reflexivity|]. split; [assumption|]. split; [assumption|].
  split; [assumption|]. intros Hbound. apply Hne.
  destruct (smartSplitText (orEmpty (Comment.body_zh comment)));
    [|left; discriminate].
  destruct (smartSplitText (Comment.body comment));
    [|right; discriminate].
  simpl in Hbound. congruence.
Qed.

(** paginateMainContent appends the main pages of the post. *)
Lemma paginateMainContent_ends (fuel : nat) (post : Post.t)
  (pages : list Page.t) (w : World) :
  Nat.max (length (paragraphs (orEmpty (Post.selftext_zh post))))
          (length (paragraphs (orEmpty (Post.selftext post)))) <= fuel ->
  endsOr T (fun pages' => exists mains,
              pages' = pages ++ mains /\ mainPagesOf post mains)
    (paginateMainContent fuel post pages w).
Proof.
  intros Hfuel. unfold paginateMainContent.
  destruct ((length (paragraphs (orEmpty (Post.selftext_zh post))) =? 0)
            && (length (paragraphs (orEmpty (Post.selftext post))) =? 0))
    eqn:Hempty.
  - apply andb_true_iff in Hempty as [Hzh Hen].
    apply Nat.eqb_eq, length_zero_iff_nil in Hzh.
    apply Nat.eqb_eq, length_zero_iff_nil in Hen.
    apply endsOr_ret. exists [defaultPage post].
    split; [reflexivity|]. unfold mainPagesOf. rewrite Hzh, Hen.
    split; [discriminate|]. split.
    + constructor; [split; reflexivity | constructor].
    + repeat split; reflexivity.
  - eapply endsOr_weaken;
      [| |apply mainLoop_ends;
          [apply paragraphs_clean | apply paragraphs_clean | | ];
          exact Hfuel]; [tauto|].
    intros pages' (new & -> & Hzh & Hen & Hty & Hne).
    exists new. split; [reflexivity|].
    assert (Hsome : paragraphs (orEmpty (Post.selftext_zh post)) <> [] \/
                    paragraphs (orEmpty (Post.selftext post)) <> []).
    { apply andb_false_iff in Hempty as [H | H]; apply Nat.eqb_neq in H;
        [left | right]; intros Hnil; rewrite Hnil in H; apply H; reflexivity. }
    split; [apply Hne; assumption|]. split; [assumption|].
    split; [assumption|]. split; [assumption|].
    intros H1 H2. exfalso. destruct Hsome as [H | H]; apply H; assumption.
Qed.

End Loops.

Section Packer.

Context {World Html : Type} {R : Renderer World Html}.

(** *** The page packer *)

(** The [try] block of the packer never lets a throw out, and reports a
    page that is full only when it holds three comments. *)
Lemma tryAdd_returns (post : Post.t) (pageComments : list Comment.t)
  (nextComment : Comment.t) (w : World) :
  returns (fun growth =>
             match growth with
             | Added => length (pageComments ++ [nextComment]) < 3
             | AddedAndFull => True
             | Stop => True
             end)
          (tryAdd post pageComments nextComment w).
Proof.
  unfold tryAdd. apply returns_try_catch.
  - eapply ends_bind; [apply ends_await|]. intros html w1 _.
    eapply ends_bind; [apply ends_await|]. intros height w2 _.
    destruct ((0 <? height)%Z && (height <=? MAX_HEIGHT_COMMENTS)%Z);
      [|apply ends_ret; exact I].
    destruct (3 <=? length (pageComments ++ [nextComment])) eqn:Hfull;
      apply ends_ret; [exact I|].
    apply Nat.leb_gt in Hfull. assumption.
  - intros w'. apply returns_ret. exact I.
Qed.

(** The inner loop of the packer moves a prefix of the queue to the page,
    and never grows a page beyond three comments. *)
Lemma growPage_returns (post : Post.t) (commentQueue : list Comment.t) :
  forall pageComments w,
  length pageComments <= 2 ->
  returns (fun grown =>
             fst grown ++ snd grown = pageComments ++ commentQueue /\
             length (fst grown) <= 3)
          (growPage post commentQueue pageComments w).
Proof.
  induction commentQueue as [|nextComment rest IH]; intros pageComments w Hlen.
  - simpl. apply returns_ret. simpl. split; [reflexivity | lia].
  - cbn [growPage]. eapply returns_bind; [apply tryAdd_returns|].
    intros growth w' Hgrowth. destruct growth.
    + eapply returns_weaken; [|apply IH; lia].
      intros grown [Heq Hcap]. split; [|assumption].
      rewrite Heq, <- app_assoc. reflexivity.
    + apply returns_ret. cbn [fst snd]. split.
      * rewrite <- app_assoc. reflexivity.
      * rewrite length_app. simpl. lia.
    + apply returns_ret. cbn [fst snd]. split; [reflexivity | lia].
Qed.

(** The forced dequeue keeps the order, and leaves an empty page only
    for an empty queue. *)
Lemma forceOne_spec (grown : list Comment.t * list Comment.t) :
  fst (forceOne grown) ++ snd (forceOne grown) = fst grown ++ snd grown /\
  (fst grown ++ snd grown <> [] -> fst (forceOne grown) <> []) /\
  (length (fst grown) <= 3 -> length (fst (forceOne grown)) <= 3).
Proof.
  destruct grown as [[|c page] [|d rest]]; simpl; repeat split;
    try congruence; try lia; discriminate.
Qed.

(** The packer cuts the queue into pages of one to three comments,
    without dropping, duplicating or reordering one; it never throws and
    ends within as many rounds as the queue has comments. *)
Lemma packPages_returns (post : Post.t) (n : nat) :
  forall commentQueue pages w,
  length commentQueue <= n ->
  returns (fun pages' => exists new,
             pages' = pages ++ new /\
             flat_map commentsOf new = commentQueue /\
             Forall (packedPage post) new)
          (packPages post n commentQueue pages w).
Proof.
  induction n as [|n IH]; intros commentQueue pages w Hn.
  - assert (commentQueue = []) by (apply length_zero_iff_nil; lia). subst.
    simpl. apply returns_ret. exists []. rewrite app_nil_r.
    repeat split; constructor.
  - cbn [packPages]. destruct (0 <? length commentQueue) eqn:Hnonempty.
    + apply Nat.ltb_lt in Hnonempty.
      eapply returns_bind; [apply growPage_returns; simpl; lia|].
      intros grown w' [Heq Hcap]. simpl in Heq.
      destruct (forceOne_spec grown) as (Hsame & Hsome & Hcap').
      destruct (forceOne grown) as [pageComments commentQueue'].
      cbn [fst snd] in Hsame, Hsome, Hcap'.
      assert (Hpage : pageComments <> []).
      { apply Hsome. rewrite Heq. intros ->. simpl in Hnonempty. lia. }
      assert (Hplen : 1 <= length pageComments)
        by (destruct pageComments; [congruence | simpl; lia]).
      replace (0 <? length pageComments) with true
        by (symmetry; apply Nat.ltb_lt; lia).
      assert (Hq : commentQueue = pageComments ++ commentQueue')
        by congruence.
      eapply returns_weaken; [|apply IH].
      * intros pages' (new & -> & Hflat & Hall).
        exists (commentsPageData post pageComments :: new).
        split; [rewrite <- app_assoc; reflexivity|]. split.
        -- cbn [flat_map]. rewrite Hflat, Hq. reflexivity.
        -- constructor; [|assumption].
           exists pageComments. split; [reflexivity|]. split; [lia|].
           apply Hcap'. assumption.
      * rewrite Hq, length_app in Hn. lia.
    + apply Nat.ltb_ge in Hnonempty.
      assert (commentQueue = []) by (apply length_zero_iff_nil; lia). subst.
      apply returns_ret. exists []. rewrite app_nil_r.
      repeat split; constructor.
Qed.

(** *** The working queue *)

(** A comment enters the queue as itself or as the chunks of its split,
    also when the collaborator throws on it. *)
Lemma processComment_returns (fuel : nat) (comment : Comment.t) (w : World) :
  chunkBound comment <= fuel ->
  returns (fun pushed => pushed = [comment] \/ splitOf comment pushed)
          (processComment fuel comment w).
Proof.
  intros Hfuel. unfold processComment. apply returns_try_catch.
  - eapply ends_bind; [apply ends_await|]. intros html w1 _.
    eapply ends_bind; [apply ends_await|]. intros height w2 _.
    destruct (MAX_HEIGHT_SINGLE_COMMENT <? height)%Z.
    + eapply ends_weaken;
        [|apply (splitComment_ends (T := True)); [left; exact I | assumption]].
      intros chunks H. right. assumption.
    + apply ends_ret. left. reflexivity.
  - intros w'. apply returns_ret. left. reflexivity.
Qed.

Lemma buildQueue_returns (fuel : nat) (comments : list Comment.t) :
  forall commentQueue w,
  Forall (fun c => chunkBound c <= fuel) comments ->
  returns (fun queue => exists pieces,
             queue = commentQueue ++ concat pieces /\
             Forall2 (fun c piece => piece = [c] \/ splitOf c piece)
               comments pieces)
          (buildQueue fuel comments commentQueue w).
Proof.
  induction comments as [|comment rest IH]; intros commentQueue w Hfuel.
  - simpl. apply returns_ret. exists []. rewrite app_nil_r.
    split; [reflexivity | constructor].
  - inversion Hfuel as [|? ? Hc Hrest]; subst.
    cbn [buildQueue]. eapply returns_bind;
      [apply processComment_returns; assumption|].
    intros pushed w' Hpushed.
    eapply returns_weaken; [|apply IH; assumption].
    intros queue (pieces & -> & Hall).
    exists (pushed :: pieces). split.
    + simpl. rewrite app_assoc. reflexivity.
    + constructor; assumption.
Qed.

Lemma list_sum_cons (a : nat) (l : list nat) :
  list_sum (a :: l) = a + list_sum l.
Proof. reflexivity. Qed.

Lemma chunkBound_le_sum (comments : list Comment.t) :
  Forall (fun c => chunkBound c
                   <= list_sum (map (fun c => Nat.max 1 (chunkBound c))
                                 comments))
         comments.
Proof.
  induction comments as [|c rest IH]; [constructor|].
  cbn [map]. rewrite list_sum_cons. constructor; [lia|].
  eapply Forall_impl; [|exact IH]. intros d Hd. cbv beta in Hd. lia.
Qed.

(** The queue is no longer than the paragraph counts allow. *)
Lemma expansionOf_length (comments queue : list Comment.t) :
  expansionOf comments queue ->
  length queue
  <= list_sum (map (fun c => Nat.max 1 (chunkBound c)) comments).
Proof.
  intros (pieces & -> & Hall).
  induction Hall as [|c piece comments pieces Hpiece Hall IH]; [simpl; lia|].
  cbn [concat map]. rewrite list_sum_cons, length_app.
  assert (length piece <= Nat.max 1 (chunkBound c)).
  { destruct Hpiece as [-> | (parts & -> & _ & _ & Hlen & _)].
    - cbn [length]. lia.
    - rewrite length_map. lia. }
  lia.
Qed.

(** paginateComments never throws: it appends the pages packed from the
    working queue of the comments. *)
Lemma paginateComments_returns (fuel : nat) (post : Post.t)
  (pages : list Page.t) (w : World) :
  list_sum (map (fun c => Nat.max 1 (chunkBound c)) (Post.commentList post))
  <= fuel ->
  returns (fun pages' => exists queue packed,
             pages' = pages ++ packed /\
             expansionOf (Post.commentList post) queue /\
             packedFrom post queue packed)
          (paginateComments fuel post pages w).
Proof.
  intros Hfuel. unfold paginateComments.
  destruct (length (Post.commentList post) =? 0) eqn:Hnone.
  - apply Nat.eqb_eq, length_zero_iff_nil in Hnone. rewrite Hnone.
    apply returns_ret. exists [], []. rewrite app_nil_r.
    split; [reflexivity|]. split.
    + exists []. split; [reflexivity | constructor].
    + split; [reflexivity | constructor].
  - eapply returns_bind.
    + apply buildQueue_returns.
      eapply Forall_impl; [|apply chunkBound_le_sum].
      intros c Hc. cbv beta in Hc. lia.
    + intros queue w' (pieces & Hq & Hall). simpl in Hq.
      assert (Hexp : expansionOf (Post.commentList post) queue)
        by (exists pieces; split; assumption).
      eapply returns_weaken; [|apply packPages_returns].
      * intros pages' (new & -> & Hflat & Hpacked).
        exists queue, new. split; [reflexivity|].
        split; [assumption|]. split; assumption.
      * pose proof (expansionOf_length Hexp). lia.
Qed.

(** *** No throw leaves the comment pagination *)

Lemma processComment_not_Throw (fuel : nat) (comment : Comment.t) (w : World) :
  fst (processComment fuel comment w) <> Throw.
Proof.
  unfold processComment. apply try_catch_not_Throw.
  intros w'. discriminate.
Qed.

Lemma buildQueue_not_Throw (fuel : nat) (comments : list Comment.t) :
  forall commentQueue w,
  fst (buildQueue fuel comments commentQueue w) <> Throw.
Proof.
  induction comments as [|comment rest IH]; intros commentQueue w.
  - discriminate.
  - cbn [buildQueue]. apply bind_not_Throw.
    + apply processComment_not_Throw.
    + intros pushed w'. apply IH.
Qed.

Lemma growPage_not_Throw (post : Post.t) (commentQueue : list Comment.t) :
  forall pageComments w,
  fst (growPage post commentQueue pageComments w) <> Throw.
Proof.
  induction commentQueue as [|nextComment rest IH]; intros pageComments w.
  - discriminate.
  - cbn [growPage]. apply bind_not_Throw.
    + unfold tryAdd. apply try_catch_not_Throw. intros w'. discriminate.
    + intros growth w'. destruct growth; [apply IH | discriminate | discriminate].
Qed.

Lemma packPages_not_Throw (post : Post.t) (n : nat) :
  forall commentQueue pages w,
  fst (packPages post n commentQueue pages w) <> Throw.
Proof.
  induction n as [|n IH]; intros commentQueue pages w.
  - simpl. destruct (0 <? length commentQueue); discriminate.
  - cbn [packPages]. destruct (0 <? length commentQueue); [|discriminate].
    apply bind_not_Throw.
    + apply growPage_not_Throw.
    + intros grown w'. destruct (forceOne grown). apply IH.
Qed.

Lemma paginateComments_not_Throw (fuel : nat) (post : Post.t)
  (pages : list Page.t) (w : World) :
  fst (paginateComments fuel post pages w) <> Throw.
Proof.
  unfold paginateComments.
  destruct (length (Post.commentList post) =? 0); [discriminate|].
  apply bind_not_Throw.
  - apply buildQueue_not_Throw.
  - intros queue w'. apply packPages_not_Throw.
Qed.

(** When the whole-body rendering or measurement of a comment throws,
    the comment is pushed as it is. *)
Lemma processComment_catches (fuel : nat) (comment : Comment.t)
  (w w1 : World) :
  wholeBodyThrows comment w w1 ->
  processComment fuel comment w = (Ok [comment], w1).
Proof.
  unfold wholeBodyThrows, processComment, try_catch, bind, await.
  intros [Hr | (html & w0 & Hr & Hm)].
  - rewrite Hr. reflexivity.
  - rewrite Hr, Hm. reflexivity.
Qed.

End Packer.

Section Whole.

Context {World Html : Type} {R : Renderer World Html}.

Variable T : Prop.
Hypothesis throws_allowed : T \/ neverThrows R.

(** With the fuel of the bound, paginate ends with the page sequence of
    the post; the default page of its last step is never needed, for the
    main pages are never none. *)
Lemma paginate_ends (fuel : nat) (post : Post.t) (w : World) :
  fuelBound post <= fuel ->
  endsOr T (paginated post) (paginate fuel post w).
Proof.
  intros Hfuel. unfold fuelBound in Hfuel. unfold paginate.
  eapply endsOr_bind.
  - apply (paginateMainContent_ends throws_allowed). lia.
  - intros pages1 w1 (mains & -> & Hmains). simpl.
    eapply endsOr_bind.
    + eapply endsOr_weaken;
        [| |apply (@paginateComments_returns _ _ R fuel post mains w1); lia];
        [contradiction | intros a Ha; exact Ha].
    + intros pages2 w2 (queue & packed & -> & Hexp & Hpacked).
      assert (Hlen : (length (mains ++ packed) =? 0) = false).
      { apply Nat.eqb_neq. destruct Hmains as [Hne _].
        destruct mains; [congruence | discriminate]. }
      rewrite Hlen. apply endsOr_ret.
      exists mains, queue, packed.
      split; [reflexivity|]. split; [assumption|]. split; assumption.
Qed.

End Whole.

(** *** Fuel is only a bound *)

Section Fuel.

Context {World Html : Type} {R : Renderer World Html}.

Lemma mainLoop_extends (post : Post.t) (fuel fuel' n : nat) :
  fuel <= fuel' ->
  forall n' zh en isFirstPage pages w,
  n <= n' ->
  extends (mainLoop post fuel n zh en isFirstPage pages w)
          (mainLoop post fuel' n' zh en isFirstPage pages w).
Proof.
  intros Hfuel. induction n as [|n IH];
    intros n' zh en isFirstPage pages w Hn.
  - destruct ((0 <? length zh) || (0 <? length en)) eqn:Htest.
    + intros Hrun. simpl in Hrun. rewrite Htest in Hrun.
      exfalso. apply Hrun. reflexivity.
    + intros _. destruct n'; simpl; rewrite Htest; reflexivity.
  - destruct n' as [|n']; [lia|].
    cbn [mainLoop].
    destruct ((0 <? length zh) || (0 <? length en)); [|apply extends_refl].
    apply extends_bind; [apply fit_extends; exact Hfuel|].
    intros k w1. apply IH. lia.
Qed.

Lemma splitLoop_extends (comment : Comment.t) (fuel fuel' n : nat) :
  fuel <= fuel' ->
  forall n' zh en isFirstChunk chunks w,
  n <= n' ->
  extends (splitLoop comment fuel n zh en isFirstChunk chunks w)
          (splitLoop comment fuel' n' zh en isFirstChunk chunks w).
Proof.
  intros Hfuel. induction n as [|n IH];
    intros n' zh en isFirstChunk chunks w Hn.
  - destruct ((0 <? length zh) || (0 <? length en)) eqn:Htest.
    + intros Hrun. simpl in Hrun. rewrite Htest in Hrun.
      exfalso. apply Hrun. reflexivity.
    + intros _. destruct n'; simpl; rewrite Htest; reflexivity.
  - destruct n' as [|n']; [lia|].
    cbn [splitLoop].
    destruct ((0 <? length zh) || (0 <? length en)); [|apply extends_refl].
    apply extends_bind; [apply fitSearch_extends; exact Hfuel|].
    intros found w1.
    destruct ((found =? 0) && negb true); [apply extends_refl|].
    apply IH. lia.
Qed.

Lemma buildQueue_extends (fuel fuel' : nat) (comments : list Comment.t) :
  fuel <= fuel' ->
  forall commentQueue w,
  extends (buildQueue fuel comments commentQueue w)
          (buildQueue fuel' comments commentQueue w).
Proof.
  intros Hfuel. induction comments as [|comment rest IH];
    intros commentQueue w; [apply extends_refl|].
  cbn [buildQueue]. apply extends_bind; [|intros pushed w1; apply IH].
  unfold processComment. apply extends_try_catch.
  apply extends_bind; [apply extends_refl|]. intros html w1.
  apply extends_bind; [apply extends_refl|]. intros height w2.
  destruct (MAX_HEIGHT_SINGLE_COMMENT <? height)%Z; [|apply extends_refl].
  unfold splitComment. apply splitLoop_extends; assumption.
Qed.

Lemma packPages_extends (post : Post.t) (n : nat) :
  forall n' commentQueue pages w,
  n <= n' ->
  extends (packPages post n commentQueue pages w)
          (packPages post n' commentQueue pages w).
Proof.
  induction n as [|n IH]; intros n' commentQueue pages w Hn.
  - destruct (0 <? length commentQueue) eqn:Htest.
    + intros Hrun. simpl in Hrun. rewrite Htest in Hrun.
      exfalso. apply Hrun. reflexivity.
    + intros _. destruct n'; simpl; rewrite Htest; reflexivity.
  - destruct n' as [|n']; [lia|].
    cbn [packPages].
    destruct (0 <? length commentQueue); [|apply extends_refl].
    apply extends_bind; [apply extends_refl|].
    intros grown w1. destruct (forceOne grown). apply IH. lia.
Qed.

(** More fuel does not change a pagination that ended: the fuel stands
    for no behaviour of the code. *)
Lemma paginate_extends (fuel fuel' : nat) (post : Post.t) (w : World) :
  fuel <= fuel' ->
  extends (paginate fuel post w) (paginate fuel' post w).
Proof.
  intros Hfuel. unfold paginate. apply extends_bind.
  - unfold paginateMainContent.
    destruct ((length (paragraphs (orEmpty (Post.selftext_zh post))) =? 0)
              && (length (paragraphs (orEmpty (Post.selftext post))) =? 0));
      [apply extends_refl | apply mainLoop_extends; assumption].
  - intros pages w1. apply extends_bind; [|intros; apply extends_refl].
    unfold paginateComments.
    destruct (length (Post.commentList post) =? 0); [apply extends_refl|].
    apply extends_bind.
    + apply buildQueue_extends. exact Hfuel.
    + intros queue w2. apply packPages_extends. exact Hfuel.
Qed.

(** All the fuels from the bound on give the same pagination. *)
Lemma paginate_fuel_irrelevant (fuel fuel' : nat) (post : Post.t)
  (w : World) :
  fuelBound post <= fuel -> fuelBound post <= fuel' ->
  paginate fuel post w = paginate fuel' post w.
Proof.
  intros Hfuel Hfuel'.
  assert (Hbound : fst (paginate (fuelBound post) post w) <> OutOfFuel).
  { apply endsOr_not_OutOfFuel with (T := True) (Q := paginated post).
    apply paginate_ends; [left; exact I | apply le_n]. }
  rewrite (paginate_extends post w Hfuel Hbound).
  rewrite (paginate_extends post w Hfuel' Hbound).
  reflexivity.
Qed.

End Fuel.

(** *** The page sequence *)

Lemma packedPage_kind (post : Post.t) (p : Page.t) :
  packedPage post p ->
  isCommentsPage p = true /\ isMainPage p = false /\
  1 <= length (commentsOf p) <= 3.
Proof.
  intros (cs & -> & Hlen).
  split; [reflexivity|]. split; [reflexivity|]. exact Hlen.
Qed.

Lemma mainPage_kind (p : Page.t) :
  isMainPage p = true -> isCommentsPage p = false.
Proof.
  unfold isMainPage, isCommentsPage.
  destruct (Page.type p) as [[]|]; congruence.
Qed.

Lemma filter_none {A} (f : A -> bool) (l : list A) :
  Forall (fun x => f x = false) l -> filter f l = [].
Proof.
  induction 1 as [|x l Hx Hl IH]; [reflexivity|].
  simpl. rewrite Hx, IH. reflexivity.
Qed.

(** In a page sequence the main pages are the Main and MainContinued
    pages, and the packed pages are the Comments pages. *)
Lemma paginated_kinds (post : Post.t) (mains packed : list Page.t)
  (queue : list Comment.t) :
  mainPagesOf post mains -> packedFrom post queue packed ->
  filter isMainPage (mains ++ packed) = mains /\
  filter isCommentsPage (mains ++ packed) = packed.
Proof.
  intros (_ & Hmains & _) (_ & Hpacked).
  rewrite !filter_app. split.
  - rewrite (@filter_all_true _ isMainPage mains), (@filter_none _ isMainPage packed).
    + apply app_nil_r.
    + eapply Forall_impl; [|exact Hpacked].
      intros p Hp. apply (packedPage_kind Hp).
    + eapply Forall_impl; [|exact Hmains]. intros p [Hp _]. exact Hp.
  - rewrite (@filter_none _ isCommentsPage mains),
      (@filter_all_true _ isCommentsPage packed).
    + reflexivity.
    + eapply Forall_impl; [|exact Hpacked].
      intros p Hp. apply (packedPage_kind Hp).
    + eapply Forall_impl; [|exact Hmains].
      intros p [Hp _]. apply mainPage_kind. exact Hp.
Qed.


Lemma paginated_countCapped (post : Post.t) (pages : list Page.t) :
  paginated post pages -> countCapped pages.
Proof.
  intros (mains & queue & packed & -> & (_ & Hmains & _) & _ & (_ & Hpacked)).
  unfold countCapped. apply Forall_app. split.
  - eapply Forall_impl; [|exact Hmains].
    intros p [Hp _] Hc. apply mainPage_kind in Hp. congruence.
  - eapply Forall_impl; [|exact Hpacked].
    intros p Hp _. apply (packedPage_kind Hp).
Qed.

(** A comment with a non-blank body always has a paragraph, so its
    piece of the queue is never empty. *)
Lemma expansionOf_covers (comments queue : list Comment.t) :
  expansionOf comments queue ->
  Forall (fun c => nonBlank (Comment.body c) = true) comments ->
  length comments <= length queue.
Proof.
  intros (pieces & -> & Hall) Hink.
  induction Hall as [|c piece comments pieces Hpiece Hall IH]; [simpl; lia|].
  inversion Hink as [|? ? Hc Hrest]; subst.
  cbn [concat length]. rewrite length_app. specialize (IH Hrest).
  assert (1 <= length piece); [|lia].
  destruct Hpiece as [-> | (parts & -> & _ & _ & _ & Hne)]; [simpl; lia|].
  rewrite length_map.
  assert (Hparts : parts <> []).
  { apply Hne. unfold chunkBound.
    pose proof (smartSplitText_not_nil (Comment.body c) Hc) as Hpar.
    destruct (smartSplitText (Comment.body c)); [congruence|].
    cbn [length]. lia. }
  destruct parts; [congruence | simpl; lia].
Qed.

Lemma paginated_carriesAll (post : Post.t) (pages : list Page.t) :
  Forall (fun c => nonBlank (Comment.body c) = true) (Post.commentList post) ->
  paginated post pages -> carriesAll (Post.commentList post) pages.
Proof.
  intros Hink (mains & queue & packed & -> & Hmains & Hexp & Hpacked).
  destruct (paginated_kinds Hmains Hpacked) as [_ Hfilter].
  exists queue. split; [assumption|]. split.
  - apply expansionOf_covers; assumption.
  - rewrite Hfilter. apply Hpacked.
Qed.

Section Claims.

Context {World Html : Type} {R : Renderer World Html}.


(** C4. For every post and every measurement collaborator, every
    Comments page that paginate emits carries at most three comments or
    chunks, the pages of the forced dequeue included. *)
Theorem paginate_count_cap (fuel : nat) (post : Post.t) (w : World) :
  fuelBound post <= fuel ->
  ends countCapped (paginate fuel post w) /\
  (neverThrows R -> returns countCapped (paginate fuel post w)).
Proof.
  intros Hfuel. split; [|intros Hnever].
  - eapply endsOr_weaken;
      [| |apply (@paginate_ends _ _ R True (or_introl I)); exact Hfuel];
      [tauto | apply paginated_countCapped].
  - eapply endsOr_weaken;
      [| |apply (@paginate_ends _ _ R False (or_intror Hnever)); exact Hfuel];
      [tauto | apply paginated_countCapped].
Qed.

(** C10. For every queue and arbitrary measurement results, the packer
    returns (it never throws), and the comments lists of the pages it
    emits, concatenated in emission order, are exactly the queue: no
    comment or chunk is dropped, duplicated or reordered, also along the
    error-catch and forced-dequeue paths. *)
Theorem packPages_lossless (post : Post.t) (n : nat)
  (commentQueue : list Comment.t) (pages : list Page.t) (w : World) :
  length commentQueue <= n ->
  returns (fun pages' => exists new,
             pages' = pages ++ new /\
             flat_map commentsOf new = commentQueue /\
             Forall (fun p => isCommentsPage p = true) new)
          (packPages post n commentQueue pages w).
Proof.
  intros Hn. eapply returns_weaken; [|apply packPages_returns; exact Hn].
  intros pages' (new & -> & Hflat & Hpacked).
  exists new. split; [reflexivity|]. split; [assumption|].
  eapply Forall_impl; [|exact Hpacked].
  intros p Hp. apply (packedPage_kind Hp).
Qed.

(** C6, as amended. For every comment processed by the Comment Splitter,
    joining the non-empty bodies of the emitted chunks, in emission order,
    by the paragraph separator yields the paragraphs of smartSplitText
    joined by the separator, for each language track independently; this
    is the original body exactly when the body is empty or smartSplitText
    leaves the lines of the body as they are (no blank line dropped, no
    sentence re-packed). *)
Theorem splitComment_reconstruction (fuel : nat) (comment : Comment.t)
  (w : World) :
  chunkBound comment <= fuel ->
  ends (reconstructs comment) (splitComment fuel comment w) /\
  (neverThrows R ->
   returns (reconstructs comment) (splitComment fuel comment w)).
Proof.
  intros Hfuel.
  assert (Hrec : forall chunks, splitOf comment chunks ->
                 reconstructs comment chunks).
  { intros chunks Hsplit.
    destruct (splitOf_reconstruction Hsplit) as [Hbody Hbody_zh].
    split; [split; assumption|]. split.
    - rewrite Hbody. split; [apply join_smartSplitText_inv|].
      intros [Hempty | Hlines].
      + rewrite Hempty. reflexivity.
      + rewrite Hlines. apply join_splitBy.
    - rewrite Hbody_zh. split; [apply join_smartSplitText_inv|].
      intros [Hempty | Hlines].
      + rewrite Hempty. reflexivity.
      + rewrite Hlines. apply join_splitBy. }
  split; [|intros Hnever].
  - eapply endsOr_weaken;
      [| |apply (@splitComment_ends _ _ R True (or_introl I)); exact Hfuel];
      [tauto | exact Hrec].
  - eapply endsOr_weaken;
      [| |apply (@splitComment_ends _ _ R False (or_intror Hnever));
          exact Hfuel];
      [tauto | exact Hrec].
Qed.

(** C7. When the whole-body rendering or measurement of a comment throws,
    the comment-processing step catches the error and pushes the comment
    unmodified on the working queue; the remaining comments are processed
    as after any other push, from the world the failed call left; and no
    throw ever leaves the comment pagination, whatever the collaborator
    does. *)
Theorem comment_failure_contained (fuel : nat) (comment : Comment.t)
  (rest commentQueue : list Comment.t) (w w1 : World) :
  wholeBodyThrows comment w w1 ->
  processComment fuel comment w = (Ok [comment], w1) /\
  buildQueue fuel (comment :: rest) commentQueue w
  = buildQueue fuel rest (commentQueue ++ [comment]) w1 /\
  (forall post pages w0,
     fst (paginateComments fuel post pages w0) <> Throw).
Proof.
  intros Hthrows.
  pose proof (processComment_catches fuel Hthrows) as Hcatch.
  split; [exact Hcatch|]. split.
  - cbn [buildQueue]. unfold bind. rewrite Hcatch. reflexivity.
  - intros post pages w0. apply paginateComments_not_Throw.
Qed.

(** C5, as amended. If both language tracks of the post body paragraphize
    to empty, paginateMainContent emits exactly one page, the default Main
    page (title, score and subreddit fields, no content); paginate then
    returns that page followed by the Comments pages packed from the
    comment queue, and that page alone when the post has no comments. *)
Theorem empty_body_default_page (fuel : nat) (post : Post.t) (w : World) :
  paragraphs (orEmpty (Post.selftext_zh post)) = [] ->
  paragraphs (orEmpty (Post.selftext post)) = [] ->
  fuelBound post <= fuel ->
  (forall pages w0,
     paginateMainContent fuel post pages w0
     = (Ok (pages ++ [defaultPage post]), w0)) /\
  returns (fun pages => exists queue packed,
             pages = defaultPage post :: packed /\
             expansionOf (Post.commentList post) queue /\
             packedFrom post queue packed)
          (paginate fuel post w) /\
  (Post.commentList post = [] ->
   fst (paginate fuel post w) = Ok [defaultPage post]).
Proof.
  intros Hzh Hen Hfuel.
  assert (Hmain : forall pages w0,
            paginateMainContent fuel post pages w0
            = (Ok (pages ++ [defaultPage post]), w0)).
  { intros pages w0. unfold paginateMainContent. rewrite Hzh, Hen.
    reflexivity. }
  split; [exact Hmain|]. split.
  - unfold paginate. unfold bind at 1. rewrite Hmain. cbn [app].
    eapply returns_bind.
    + apply paginateComments_returns. unfold fuelBound in Hfuel. lia.
    + intros pages w' (queue & packed & -> & Hexp & Hpacked).
      cbn [app length Nat.eqb]. apply returns_ret.
      exists queue, packed. split; [reflexivity|]. split; assumption.
  - intros Hnone. unfold paginate, bind. rewrite Hmain.
    unfold paginateComments. rewrite Hnone. reflexivity.
Qed.

(** C8. For every post and arbitrary measurement results, paginate
    terminates within the fuel of the bound: it does not run out of fuel,
    and it returns when the collaborator never throws. Each fitter round
    returns a chunk of at least one item, which shortens the non-empty
    remaining queues, and the chunk is the forced single item when
    nothing fits; each packer round emits a non-empty page taken from the
    front of the non-empty queue, the forced single comment when the
    height budget defeats even one. *)
Theorem paginate_terminates (fuel : nat) (post : Post.t) (w : World) :
  fuelBound post <= fuel ->
  fst (paginate fuel post w) <> OutOfFuel /\
  (neverThrows R ->
   exists pages w', paginate fuel post w = (Ok pages, w')) /\
  (forall (probe : nat -> M World Z) (limit : Z) (n : nat) (w0 : World),
     (forall k w1, fst (probe k w1) <> OutOfFuel) ->
     n <= fuel ->
     ends (fun k =>
             1 <= k /\
             forall zh en : list string,
               zh <> [] \/ en <> [] ->
               length (skipn k zh) + length (skipn k en)
               < length zh + length en)
          (fit probe limit fuel n w0)) /\
  (forall (probe : nat -> M World Z) (limit : Z) (n : nat) (w0 : World),
     (forall k w1, exists height w2,
        probe k w1 = (Ok height, w2) /\
        (0 <? height)%Z && (height <=? limit)%Z = false) ->
     n <= fuel ->
     fst (fit probe limit fuel n w0) = Ok 1) /\
  (forall (commentQueue : list Comment.t) (w0 : World),
     commentQueue <> [] ->
     returns (fun grown =>
                fst (forceOne grown) <> [] /\
                fst (forceOne grown) ++ snd (forceOne grown) = commentQueue /\
                (fst grown = [] -> length (fst (forceOne grown)) = 1))
             (growPage post commentQueue [] w0)).
Proof.
  intros Hfuel. split; [|split; [|split; [|split]]].
  - apply endsOr_not_OutOfFuel with (T := True) (Q := paginated post).
    apply paginate_ends; [left; exact I | exact Hfuel].
  - intros Hnever.
    destruct (@returns_inv _ _ (paginated post) (paginate fuel post w))
      as (pages & w' & Hrun & _).
    + apply (@paginate_ends _ _ R False (or_intror Hnever)). exact Hfuel.
    + exists pages, w'. exact Hrun.
  - intros probe limit n w0 Hprobe Hn.
    eapply ends_weaken; [|apply (@fit_ends _ probe limit True)].
    + intros k [Hk _]. split; [exact Hk|].
      intros zh en Hsome. rewrite !length_skipn.
      assert (Hlen : length zh <> 0 \/ length en <> 0).
      { destruct Hsome as [H | H]; [left | right];
          intros Hz; apply length_zero_iff_nil in Hz; contradiction. }
      lia.
    + intros k w1. specialize (Hprobe k w1).
      unfold endsOr. destruct (fst (probe k w1)); tauto.
    + exact Hn.
  - intros probe limit n w0 Hprobe Hn.
    apply fit_nothing_fits; assumption.
  - intros commentQueue w0 Hsome.
    eapply returns_weaken; [|apply growPage_returns; simpl; lia].
    intros grown [Heq _]. simpl in Heq.
    destruct (forceOne_spec grown) as (Hsame & Hnonempty & _).
    split; [|split].
    + apply Hnonempty. rewrite Heq. exact Hsome.
    + rewrite Hsame. exact Heq.
    + intros Hempty. destruct grown as [page rest]. simpl in Hempty, Heq.
      subst page. simpl in Heq. subst rest.
      destruct commentQueue; [congruence | reflexivity].
Qed.

(** C3, as amended. For every post, the comments that enter pagination
    are the post's comments filtered to non-blank bodies and sorted by
    descending score, without any cap on their number: the working queue
    is the expansion of all of them, each standing for itself or for its
    chunks, and the emitted Comments pages carry that whole queue. *)
Theorem comment_queue_uncapped (fuel : nat) (post cleaned : Post.t)
  (w : World) :
  ImageGenerator.preprocessPostData post = Some cleaned ->
  fuelBound cleaned <= fuel ->
  Permutation (Post.commentList cleaned)
    (map ImageGenerator.cleanComment
       (filter (fun c => nonBlank (Comment.body c))
          (Post.commentList post))) /\
  StronglySorted (fun a b => (Comment.ups b <= Comment.ups a)%Z)
    (Post.commentList cleaned) /\
  ends (carriesAll (Post.commentList cleaned)) (paginate fuel cleaned w) /\
  (neverThrows R ->
   returns (carriesAll (Post.commentList cleaned)) (paginate fuel cleaned w)).
Proof.
  intros Hpre Hfuel.
  destruct (ImageGeneratorFacts.preprocessPostData_comments post Hpre)
    as (Hlist & _ & _).
  assert (Hink : Forall (fun c => nonBlank (Comment.body c) = true)
                   (Post.commentList cleaned)).
  { rewrite Hlist.
    apply (Permutation_Forall
             (Permutation_sym (ImageGeneratorFacts.sortByUps_perm _))).
    apply Forall_forall. intros c Hc.
    apply in_map_iff in Hc as (d & <- & Hd).
    apply filter_In in Hd as [_ Hd]. exact Hd. }
  split; [rewrite Hlist; apply ImageGeneratorFacts.sortByUps_perm|].
  split; [rewrite Hlist; apply ImageGeneratorFacts.sortByUps_sorted|].
  split; [|intros Hnever].
  - eapply endsOr_weaken;
      [| |apply (@paginate_ends _ _ R True (or_introl I)); exact Hfuel];
      [tauto | intros pages Hp; apply (paginated_carriesAll Hink Hp)].
  - eapply endsOr_weaken;
      [| |apply (@paginate_ends _ _ R False (or_intror Hnever)); exact Hfuel];
      [tauto | intros pages Hp; apply (paginated_carriesAll Hink Hp)].
Qed.

End Claims.

End PaginationFacts.


(** ** The samples *)

Module SampleFacts.

Import JS Async Pagination Spec Samples PaginationFacts.


(** Thirteen short comments: four pages of three and one of one. *)
Lemma paginate_count_cap_witness :
  ends countCapped
    (paginate (R := lineRenderer) 13 (preprocessed thirteenPost) tt) /\
  (neverThrows lineRenderer ->
   returns countCapped
     (paginate (R := lineRenderer) 13 (preprocessed thirteenPost) tt)).
Proof.
  apply (@paginate_count_cap unit Page.t lineRenderer 13
           (preprocessed thirteenPost) tt).
  vm_compute. lia.
Defined.

(** The packer on the thirteen comments, for a collaborator that finds
    every page too tall: thirteen forced pages of one comment. *)
Lemma packPages_lossless_witness :
  returns (fun pages' => exists new,
             pages' = [] ++ new /\
             flat_map commentsOf new = Post.commentList thirteenPost /\
             Forall (fun p => isCommentsPage p = true) new)
          (packPages (R := tallRenderer) thirteenPost 13
             (Post.commentList thirteenPost) [] tt).
Proof.
  apply (@packPages_lossless unit unit tallRenderer thirteenPost 13
           (Post.commentList thirteenPost) [] tt).
  vm_compute. lia.
Defined.

(** A comment of three lines, for a collaborator that finds everything
    too tall: three chunks of one line. *)
Lemma splitComment_reconstruction_witness :
  ends (reconstructs (sampleComment str_a [0x61; 0x0a; 0x62; 0x0a; 0x63]%N 1))
    (splitComment (R := tallRenderer) 3
       (sampleComment str_a [0x61; 0x0a; 0x62; 0x0a; 0x63]%N 1) tt) /\
  (neverThrows tallRenderer ->
   returns
     (reconstructs (sampleComment str_a [0x61; 0x0a; 0x62; 0x0a; 0x63]%N 1))
     (splitComment (R := tallRenderer) 3
        (sampleComment str_a [0x61; 0x0a; 0x62; 0x0a; 0x63]%N 1) tt)).
Proof.
  apply (@splitComment_reconstruction unit unit tallRenderer 3
           (sampleComment str_a [0x61; 0x0a; 0x62; 0x0a; 0x63]%N 1) tt).
  vm_compute. lia.
Defined.

(** C6, as stated, fails on a body with a blank line: the chunks of
    "a", blank, "b" are "a" and "b", which join to "a", "b" without the
    blank line. *)
Lemma splitComment_reconstruction_counterexample :
  let comment := sampleComment str_a [0x61; 0x0a; 0x0a; 0x62]%N 1 in
  exists chunks,
    fst (splitComment (R := tallRenderer) 2 comment tt) = Ok chunks /\
    map Comment.body chunks = [[0x61]; [0x62]]%N /\
    join LF (map Comment.body chunks) <> Comment.body comment.
Proof.
  eexists. split; [vm_compute; reflexivity|].
  split; [reflexivity|]. vm_compute. discriminate.
Qed.

(** The first rendering of the flaky collaborator throws: the comment is
    queued as it is and the next one is processed. *)
Lemma comment_failure_contained_witness :
  let c1 := sampleComment str_a str_b 2 in
  let c2 := sampleComment str_b str_c 1 in
  processComment (R := flakyRenderer) 1 c1 0 = (Ok [c1], 1) /\
  buildQueue (R := flakyRenderer) 1 (c1 :: [c2]) [] 0
  = buildQueue (R := flakyRenderer) 1 [c2] ([] ++ [c1]) 1 /\
  (forall post pages w0,
     fst (paginateComments (R := flakyRenderer) 1 post pages w0) <> Throw).
Proof.
  apply (@comment_failure_contained nat Page.t flakyRenderer 1
           (sampleComment str_a str_b 2) [sampleComment str_b str_c 1] [] 0 1).
  left. reflexivity.
Defined.

(** A post without body and with one comment: the default Main page,
    then one Comments page. *)
Lemma empty_body_default_page_witness :
  (forall pages w0,
     paginateMainContent (R := lineRenderer) 1 commentOnlyPost pages w0
     = (Ok (pages ++ [defaultPage commentOnlyPost]), w0)) /\
  returns (fun pages => exists queue packed,
             pages = defaultPage commentOnlyPost :: packed /\
             expansionOf (Post.commentList commentOnlyPost) queue /\
             packedFrom commentOnlyPost queue packed)
          (paginate (R := lineRenderer) 1 commentOnlyPost tt) /\
  (Post.commentList commentOnlyPost = [] ->
   fst (paginate (R := lineRenderer) 1 commentOnlyPost tt)
   = Ok [defaultPage commentOnlyPost]).
Proof.
  apply (@empty_body_default_page unit Page.t lineRenderer 1
           commentOnlyPost tt).
  - reflexivity.
  - reflexivity.
  - vm_compute. lia.
Defined.

(** C5, as stated, fails on that post: both body tracks paragraphize to
    empty, yet paginateMainContent emits a page, and the post with a
    non-empty comment queue yields a Main page before its Comments page. *)
Lemma empty_body_counterexample :
  paragraphs (orEmpty (Post.selftext_zh commentOnlyPost)) = [] /\
  paragraphs (orEmpty (Post.selftext commentOnlyPost)) = [] /\
  fst (paginateMainContent (R := lineRenderer) 1 commentOnlyPost [] tt)
  = Ok [defaultPage commentOnlyPost] /\
  exists pages,
    fst (paginate (R := lineRenderer) 1 commentOnlyPost tt) = Ok pages /\
    map Page.type pages = [Some main; Some comments] /\
    map isCommentsPage pages = [false; true].
Proof.
  split; [reflexivity|]. split; [reflexivity|]. split; [reflexivity|].
  eexists. split; [vm_compute; reflexivity|]. split; reflexivity.
Qed.

(** The worked example terminates within three rounds of each loop, and
    returns. *)
Lemma paginate_terminates_witness :
  fst (paginate (R := lineRenderer) 3 workedPost tt) <> OutOfFuel /\
  exists pages w',
    paginate (R := lineRenderer) 3 workedPost tt = (Ok pages, w').
Proof.
  destruct (@paginate_terminates unit Page.t lineRenderer 3 workedPost tt)
    as (Hfuel & Hreturns & _).
  - vm_compute. lia.
  - split; [exact Hfuel|]. apply Hreturns.
    split; intros; discriminate.
Defined.

(** Four comments out of order, one blank: three enter the queue, by
    descending score. *)
Lemma comment_queue_uncapped_witness :
  Permutation (Post.commentList (preprocessed unsortedPost))
    (map ImageGenerator.cleanComment
       (filter (fun c => nonBlank (Comment.body c))
          (Post.commentList unsortedPost))) /\
  StronglySorted (fun a b => (Comment.ups b <= Comment.ups a)%Z)
    (Post.commentList (preprocessed unsortedPost)) /\
  ends (carriesAll (Post.commentList (preprocessed unsortedPost)))
    (paginate (R := lineRenderer) 3 (preprocessed unsortedPost) tt) /\
  (neverThrows lineRenderer ->
   returns (carriesAll (Post.commentList (preprocessed unsortedPost)))
     (paginate (R := lineRenderer) 3 (preprocessed unsortedPost) tt)).
Proof.
  apply (@comment_queue_uncapped unit Page.t lineRenderer 3 unsortedPost
           (preprocessed unsortedPost) tt).
  - reflexivity.
  - vm_compute. lia.
Defined.

(** C3, as stated, fails on a post with thirteen comments: the comment
    with the thirteenth highest score is on an emitted Comments page. *)
Lemma comment_cap_counterexample :
  ImageGenerator.preprocessPostData thirteenPost
  = Some (preprocessed thirteenPost) /\
  map Comment.ups (Post.commentList (preprocessed thirteenPost))
  = [13; 12; 11; 10; 9; 8; 7; 6; 5; 4; 3; 2; 1]%Z /\
  exists pages,
    fst (paginate (R := lineRenderer) 13 (preprocessed thirteenPost) tt)
    = Ok pages /\
    length (flat_map commentsOf (filter isCommentsPage pages)) = 13 /\
    nth_error (flat_map commentsOf (filter isCommentsPage pages)) 12
    = nth_error (Post.commentList (preprocessed thirteenPost)) 12 /\
    option_map Comment.ups
      (nth_error (flat_map commentsOf (filter isCommentsPage pages)) 12)
    = Some 1%Z.
Proof.
  split; [reflexivity|]. split; [reflexivity|].
  eexists. split; [vm_compute; reflexivity|].
  split; [reflexivity|]. split; reflexivity.
Qed.

End SampleFacts.

(* ===================================================================== *)
(** ** The shape of the page sequence *)
(* ===================================================================== *)

Module OrderFacts.

Import JS Async AsyncFacts Pagination Spec Order JSFacts FitterFacts.
Import PaginationFacts.

(** A bind that returned ran both of its parts to their return. *)
Lemma bind_Ok {World A B} (m : M World A) (k : A -> M World B) (w : World)
  (b : B) :
  fst (bind m k w) = Ok b ->
  exists a w1, m w = (Ok a, w1) /\ fst (k a w1) = Ok b.
Proof.
  unfold bind. destruct (m w) as [[a| |] w1]; simpl; try discriminate.
  intros H. exists a, w1. split; [reflexivity | exact H].
Qed.

(** What holds of every returned value can be added to the way a run ends. *)
Lemma endsOr_and (T : Prop) {World A} (Q Q' : A -> Prop)
  (r : outcome A * World) :
  endsOr T Q r -> (forall a, fst r = Ok a -> Q' a) ->
  endsOr T (fun a => Q a /\ Q' a) r.
Proof.
  unfold endsOr. destruct (fst r) as [a| |]; auto.
Qed.

Lemma mainRun_continued (pages : list Page.t) :
  mainRun false pages ->
  Forall (fun p => Page.type p = Some main_continued) pages.
Proof.
  destruct pages as [|p rest]; [constructor|].
  intros [Hp Hrest]. constructor; assumption.
Qed.

Section Runs.

Context {World Html : Type} {R : Renderer World Html}.

Lemma fit_Ok_pos (probe : nat -> M World Z) (limit : Z) (fuel n : nat)
  (w : World) (k : nat) :
  fst (fit probe limit fuel n w) = Ok k -> 1 <= k.
Proof.
  unfold fit. intros H. apply bind_Ok in H as (found & w1 & _ & H).
  simpl in H. injection H as <-. apply atLeastOne_pos.
Qed.

(** The pages that the outer loop of paginateMainContent appends: the
    first is typed by [isFirstPage], the others are MainContinued, and
    there is at most one page for each paragraph of the longer queue. *)
Lemma mainLoop_run (post : Post.t) (fuel n : nat) :
  forall zh en isFirstPage pages w pages',
  fst (mainLoop post fuel n zh en isFirstPage pages w) = Ok pages' ->
  exists new,
    pages' = pages ++ new /\ mainRun isFirstPage new /\
    length new <= Nat.max (length zh) (length en).
Proof.
  induction n as [|n IH]; intros zh en isFirstPage pages w pages' Hrun.
  - simpl in Hrun. destruct ((0 <? length zh) || (0 <? length en));
      [discriminate|].
    injection Hrun as <-. exists []. rewrite app_nil_r.
    split; [reflexivity|]. split; [exact I | simpl; lia].
  - cbn [mainLoop] in Hrun.
    destruct ((0 <? length zh) || (0 <? length en)) eqn:Hnonempty.
    + apply bind_Ok in Hrun as (k & w1 & Hfit & Hrun).
      assert (Hk : 1 <= k) by (eapply fit_Ok_pos; rewrite Hfit; reflexivity).
      apply IH in Hrun as (new & -> & Htypes & Hlen).
      eexists (_ :: new). split; [rewrite <- app_assoc; reflexivity|].
      split.
      * split; [reflexivity | apply mainRun_continued; exact Htypes].
      * rewrite !length_skipn in Hlen. cbn [length].
        apply orb_true_iff in Hnonempty as [H | H]; apply Nat.ltb_lt in H; lia.
    + injection Hrun as <-. exists []. rewrite app_nil_r.
      split; [reflexivity|]. split; [exact I | simpl; lia].
Qed.

Lemma paginateMainContent_run (fuel : nat) (post : Post.t)
  (pages : list Page.t) (w : World) (pages' : list Page.t) :
  fst (paginateMainContent fuel post pages w) = Ok pages' ->
  exists mains,
    pages' = pages ++ mains /\ mainRun true mains /\
    length mains
    <= Nat.max 1
         (Nat.max (length (paragraphs (orEmpty (Post.selftext_zh post))))
                  (length (paragraphs (orEmpty (Post.selftext post))))).
Proof.
  unfold paginateMainContent.
  destruct ((length (paragraphs (orEmpty (Post.selftext_zh post))) =? 0)
            && (length (paragraphs (orEmpty (Post.selftext post))) =? 0)).
  - intros H. injection H as <-. exists [defaultPage post].
    split; [reflexivity|]. split; [split; [reflexivity | constructor]|].
    cbn [length]. lia.
  - intros H. apply mainLoop_run in H as (new & -> & Hrun & Hlen).
    exists new. split; [reflexivity|]. split; [assumption | lia].
Qed.

(** The chunks that the outer loop of splitComment appends. *)
Lemma splitLoop_run (comment : Comment.t) (fuel n : nat) :
  forall zh en isFirstChunk chunks w chunks',
  fst (splitLoop comment fuel n zh en isFirstChunk chunks w) = Ok chunks' ->
  exists new,
    chunks' = chunks ++ new /\ flagged isFirstChunk new /\
    Forall (sameIdentity comment) new.
Proof.
  induction n as [|n IH]; intros zh en isFirstChunk chunks w chunks' Hrun.
  - simpl in Hrun. destruct ((0 <? length zh) || (0 <? length en));
      [discriminate|].
    injection Hrun as <-. exists []. rewrite app_nil_r.
    split; [reflexivity|]. split; [exact I | constructor].
  - cbn [splitLoop] in Hrun.
    destruct ((0 <? length zh) || (0 <? length en)) eqn:Hnonempty.
    + apply bind_Ok in Hrun as (found & w1 & _ & Hrun).
      cbn [negb andb] in Hrun. rewrite andb_false_r in Hrun.
      apply IH in Hrun as (new & -> & Hflags & Hsame).
      eexists (_ :: new). split; [rewrite <- app_assoc; reflexivity|].
      split.
      * split; [reflexivity|].
        destruct new as [|c rest]; [constructor|].
        destruct Hflags as [Hc Hrest]. constructor; assumption.
      * constructor; [|assumption]. repeat split.
    + injection Hrun as <-. exists []. rewrite app_nil_r.
      split; [reflexivity|]. split; [exact I | constructor].
Qed.

End Runs.

Section Sequence.

Context {World Html : Type} {R : Renderer World Html}.

Variable T : Prop.
Hypothesis throws_allowed : T \/ neverThrows R.

(** paginate ends with the main pages in their order, then the pages
    packed from the working queue. *)
Lemma paginate_sequence (fuel : nat) (post : Post.t) (w : World) :
  fuelBound post <= fuel ->
  endsOr T (fun pages => exists mains queue packed,
              pages = mains ++ packed /\
              mainPagesOf post mains /\ mainRun true mains /\
              length mains
              <= Nat.max 1
                   (Nat.max
                      (length (paragraphs (orEmpty (Post.selftext_zh post))))
                      (length (paragraphs (orEmpty (Post.selftext post))))) /\
              expansionOf (Post.commentList post) queue /\
              packedFrom post queue packed)
    (paginate fuel post w).
Proof.
  intros Hfuel. unfold fuelBound in Hfuel. unfold paginate.
  eapply endsOr_bind.
  - apply endsOr_and.
    + apply (paginateMainContent_ends throws_allowed). lia.
    + intros pages1 Hrun. apply (paginateMainContent_run _ _ _ _ Hrun).
  - intros pages1 w1 [(mains & -> & Hmains) (mains' & Heq & Hrun & Hlen)].
    simpl in Heq. subst mains'. simpl.
    eapply endsOr_bind.
    + eapply endsOr_weaken;
        [| |apply (@paginateComments_returns _ _ R fuel post mains w1); lia];
        [contradiction | intros a Ha; exact Ha].
    + intros pages2 w2 (queue & packed & -> & Hexp & Hpacked).
      assert (Hnonempty : (length (mains ++ packed) =? 0) = false).
      { apply Nat.eqb_neq. destruct Hmains as [Hne _].
        destruct mains; [congruence | discriminate]. }
      rewrite Hnonempty. apply endsOr_ret.
      exists mains, queue, packed.
      split; [reflexivity|]. split; [assumption|]. split; [assumption|].
      split; [assumption|]. split; assumption.
Qed.

End Sequence.

Lemma packed_filled (post : Post.t) (packed : list Page.t) :
  Forall (packedPage post) packed ->
  Forall (fun p => Page.type p = Some comments /\
                   1 <= length (commentsOf p) <= 3) packed /\
  length packed <= length (flat_map commentsOf packed) <= 3 * length packed.
Proof.
  induction 1 as [|p packed Hp Hrest [IH1 IH2]].
  - split; [constructor | simpl; lia].
  - destruct Hp as (cs & -> & Hlen). split.
    + constructor; [split; [reflexivity | exact Hlen] | exact IH1].
    + cbn [flat_map length]. rewrite length_app.
      change (commentsOf (commentsPageData post cs)) with cs. lia.
Qed.

Section Shape.

Context {World Html : Type} {R : Renderer World Html}.

(** Page order. For every post and every measurement collaborator,
    paginate ends with a page sequence that opens with exactly one Main
    page, continues with the MainContinued pages and closes with the
    Comments pages: no Comments page precedes a page of the body, and no
    second Main page is emitted. *)
Theorem paginate_page_order (fuel : nat) (post : Post.t) (w : World) :
  fuelBound post <= fuel ->
  ends ordered (paginate fuel post w) /\
  (neverThrows R -> returns ordered (paginate fuel post w)).
Proof.
  intros Hfuel.
  assert (Hord : forall pages,
            (exists mains queue packed,
               pages = mains ++ packed /\
               mainPagesOf post mains /\ mainRun true mains /\
               length mains
               <= Nat.max 1
                    (Nat.max
                       (length (paragraphs (orEmpty (Post.selftext_zh post))))
                       (length (paragraphs (orEmpty (Post.selftext post))))) /\
               expansionOf (Post.commentList post) queue /\
               packedFrom post queue packed) ->
            ordered pages).
  { intros pages (mains & queue & packed & -> & (Hne & _) & Hrun & _ & _
                  & (_ & Hpacked)).
    destruct mains as [|first continued]; [congruence|].
    destruct Hrun as [Hfirst Hcont].
    exists first, continued, packed.
    split; [reflexivity|]. split; [assumption|]. split; [assumption|].
    eapply Forall_impl; [|apply (packed_filled Hpacked)].
    intros p [Hp _]. exact Hp. }
  split; [|intros Hnever].
  - eapply endsOr_weaken;
      [| |apply (@paginate_sequence _ _ R True (or_introl I)); exact Hfuel];
      [tauto | exact Hord].
  - eapply endsOr_weaken;
      [| |apply (@paginate_sequence _ _ R False (or_intror Hnever));
          exact Hfuel];
      [tauto | exact Hord].
Qed.

(** Main page count. The body of a post takes at least one page and at
    most one page for each paragraph of its longer language track: no
    page of the body is emitted without a paragraph of its own. *)
Theorem main_pages_bounded (fuel : nat) (post : Post.t) (w : World) :
  fuelBound post <= fuel ->
  ends (fun pages =>
          1 <= length (filter isMainPage pages)
          <= Nat.max 1
               (Nat.max
                  (length (paragraphs (orEmpty (Post.selftext_zh post))))
                  (length (paragraphs (orEmpty (Post.selftext post))))))
       (paginate fuel post w).
Proof.
  intros Hfuel.
  eapply endsOr_weaken;
    [| |apply (@paginate_sequence _ _ R True (or_introl I)); exact Hfuel];
    [tauto|].
  intros pages (mains & queue & packed & -> & Hmains & _ & Hlen & _ & Hpacked).
  destruct (paginated_kinds Hmains Hpacked) as [Hfilter _].
  rewrite Hfilter. split; [|exact Hlen].
  destruct Hmains as [Hne _]. destruct mains; [congruence | simpl; lia].
Qed.

(** Comments pages. No Comments page is empty, so the comments and
    chunks of the working queue take at least a third as many pages as
    they are, and at most as many. *)
Theorem comments_pages_filled (fuel : nat) (post : Post.t) (w : World) :
  fuelBound post <= fuel ->
  ends (fun pages =>
          Forall (fun p => 1 <= length (commentsOf p))
            (filter isCommentsPage pages) /\
          length (filter isCommentsPage pages)
          <= length (flat_map commentsOf (filter isCommentsPage pages))
          <= 3 * length (filter isCommentsPage pages))
       (paginate fuel post w).
Proof.
  intros Hfuel.
  eapply endsOr_weaken;
    [| |apply (@paginate_sequence _ _ R True (or_introl I)); exact Hfuel];
    [tauto|].
  intros pages (mains & queue & packed & -> & Hmains & _ & _ & _ & Hpacked).
  destruct (paginated_kinds Hmains Hpacked) as [_ Hfilter].
  rewrite Hfilter. destruct Hpacked as [_ Hpacked].
  destruct (packed_filled Hpacked) as [Hall Hcount].
  split; [|exact Hcount].
  eapply Forall_impl; [|exact Hall]. intros p [_ Hp]. lia.
Qed.

(** Chunk flags. The chunks of a split comment keep the author, the
    score, the parent and the icon of the comment; the first chunk is
    not flagged as a continuation and every later chunk is. *)
Theorem splitComment_flags (fuel : nat) (comment : Comment.t) (w : World) :
  chunkBound comment <= fuel ->
  ends (fun chunks => flagged true chunks /\
                      Forall (sameIdentity comment) chunks)
       (splitComment fuel comment w) /\
  (neverThrows R ->
   returns (fun chunks => flagged true chunks /\
                          Forall (sameIdentity comment) chunks)
           (splitComment fuel comment w)).
Proof.
  intros Hfuel.
  assert (Hrun : forall chunks,
            fst (splitComment fuel comment w) = Ok chunks ->
            flagged true chunks /\ Forall (sameIdentity comment) chunks).
  { intros chunks H. unfold splitComment in H.
    apply splitLoop_run in H as (new & -> & Hflags & Hsame).
    split; assumption. }
  split; [|intros Hnever].
  - eapply endsOr_weaken;
      [| |apply endsOr_and;
          [apply (@splitComment_ends _ _ R True (or_introl I)); exact Hfuel
          | exact Hrun]];
      [tauto | intros chunks [_ H]; exact H].
  - eapply endsOr_weaken;
      [| |apply endsOr_and;
          [apply (@splitComment_ends _ _ R False (or_intror Hnever));
           exact Hfuel
          | exact Hrun]];
      [tauto | intros chunks [_ H]; exact H].
Qed.

(** Failure in the body. Unlike the comment pagination, the main-content
    pagination catches nothing: when the first probe of the first search
    throws (the rendering or the measurement of the middle chunk),
    paginate throws from the world the probe left, and returns no page. *)
Theorem main_failure_propagates (fuel : nat) (post : Post.t) (w w1 : World) :
  let zh := paragraphs (orEmpty (Post.selftext_zh post)) in
  let en := paragraphs (orEmpty (Post.selftext post)) in
  let n := Nat.max (length zh) (length en) in
  1 <= n -> 1 <= fuel ->
  measureMain post zh en ((1 + n) / 2) w = (Throw, w1) ->
  paginate fuel post w = (Throw, w1).
Proof.
  intros zh en n Hn Hfuel Hprobe.
  assert (Hmid : (1 + n) / 2 <> 0).
  { pose proof (@mid_bounds 1 n Hn). lia. }
  unfold paginate, paginateMainContent. fold zh en.
  assert (Hsome : (length zh =? 0) && (length en =? 0) = false).
  { apply andb_false_iff. unfold n in Hn.
    destruct (Nat.eqb_spec (length zh) 0); [right | left; reflexivity].
    apply Nat.eqb_neq. lia. }
  rewrite Hsome.
  destruct fuel as [|fuel]; [lia|].
  assert (Htest : (0 <? length zh) || (0 <? length en) = true).
  { apply orb_true_iff. unfold n in Hn.
    destruct (Nat.ltb_spec 0 (length zh)); [left; reflexivity | right].
    apply Nat.ltb_lt. lia. }
  cbn [mainLoop]. rewrite Htest. fold n.
  unfold fit. cbn [fitSearch].
  replace (1 <=? n) with true by (symmetry; apply Nat.leb_le; exact Hn).
  replace ((1 + n) / 2 =? 0) with false
    by (symmetry; apply Nat.eqb_neq; exact Hmid).
  unfold bind. rewrite Hprobe. reflexivity.
Qed.

End Shape.

(** Fitter maximality. For a probe that is a measurement function [h],
    monotonically non-decreasing on [1, n] and with the smallest chunk
    within the limit, the chunk size that the fitter returns separates
    the sizes that fit from those that do not: a size of [1, n] is
    within the limit exactly when it is at most the returned size. *)
Theorem fit_takes_all_that_fit {World : Type} (probe : nat -> M World Z)
  (h : nat -> Z) (limit : Z) (n fuel : nat) (w : World) :
  (forall k w, fst (probe k w) = Ok (h k)) ->
  (forall i j, 1 <= i -> i <= j -> j <= n -> (h i <= h j)%Z) ->
  within limit (h 1%nat) ->
  1 <= n -> n <= fuel ->
  exists k,
    fst (fit probe limit fuel n w) = Ok k /\
    1 <= k <= n /\
    forall k', 1 <= k' <= n -> (within limit (h k') <-> k' <= k).
Proof.
  intros Hm Hmono Hone Hn Hfuel.
  assert (Hpos : (0 < h 1%nat)%Z) by apply Hone.
  destruct (@fit_measured World probe h limit n Hm Hmono Hpos fuel w Hn Hfuel)
    as (k & Hrun & Hk & Hcases).
  exists k. split; [exact Hrun|]. split; [exact Hk|].
  intros k' Hk'. unfold within.
  destruct Hcases as [[Hfit Hlarger] | [_ Hnone]].
  - split.
    + intros Hfit'. destruct (Nat.le_gt_cases k' k) as [Hle | Hgt];
        [exact Hle|].
      exfalso. apply (Hlarger k'); [lia | exact Hfit'].
    + intros Hle.
      apply (@fits_downward h limit n Hmono Hpos k' k); lia || exact Hfit.
  - exfalso. apply (Hnone 1); [lia | exact Hone].
Qed.

Lemma half_bounds (low high : nat) :
  2 * ((low + high) / 2) <= low + high < 2 * ((low + high) / 2) + 2.
Proof.
  pose proof (Nat.div_mod_eq (low + high) 2).
  pose proof (Nat.mod_upper_bound (low + high) 2). lia.
Qed.

Section Cost.

Context {World : Type}.
Variable probe : nat -> M World Z.
Variable limit : Z.

(** A search over an interval of fewer than [2 ^ p] sizes ends within
    [p] rounds. *)
Lemma fitSearch_rounds (p : nat) :
  forall fuel low high best w,
  (forall k w, fst (probe k w) <> OutOfFuel) ->
  1 <= low -> high + 1 - low < 2 ^ p -> p <= fuel ->
  fst (fitSearch probe limit fuel low high best w) <> OutOfFuel.
Proof.
  induction p as [|p IH]; intros fuel low high best w Hp Hlow Hsize Hfuel.
  - simpl in Hsize. rewrite fitSearch_done by lia. discriminate.
  - destruct fuel as [|fuel]; [lia|].
    rewrite Nat.pow_succ_r' in Hsize.
    cbn [fitSearch]. destruct (low <=? high) eqn:Hle; [|discriminate].
    apply Nat.leb_le in Hle.
    pose proof (half_bounds low high) as Hhalf.
    set (mid := (low + high) / 2) in *.
    replace (mid =? 0) with false by (symmetry; apply Nat.eqb_neq; lia).
    unfold bind. pose proof (Hp mid w) as Hm.
    destruct (probe mid w) as [[height| |] w1]; cbn [fst] in Hm;
      [|discriminate | congruence].
    destruct ((0 <? height)%Z && (height <=? limit)%Z);
      apply IH; try assumption; lia.
Qed.

(** It makes at most [p] probes. *)
Lemma fitSearch_probes (p : nat) :
  forall fuel low high best w c,
  1 <= low -> high + 1 - low < 2 ^ p ->
  snd (snd (fitSearch (counting probe) limit fuel low high best (w, c)))
  <= c + p.
Proof.
  induction p as [|p IH]; intros fuel low high best w c Hlow Hsize.
  - simpl in Hsize. rewrite fitSearch_done by lia. simpl. lia.
  - rewrite Nat.pow_succ_r' in Hsize.
    destruct fuel as [|fuel].
    + simpl. destruct (low <=? high); simpl; lia.
    + cbn [fitSearch]. destruct (low <=? high) eqn:Hle; [|simpl; lia].
      apply Nat.leb_le in Hle.
      pose proof (half_bounds low high) as Hhalf.
      set (mid := (low + high) / 2) in *.
      replace (mid =? 0) with false by (symmetry; apply Nat.eqb_neq; lia).
      unfold bind, counting at 1. cbn [fst snd].
      destruct (probe mid w) as [[height| |] w1]; cbn [fst snd]; try lia.
      destruct ((0 <? height)%Z && (height <=? limit)%Z).
      * pose proof (IH fuel (mid + 1) high mid w1 (S c)
                      ltac:(lia) ltac:(lia)). lia.
      * pose proof (IH fuel low (mid - 1) best w1 (S c)
                      ltac:(lia) ltac:(lia)). lia.
Qed.

End Cost.

(** Logarithmic cost. A fitter invocation over [1, n] with [n < 2 ^ p]
    ends within [p] rounds of its search, whatever the probe answers,
    and invokes the probe at most [p] times: the measurement round trips
    of one chunk are logarithmic in the number of remaining paragraphs. *)
Theorem fit_logarithmic {World : Type} (probe : nat -> M World Z)
  (limit : Z) (n p fuel : nat) (w : World) (c : nat) :
  (forall k w, fst (probe k w) <> OutOfFuel) ->
  n < 2 ^ p -> p <= fuel ->
  fst (fit probe limit fuel n w) <> OutOfFuel /\
  snd (snd (fit (counting probe) limit fuel n (w, c))) <= c + p.
Proof.
  intros Hp Hn Hfuel. split.
  - unfold fit, bind.
    pose proof (@fitSearch_rounds World probe limit p fuel 1 n 0 w Hp
                  (le_n 1) ltac:(lia) Hfuel) as Hrun.
    destruct (fitSearch probe limit fuel 1 n 0 w) as [[found| |] w1];
      simpl in *; [discriminate | discriminate | congruence].
  - unfold fit, bind.
    pose proof (@fitSearch_probes World probe limit p fuel 1 n 0 w c
                  (le_n 1) ltac:(lia)) as Hcount.
    destruct (fitSearch (counting probe) limit fuel 1 n 0 (w, c))
      as [[found| |] w1]; simpl in *; exact Hcount.
Qed.

Section Budget.

Context {World Html : Type} {R : Renderer World Html}.
Variable H : Page.t -> Z.





Lemma tryAdd_measured (post : Post.t) (pageComments : list Comment.t)
  (nextComment : Comment.t) (w : World) :
  measures R comment_card COMMENTS_SECTION_SELECTOR H ->
  exists w',
    tryAdd post pageComments nextComment w
    = (Ok (let height :=
             H (commentsPageData post (pageComments ++ [nextComment])) in
           if (0 <? height)%Z && (height <=? MAX_HEIGHT_COMMENTS)%Z then
             if 3 <=? length (pageComments ++ [nextComment])
             then AddedAndFull else Added
           else Stop), w').
Proof.
  intros HR. unfold tryAdd, try_catch, bind, await.
  destruct (HR (commentsPageData post (pageComments ++ [nextComment])) w)
    as (html & w1 & w2 & -> & ->).
  exists w2. cbv zeta.
  destruct ((0 <? H (commentsPageData post (pageComments ++ [nextComment])))%Z
            && (H (commentsPageData post (pageComments ++ [nextComment]))
                <=? MAX_HEIGHT_COMMENTS)%Z); [|reflexivity].
  destruct (3 <=? length (pageComments ++ [nextComment])); reflexivity.
Qed.

Lemma within_test (limit height : Z) :
  (0 <? height)%Z && (height <=? limit)%Z = true <-> within limit height.
Proof.
  unfold within. rewrite andb_true_iff, Z.ltb_lt, Z.leb_le. tauto.
Qed.

Lemma growPage_measured (post : Post.t) (commentQueue : list Comment.t) :
  measures R comment_card COMMENTS_SECTION_SELECTOR H ->
  forall pageComments w,
  length pageComments <= 2 ->
  (pageComments = [] \/
   within MAX_HEIGHT_COMMENTS (H (commentsPageData post pageComments))) ->
  exists page rest w',
    growPage post commentQueue pageComments w = (Ok (page, rest), w') /\
    page ++ rest = pageComments ++ commentQueue /\
    length page <= 3 /\
    (page = [] \/ within MAX_HEIGHT_COMMENTS (H (commentsPageData post page))) /\
    match rest with
    | [] => True
    | next :: _ =>
        length page = 3 \/
        ~ within MAX_HEIGHT_COMMENTS (H (commentsPageData post (page ++ [next])))
    end.
Proof.
  intros HR.
  induction commentQueue as [|nextComment rest IH];
    intros pageComments w Hlen Hfits.
  - exists pageComments, [], w. split; [reflexivity|].
    split; [reflexivity|]. split; [lia|]. split; [assumption | exact I].
  - cbn [growPage]. unfold bind.
    destruct (tryAdd_measured post pageComments nextComment w HR)
      as (w1 & ->). cbv zeta.
    destruct ((0 <? H (commentsPageData post (pageComments ++ [nextComment])))%Z
              && (H (commentsPageData post (pageComments ++ [nextComment]))
                  <=? MAX_HEIGHT_COMMENTS)%Z) eqn:Hfit.
    + apply within_test in Hfit.
      destruct (3 <=? length (pageComments ++ [nextComment])) eqn:Hfull.
      * apply Nat.leb_le in Hfull. rewrite length_app in Hfull.
        cbn [length] in Hfull.
        exists (pageComments ++ [nextComment]), rest, w1.
        split; [reflexivity|]. split; [rewrite <- app_assoc; reflexivity|].
        assert (Hthree : length (pageComments ++ [nextComment]) = 3)
          by (rewrite length_app; cbn [length]; lia).
        split; [lia|]. split; [right; exact Hfit|].
        destruct rest; [exact I | left; exact Hthree].
      * apply Nat.leb_gt in Hfull.
        destruct (IH (pageComments ++ [nextComment]) w1 ltac:(lia)
                    (or_intror Hfit))
          as (page & rest' & w' & Hrun & Hsame & Hcap & Hpage & Hnext).
        exists page, rest', w'. split; [exact Hrun|].
        split; [rewrite Hsame, <- app_assoc; reflexivity|].
        split; [exact Hcap|]. split; assumption.
    + exists pageComments, (nextComment :: rest), w1.
      split; [reflexivity|]. split; [reflexivity|]. split; [lia|].
      split; [assumption|]. right. intros Hw.
      apply within_test in Hw. congruence.
Qed.

(** The pages that the packer emits for a collaborator that is a
    function of the data. *)
Lemma packPages_measured (post : Post.t) (n : nat) :
  measures R comment_card COMMENTS_SECTION_SELECTOR H ->
  forall commentQueue pages w,
  length commentQueue <= n ->
  exists packed w',
    packPages post n commentQueue pages w
    = (Ok (pages ++ map (commentsPageData post) packed), w') /\
    concat packed = commentQueue /\
    Forall (budgetedComments post H) packed /\
    greedy post H packed.
Proof.
  intros HR. induction n as [|n IH]; intros commentQueue pages w Hn.
  - assert (commentQueue = []) by (apply length_zero_iff_nil; lia). subst.
    exists [], w. cbn [map]. rewrite app_nil_r.
    split; [reflexivity|]. split; [reflexivity|].
    split; [constructor | exact I].
  - cbn [packPages]. destruct (0 <? length commentQueue) eqn:Hnonempty.
    + apply Nat.ltb_lt in Hnonempty. unfold bind.
      destruct (@growPage_measured post commentQueue HR [] w
                  ltac:(simpl; lia) (or_introl eq_refl))
        as (page & rest & w1 & -> & Hsame & Hcap & Hpage & Hnext).
      cbn [app] in Hsame.
      assert (Hforced : exists cs rest',
                forceOne (page, rest) = (cs, rest') /\
                cs ++ rest' = commentQueue /\ cs <> [] /\
                budgetedComments post H cs /\
                match rest' with
                | [] => True
                | next :: _ =>
                    length cs = 3 \/
                    ~ within MAX_HEIGHT_COMMENTS
                        (H (commentsPageData post (cs ++ [next]))) \/
                    length cs = 1 /\
                    ~ within MAX_HEIGHT_COMMENTS
                        (H (commentsPageData post cs))
                end).
      { destruct page as [|c page].
        - destruct rest as [|d rest].
          + simpl in Hsame. subst. simpl in Hnonempty. lia.
          + exists [d], rest. split; [reflexivity|].
            split; [exact Hsame|]. split; [discriminate|].
            split; [right; reflexivity|].
            destruct rest as [|e rest]; [exact I|].
            destruct Hnext as [Hthree | Hno]; [discriminate|].
            right. right. split; [reflexivity | exact Hno].
        - exists (c :: page), rest.
          split; [destruct rest; reflexivity|].
          split; [exact Hsame|]. split; [discriminate|]. split.
          + destruct Hpage as [Hnil | Hfit];
              [discriminate | left; exact Hfit].
          + destruct rest as [|next rest]; [exact I|].
            destruct Hnext as [Hthree | Hno]; [left; exact Hthree|].
            right. left. exact Hno. }
      destruct Hforced as (cs & rest' & -> & Hq & Hne & Hbudget & Hgreedy).
      assert (Hlen : (0 <? length cs) = true).
      { apply Nat.ltb_lt. destruct cs; [congruence | simpl; lia]. }
      rewrite Hlen.
      destruct (IH rest' (pages ++ [commentsPageData post cs]) w1)
        as (packed & w' & Hrun & Hflat & Hall & Hgr).
      * rewrite <- Hq, length_app in Hn.
        destruct cs; [congruence | simpl in Hn; lia].
      * exists (cs :: packed), w'. split.
        -- rewrite Hrun, <- app_assoc. reflexivity.
        -- split; [cbn [concat]; rewrite Hflat; exact Hq|].
           split; [constructor; assumption|].
           cbn [greedy]. rewrite Hflat. split; assumption.
    + apply Nat.ltb_ge in Hnonempty.
      assert (commentQueue = []) by (apply length_zero_iff_nil; lia). subst.
      exists [], w. cbn [map]. rewrite app_nil_r.
      split; [reflexivity|]. split; [reflexivity|].
      split; [constructor | exact I].
Qed.


(** Greedy packing within the budget. For a collaborator that is a
    function of the page data, the packer returns pages that cut the
    queue in order; every page measured with a positive height within
    MAX_HEIGHT_COMMENTS, unless it holds a single comment; and a page is
    closed with fewer than three comments only when the comment that
    opens the next page did not fit below them, or when the page is a
    forced single comment that did not fit alone. *)
Theorem packer_greedy_within_budget (post : Post.t) (n : nat)
  (commentQueue : list Comment.t) (pages : list Page.t) (w : World) :
  measures R comment_card COMMENTS_SECTION_SELECTOR H ->
  length commentQueue <= n ->
  exists packed w',
    packPages post n commentQueue pages w
    = (Ok (pages ++ map (commentsPageData post) packed), w') /\
    concat packed = commentQueue /\
    Forall (budgetedComments post H) packed /\
    greedy post H packed.
Proof.
  intros HR Hn.
  exact (@packPages_measured post n HR commentQueue pages w Hn).
Qed.

End Budget.

End OrderFacts.
(* ===================================================================== *)
(** ** Further properties of the preprocessing *)
(* ===================================================================== *)

Module PreprocessFacts.

Import JS ImageGenerator JSFacts ImageGeneratorFacts TrimFacts.

Lemma filter_insertByUps (s : Z) (c : Comment.t) (l : list Comment.t) :
  filter (fun d => (Comment.ups d =? s)%Z) (insertByUps c l)
  = filter (fun d => (Comment.ups d =? s)%Z) (c :: l).
Proof.
  induction l as [|d rest IH]; [reflexivity|].
  cbn [insertByUps].
  destruct (Comment.ups c <? Comment.ups d)%Z eqn:Hlt; [|reflexivity].
  apply Z.ltb_lt in Hlt. cbn [filter] in *.
  destruct (Comment.ups d =? s)%Z eqn:Hd.
  - apply Z.eqb_eq in Hd.
    replace (Comment.ups c =? s)%Z with false in *
      by (symmetry; apply Z.eqb_neq; lia).
    rewrite IH. reflexivity.
  - rewrite IH. reflexivity.
Qed.

(** The sort is stable: the comments of one score stay in their order. *)
Lemma sortByUps_stable (s : Z) (l : list Comment.t) :
  filter (fun d => (Comment.ups d =? s)%Z) (sortByUps l)
  = filter (fun d => (Comment.ups d =? s)%Z) l.
Proof.
  induction l as [|c rest IH]; [reflexivity|].
  cbn [sortByUps]. rewrite filter_insertByUps.
  cbn [filter]. rewrite IH. reflexivity.
Qed.

(** Sorting a sorted list leaves it as it is. *)
Lemma sortByUps_fixed (l : list Comment.t) :
  StronglySorted (fun a b => (Comment.ups b <= Comment.ups a)%Z) l ->
  sortByUps l = l.
Proof.
  induction 1 as [|c rest Hsorted IH Hc]; [reflexivity|].
  cbn [sortByUps]. rewrite IH.
  destruct rest as [|d rest]; [reflexivity|].
  cbn [insertByUps]. inversion Hc as [|? ? Hd _]; subst.
  replace (Comment.ups c <? Comment.ups d)%Z with false
    by (symmetry; apply Z.ltb_ge; exact Hd).
  reflexivity.
Qed.

Lemma cleanComment_idem (c : Comment.t) :
  cleanComment (cleanComment c) = cleanComment c.
Proof.
  unfold cleanComment.
  cbn [Comment.author Comment.body Comment.body_zh Comment.parent_id
       Comment.ups Comment.icon_img Comment.isContinuation orEmpty].
  rewrite trim_idem. reflexivity.
Qed.

Lemma map_cleanComment_fixed (l : list Comment.t) :
  map cleanComment (map cleanComment l) = map cleanComment l.
Proof.
  rewrite map_map. apply map_ext. intros c. apply cleanComment_idem.
Qed.

(** Stability of the comment order. preprocessPostData keeps, among the
    comments of one score, the order in which the post lists them: the
    comments of a score in the result are the comments of that score of
    the post that have a non-blank body, cleaned, in their order. *)
Theorem preprocessPostData_stable (post cleaned : Post.t) (s : Z) :
  preprocessPostData post = Some cleaned ->
  filter (fun c => (Comment.ups c =? s)%Z) (Post.commentList cleaned)
  = map cleanComment
      (filter (fun c => nonBlank (Comment.body c) && (Comment.ups c =? s)%Z)
         (Post.commentList post)).
Proof.
  intros Hpre. apply preprocessPostData_comments in Hpre as (-> & _ & _).
  rewrite sortByUps_stable.
  induction (Post.commentList post) as [|c rest IH]; [reflexivity|].
  cbn [filter]. destruct (nonBlank (Comment.body c)); cbn [andb map filter].
  - change (Comment.ups (cleanComment c)) with (Comment.ups c).
    destruct (Comment.ups c =? s)%Z; cbn [map]; rewrite IH; reflexivity.
  - exact IH.
Qed.

(** Idempotence. A post that preprocessPostData accepted and cleaned is
    accepted again and left as it is, provided that no comment has an
    author name made of white space only (such a name is trimmed to the
    empty string, which validation rejects). *)
Theorem preprocessPostData_idempotent (post cleaned : Post.t) :
  preprocessPostData post = Some cleaned ->
  Forall (fun c => nonBlank (Comment.author c) = true)
    (Post.commentList post) ->
  preprocessPostData cleaned = Some cleaned.
Proof.
  intros Hpre Hauthors.
  pose proof (preprocessPostData_comments post Hpre) as (Hlist & _ & _).
  unfold preprocessPostData in Hpre.
  destruct (validatePostData post) eqn:Hvalid; [|discriminate].
  injection Hpre as <-.
  cbn [Post.commentList] in Hlist.
  set (kept := sortByUps
                 (map cleanComment
                    (filter (fun c => negb (length (Comment.body c) =? 0)
                                      && nonBlank (Comment.body c))
                       (Post.commentList post)))) in *.
  assert (Hkept : Forall (fun c => exists d, c = cleanComment d /\
                            nonBlank (Comment.body d) = true /\
                            nonBlank (Comment.author d) = true) kept).
  { rewrite Hlist.
    apply (Permutation_Forall (Permutation_sym (sortByUps_perm _))).
    apply Forall_forall. intros c Hc.
    apply in_map_iff in Hc as (d & <- & Hd).
    apply filter_In in Hd as [Hin Hd].
    exists d. split; [reflexivity|]. split; [exact Hd|].
    rewrite Forall_forall in Hauthors. apply Hauthors. exact Hin. }
  assert (Hpass : filter (fun c => negb (length (Comment.body c) =? 0)
                                   && nonBlank (Comment.body c)) kept = kept).
  { apply PaginationFacts.filter_all_true.
    eapply Forall_impl; [|exact Hkept].
    intros c (d & -> & Hd & _). cbn [cleanComment Comment.body].
    rewrite Hd. pose proof (nonBlank_not_nil Hd) as Hne.
    destruct (Comment.body d); [congruence | reflexivity]. }
  assert (Hclean : map cleanComment kept = kept).
  { clear Hpass Hlist. clearbody kept.
    induction Hkept as [|c rest (d & -> & _) _ IH]; [reflexivity|].
    cbn [map]. rewrite cleanComment_idem, IH. reflexivity. }
  assert (Hsorted : sortByUps kept = kept).
  { apply sortByUps_fixed. apply sortByUps_sorted. }
  assert (Hvalid' : forallb (fun c => negb (length (Comment.author c) =? 0)
                                      && negb (length (Comment.body c) =? 0))
                      kept = true).
  { apply forallb_forall. intros c Hc.
    rewrite Forall_forall in Hkept.
    destruct (Hkept c Hc) as (d & -> & Hbody & Hauthor).
    cbn [cleanComment Comment.author Comment.body].
    rewrite nonBlank_hasInk in Hauthor.
    pose proof (trim_not_nil _ Hauthor) as Ha.
    pose proof (nonBlank_not_nil Hbody) as Hb.
    destruct (trim (Comment.author d)); [congruence|].
    destruct (Comment.body d); [congruence | reflexivity]. }
  unfold validatePostData in Hvalid.
  repeat (apply andb_true_iff in Hvalid as [Hvalid ?]).
  unfold preprocessPostData, validatePostData.
  cbn [Post.id Post.title Post.subreddit Post.created Post.ups Post.name
       Post.commentList Post.title_polish_zh Post.title_zh Post.selftext
       Post.selftext_zh Post.summary_zh orEmpty].
  fold kept.
  rewrite Hvalid'.
  repeat match goal with
         | H : _ = true |- _ => rewrite H
         end.
  cbn [andb]. rewrite Hpass, Hclean, Hsorted. reflexivity.
Qed.

End PreprocessFacts.
(* ===================================================================== *)
(** ** Properties of the text utilities *)
(* ===================================================================== *)

Module TextLayoutFacts.

Import JS TextUtils TextLayout JSFacts TextUtilsFacts TrimFacts.

(** *** Ink *)

Lemma ink_app (a b : string) : ink (a ++ b) = ink a ++ ink b.
Proof. apply filter_app. Qed.

Lemma ink_blank (s : string) : hasInk s = false -> ink s = [].
Proof.
  unfold hasInk, ink. induction s as [|c s IH]; [reflexivity|].
  cbn [existsb filter]. destruct (negb (isWhiteSpace c)); [discriminate|].
  exact IH.
Qed.

Lemma ink_trim (s : string) : ink (trim s) = ink s.
Proof.
  destruct (trim_infix s) as (before & after & Hs & Hbefore & Hafter).
  rewrite Hs at 2. rewrite !ink_app, (ink_blank _ Hbefore),
    (ink_blank _ Hafter), app_nil_r. reflexivity.
Qed.

Lemma ink_concat_filter (segs : list string) :
  ink (concat (filter nonBlank segs)) = ink (concat segs).
Proof.
  induction segs as [|seg segs IH]; [reflexivity|].
  cbn [filter concat]. rewrite ink_app. destruct (nonBlank seg) eqn:Hseg.
  - cbn [concat]. rewrite ink_app, IH. reflexivity.
  - rewrite nonBlank_hasInk in Hseg. rewrite (ink_blank _ Hseg), IH.
    reflexivity.
Qed.

(** *** truncateText *)

(** Truncation. For a limit of three code units or more, truncateText
    returns a text no longer than the limit: the text itself when it is
    within the limit, and otherwise its first [maxLength - 3] code units
    followed by the ellipsis; truncating twice is truncating once. *)
Theorem truncateText_bounded (text : string) (maxLength : Z) :
  (3 <= maxLength)%Z ->
  (Z.of_nat (length (truncateText text maxLength)) <= maxLength)%Z /\
  ((Z.of_nat (length text) <= maxLength)%Z ->
   truncateText text maxLength = text) /\
  ((maxLength < Z.of_nat (length text))%Z ->
   truncateText text maxLength
   = firstn (Z.to_nat (maxLength - 3)) text ++ ELLIPSIS) /\
  truncateText (truncateText text maxLength) maxLength
  = truncateText text maxLength.
Proof.
  intros Hmax.
  assert (Hcases : (Z.of_nat (length text) <= maxLength)%Z /\
                   truncateText text maxLength = text \/
                   (maxLength < Z.of_nat (length text))%Z /\
                   truncateText text maxLength
                   = firstn (Z.to_nat (maxLength - 3)) text ++ ELLIPSIS).
  { unfold truncateText.
    destruct (Z.leb_spec (Z.of_nat (length text)) maxLength) as [Hle | Hgt].
    - left. rewrite orb_true_r. split; [exact Hle | reflexivity].
    - right. split; [exact Hgt|].
      destruct (length text =? 0) eqn:Hlen.
      + apply Nat.eqb_eq in Hlen. lia.
      + cbn [orb]. unfold sliceTo.
        replace (maxLength - 3 <? 0)%Z with false
          by (symmetry; apply Z.ltb_ge; lia).
        reflexivity. }
  assert (Hlen : (Z.of_nat (length (truncateText text maxLength))
                  <= maxLength)%Z).
  { destruct Hcases as [[Hle ->] | [Hgt ->]]; [exact Hle|].
    rewrite length_app, length_firstn. cbn [ELLIPSIS length]. lia. }
  split; [exact Hlen|]. split; [|split].
  - intros Hle. destruct Hcases as [[_ Heq] | [Hgt _]]; [exact Heq | lia].
  - intros Hgt. destruct Hcases as [[Hle _] | [_ Heq]]; [lia | exact Heq].
  - unfold truncateText at 1.
    replace (Z.of_nat (length (truncateText text maxLength)) <=? maxLength)%Z
      with true by (symmetry; apply Z.leb_le; exact Hlen).
    rewrite orb_true_r. reflexivity.
Qed.

(** *** The tokenizer *)

(** The two shapes of an iteration of the loop of smartSplit: the
    character is appended to the open run, or the open run is closed; and
    a wide character then closes what precedes it in the run. *)
Lemma smartSplitStep_shape (st : LoopState) (c : char) :
  exists result1 kept,
    (result1 = result st /\ kept = current st \/
     result1 = pushIfNonBlank (result st) (current st) /\ kept = []) /\
    smartSplitStep st c
    = if CharType_eqb (classify c) chinese && (1 <? length (kept ++ [c]))
      then {| result := result1 ++ [kept]; current := [c];
              lastType := Some (classify c) |}
      else {| result := result1; current := kept ++ [c];
              lastType := Some (classify c) |}.
Proof.
  assert (Hkeep : exists result1 kept,
            (result1 = result st /\ kept = current st \/
             result1 = pushIfNonBlank (result st) (current st) /\ kept = []) /\
            match lastType st with
            | Some lt =>
                if negb (CharType_eqb lt (classify c)) then
                  if CharType_eqb lt english
                     && CharType_eqb (classify c) space then
                    (result st, current st ++ [c])
                  else if CharType_eqb lt space
                          && CharType_eqb (classify c) english then
                    (result st, current st ++ [c])
                  else if CharType_eqb (classify c) chinese then
                    (pushIfNonBlank (result st) (current st), [c])
                  else if CharType_eqb lt chinese then
                    (pushIfNonBlank (result st) (current st), [c])
                  else
                    (result st, current st ++ [c])
                else (result st, current st ++ [c])
            | None => (result st, current st ++ [c])
            end = (result1, kept ++ [c])).
  { destruct (lastType st) as [lt|].
    - destruct (negb (CharType_eqb lt (classify c)));
        [|eexists _, _; split; [left; split; reflexivity | reflexivity]].
      destruct (CharType_eqb lt english && CharType_eqb (classify c) space);
        [eexists _, _; split; [left; split; reflexivity | reflexivity]|].
      destruct (CharType_eqb lt space && CharType_eqb (classify c) english);
        [eexists _, _; split; [left; split; reflexivity | reflexivity]|].
      destruct (CharType_eqb (classify c) chinese);
        [eexists _, []; split; [right; split; reflexivity | reflexivity]|].
      destruct (CharType_eqb lt chinese);
        [eexists _, []; split; [right; split; reflexivity | reflexivity]|].
      eexists _, _; split; [left; split; reflexivity | reflexivity].
    - eexists _, _; split; [left; split; reflexivity | reflexivity]. }
  destruct Hkeep as (result1 & kept & Hcases & Heq).
  exists result1, kept. split; [exact Hcases|].
  unfold smartSplitStep. cbv zeta. unfold string in *. rewrite Heq.
  rewrite removelast_last. reflexivity.
Qed.

Lemma filter_pushIfNonBlank (res segs : list string) (cur : string) :
  filter nonBlank res = filter nonBlank segs ->
  filter nonBlank (pushIfNonBlank res cur) = filter nonBlank (segs ++ [cur]).
Proof.
  intros H. unfold pushIfNonBlank. rewrite (filter_app _ segs).
  cbn [filter]. destruct (nonBlank cur) eqn:Hcur.
  - rewrite filter_app. cbn [filter]. rewrite Hcur, H. reflexivity.
  - rewrite app_nil_r. exact H.
Qed.

Lemma smartSplitStep_partition (st : LoopState) (c : char)
  (segs : list string) :
  filter nonBlank (result st) = filter nonBlank segs ->
  exists segs',
    concat segs' ++ current (smartSplitStep st c)
    = concat segs ++ current st ++ [c] /\
    filter nonBlank (result (smartSplitStep st c)) = filter nonBlank segs'.
Proof.
  intros Hres.
  destruct (smartSplitStep_shape st c) as (result1 & kept & Hcases & ->).
  assert (Hsegs : exists segs1,
            concat segs1 ++ kept = concat segs ++ current st /\
            filter nonBlank result1 = filter nonBlank segs1).
  { destruct Hcases as [[-> ->] | [-> ->]].
    - exists segs. split; [reflexivity | exact Hres].
    - exists (segs ++ [current st]). split.
      + rewrite concat_app. cbn [concat]. rewrite !app_nil_r. reflexivity.
      + apply filter_pushIfNonBlank. exact Hres. }
  destruct Hsegs as (segs1 & Hcat & Hfilter).
  destruct (CharType_eqb (classify c) chinese && (1 <? length (kept ++ [c]))).
  - exists (segs1 ++ [kept]). cbn [result current]. split.
    + rewrite concat_app. cbn [concat]. rewrite app_nil_r, Hcat, <- app_assoc.
      reflexivity.
    + rewrite !filter_app, Hfilter. reflexivity.
  - exists segs1. cbn [result current]. split.
    + rewrite app_assoc, Hcat, <- app_assoc. reflexivity.
    + exact Hfilter.
Qed.

Lemma smartSplitLoop_partition (text : string) :
  forall (st : LoopState) (segs : list string),
  filter nonBlank (result st) = filter nonBlank segs ->
  exists segs',
    concat segs' ++ current (fold_left smartSplitStep text st)
    = concat segs ++ current st ++ text /\
    filter nonBlank (result (fold_left smartSplitStep text st))
    = filter nonBlank segs'.
Proof.
  induction text as [|c text IH]; intros st segs Hres.
  - exists segs. cbn [fold_left]. rewrite app_nil_r. split; [reflexivity|].
    exact Hres.
  - cbn [fold_left].
    destruct (smartSplitStep_partition st c segs Hres) as (segs1 & Hcat & H1).
    destruct (IH (smartSplitStep st c) segs1 H1) as (segs' & Hcat' & H').
    exists segs'. split; [|exact H'].
    rewrite Hcat', app_assoc, Hcat, <- !app_assoc. reflexivity.
Qed.

(** Tokens partition the text. The tokens of smartSplit are the
    non-blank pieces of a cut of the text into consecutive pieces: the
    tokenizer reorders, duplicates and alters nothing, and drops only
    pieces made of white space; so the tokens, concatenated, hold the
    code units of the text that are not white space, in order. *)
Theorem smartSplit_partition (text : string) :
  (exists pieces,
     concat pieces = text /\ smartSplit text = filter nonBlank pieces) /\
  ink (concat (smartSplit text)) = ink text.
Proof.
  assert (Hcut : exists pieces,
            concat pieces = text /\ smartSplit text = filter nonBlank pieces).
  { unfold smartSplit, smartSplitLoop.
    destruct (smartSplitLoop_partition text
                {| result := []; current := []; lastType := None |} []
                eq_refl) as (segs & Hcat & Hfilter).
    cbn [concat current app] in Hcat.
    exists (segs ++ [current (fold_left smartSplitStep text
                                {| result := []; current := [];
                                   lastType := None |})]).
    split.
    - rewrite concat_app. cbn [concat]. rewrite app_nil_r. exact Hcat.
    - cbv zeta. apply filter_pushIfNonBlank. exact Hfilter. }
  split; [exact Hcut|].
  destruct Hcut as (pieces & Hcat & ->).
  rewrite ink_concat_filter, Hcat. reflexivity.
Qed.

Lemma isEnglish_not_chinese (c : char) :
  isEnglish c = true -> isChinese c = false.
Proof.
  unfold isEnglish, isChinese. intros H.
  apply orb_true_iff in H as [H | H];
    apply andb_true_iff in H as [H1 H2];
    apply N.leb_le in H1, H2; apply andb_false_iff; left;
    apply N.leb_gt; lia.
Qed.

Lemma classify_latin (c : char) :
  isEnglish c || (c =? SPACE)%N = true ->
  classify c = english \/ classify c = space.
Proof.
  intros H. unfold classify. destruct (isEnglish c) eqn:He.
  - rewrite (isEnglish_not_chinese c He). left. reflexivity.
  - cbn [orb] in H. apply N.eqb_eq in H. subst c. right. reflexivity.
Qed.

Lemma smartSplitStep_latin (st : LoopState) (c : char) :
  isEnglish c || (c =? SPACE)%N = true ->
  result st = [] ->
  (lastType st = None \/ lastType st = Some english \/
   lastType st = Some space) ->
  result (smartSplitStep st c) = [] /\
  current (smartSplitStep st c) = current st ++ [c] /\
  (lastType (smartSplitStep st c) = Some english \/
   lastType (smartSplitStep st c) = Some space).
Proof.
  intros Hc Hres Hlast. unfold smartSplitStep.
  destruct (classify_latin c Hc) as [-> | ->];
    destruct Hlast as [-> | [-> | ->]]; cbn -[Nat.ltb];
    rewrite Hres; repeat split; auto.
Qed.

(** Latin runs. A text made of Latin letters and spaces only is one
    token, whatever its length: the tokenizer never breaks between two
    words of such a text, so line wrapping cannot break it either. *)
Theorem smartSplit_latin_run (text : string) :
  Forall (fun c => isEnglish c || (c =? SPACE)%N = true) text ->
  nonBlank text = true ->
  smartSplit text = [text].
Proof.
  intros Hlatin Hink.
  assert (Hloop : forall st,
            result st = [] ->
            (lastType st = None \/ lastType st = Some english \/
             lastType st = Some space) ->
            result (fold_left smartSplitStep text st) = [] /\
            current (fold_left smartSplitStep text st) = current st ++ text).
  { clear Hink.
    induction Hlatin as [|c text Hc Hrest IH]; intros st Hres Hlast.
    - cbn [fold_left]. rewrite app_nil_r. split; [exact Hres | reflexivity].
    - cbn [fold_left].
      destruct (smartSplitStep_latin st c Hc Hres Hlast) as (Hr & Hcur & Hl).
      destruct (IH (smartSplitStep st c) Hr (or_intror Hl)) as [Hr' Hcur'].
      split; [exact Hr'|]. rewrite Hcur', Hcur, <- app_assoc. reflexivity. }
  unfold smartSplit, smartSplitLoop.
  destruct (Hloop {| result := []; current := []; lastType := None |}
              eq_refl (or_introl eq_refl)) as [-> ->].
  cbn [current app]. unfold pushIfNonBlank. rewrite Hink.
  cbn [app filter]. rewrite Hink. reflexivity.
Qed.

(** *** cleanText *)

Lemma noRun_tail (isX : char -> bool) (c : char) (s : string) :
  noRun isX (c :: s) = true -> noRun isX s = true.
Proof.
  destruct s as [|d s]; [reflexivity|].
  cbn [noRun]. intros H. apply andb_true_iff in H as [_ H]. exact H.
Qed.

Lemma noRun_cons_out (isX : char -> bool) (c : char) (s : string) :
  isX c = false -> noRun isX (c :: s) = noRun isX s.
Proof.
  intros Hc. destruct s as [|d s]; [reflexivity|].
  cbn [noRun]. rewrite Hc. reflexivity.
Qed.

Lemma noRun_cons2 (isX : char -> bool) (c d : char) (s : string) :
  noRun isX (c :: d :: s) = negb (isX c && isX d) && noRun isX (d :: s).
Proof. reflexivity. Qed.

Lemma noRun_app (isX : char -> bool) (a b : string) :
  noRun isX (a ++ b) = true -> noRun isX a = true /\ noRun isX b = true.
Proof.
  induction a as [|c a IH]; intros H; [split; [reflexivity | exact H]|].
  pose proof (noRun_tail _ _ _ H) as Htail.
  destruct (IH Htail) as [Ha Hb]. split; [|exact Hb].
  destruct a as [|d a]; [reflexivity|].
  change ((c :: d :: a) ++ b) with (c :: d :: (a ++ b)) in H.
  rewrite noRun_cons2 in H |- *. apply andb_true_iff in H as [H _].
  rewrite H, Ha. reflexivity.
Qed.

Lemma noRun_weaken (isX isY : char -> bool) (s : string) :
  (forall c, isY c = true -> isX c = true) ->
  noRun isX s = true -> noRun isY s = true.
Proof.
  intros Hsub. induction s as [|c s IH]; [reflexivity|].
  intros H. pose proof (IH (noRun_tail _ _ _ H)) as Htail.
  destruct s as [|d s]; [reflexivity|].
  rewrite noRun_cons2 in H |- *. apply andb_true_iff in H as [H _].
  rewrite Htail, andb_true_r.
  destruct (isY c) eqn:Hc; [|reflexivity].
  destruct (isY d) eqn:Hd; [|reflexivity].
  rewrite (Hsub c Hc), (Hsub d Hd) in H. discriminate.
Qed.

(** The head of a squeezed text. *)
Lemma squeeze_head (isX : char -> bool) (r c : char) (s : string) :
  exists rest,
    squeeze isX r (c :: s) = (if isX c then r else c) :: rest.
Proof.
  revert c. induction s as [|d s IH]; intros c.
  - cbn [squeeze]. destruct (isX c); eexists; reflexivity.
  - cbn [squeeze] in *. destruct (isX c) eqn:Hc.
    + destruct (isX d) eqn:Hd.
      * destruct (IH d) as (rest & Hrest). rewrite Hd in Hrest.
        exists rest. exact Hrest.
      * eexists. reflexivity.
    + eexists. reflexivity.
Qed.

Lemma squeeze_noRun (isX : char -> bool) (r : char) (s : string) :
  isX r = true -> noRun isX (squeeze isX r s) = true.
Proof.
  intros Hr. induction s as [|c s IH]; [reflexivity|].
  cbn [squeeze]. destruct (isX c) eqn:Hc.
  - destruct s as [|d s]; [reflexivity|].
    destruct (isX d) eqn:Hd; [exact IH|].
    destruct (squeeze_head isX r d s) as (rest & Hrest).
    rewrite Hd in Hrest. rewrite Hrest in IH |- *.
    rewrite noRun_cons2, Hd, andb_false_r. cbn [negb andb].
    exact IH.
  - rewrite noRun_cons_out by exact Hc. exact IH.
Qed.

Lemma in_squeeze (isX : char -> bool) (r x : char) (s : string) :
  In x (squeeze isX r s) -> x = r \/ In x s /\ isX x = false.
Proof.
  induction s as [|c s IH]; [intros []|].
  cbn [squeeze]. destruct (isX c) eqn:Hc.
  - destruct s as [|d s].
    + intros [<- | []]. left. reflexivity.
    + destruct (isX d).
      * intros H. destruct (IH H) as [-> | [Hin Hx]];
          [left; reflexivity | right; split; [right; exact Hin | exact Hx]].
      * intros [<- | H]; [left; reflexivity|].
        destruct (IH H) as [-> | [Hin Hx]];
          [left; reflexivity | right; split; [right; exact Hin | exact Hx]].
  - intros [<- | H]; [right; split; [left; reflexivity | exact Hc]|].
    destruct (IH H) as [-> | [Hin Hx]];
      [left; reflexivity | right; split; [right; exact Hin | exact Hx]].
Qed.

(** Squeezing a class leaves the runs of a disjoint class apart. *)
Lemma squeeze_keeps_noRun (isX isY : char -> bool) (r : char) (s : string) :
  isY r = false ->
  (forall c, isX c = true -> isY c = false) ->
  noRun isY s = true -> noRun isY (squeeze isX r s) = true.
Proof.
  intros Hr Hdisjoint. induction s as [|c s IH]; [reflexivity|].
  intros H. pose proof (IH (noRun_tail _ _ _ H)) as Htail.
  cbn [squeeze]. destruct (isX c) eqn:Hc.
  - destruct s as [|d s]; [reflexivity|].
    destruct (isX d); [exact Htail|].
    rewrite noRun_cons_out by exact Hr. exact Htail.
  - destruct s as [|d s]; [reflexivity|].
    destruct (squeeze_head isX r d s) as (rest & Hrest).
    rewrite Hrest in Htail |- *.
    rewrite noRun_cons2 in H |- *. apply andb_true_iff in H as [H _].
    rewrite Htail, andb_true_r.
    destruct (isY c); [|reflexivity]. cbn [andb negb] in H |- *.
    destruct (isX d) eqn:Hd; [rewrite Hr; reflexivity | exact H].
Qed.

(** Squeezing changes nothing in a text without a run of the class
    whose members of the class are the replacement. *)
Lemma squeeze_fixed (isX : char -> bool) (r : char) (s : string) :
  noRun isX s = true ->
  (forall c, In c s -> isX c = true -> c = r) ->
  squeeze isX r s = s.
Proof.
  induction s as [|c s IH]; [reflexivity|].
  intros Hrun Hclass.
  assert (Hrest : squeeze isX r s = s).
  { apply IH; [exact (noRun_tail _ _ _ Hrun)|].
    intros x Hx. apply Hclass. right. exact Hx. }
  cbn [squeeze]. destruct (isX c) eqn:Hc.
  - rewrite (Hclass c (or_introl eq_refl) Hc).
    destruct s as [|d s]; [reflexivity|].
    rewrite noRun_cons2, Hc in Hrun.
    destruct (isX d); [discriminate|]. rewrite Hrest. reflexivity.
  - rewrite Hrest. reflexivity.
Qed.

Lemma replaceCRLF_cons2 (c d : char) (s : string) :
  replaceCRLF (c :: d :: s)
  = if (c =? CR)%N && (d =? LF)%N then LF :: replaceCRLF s
    else c :: replaceCRLF (d :: s).
Proof. reflexivity. Qed.

Lemma replaceCRLF_in (x : char) (s : string) :
  In x (replaceCRLF s) -> In x s.
Proof.
  revert x.
  assert (H : forall n s, length s <= n ->
              forall x, In x (replaceCRLF s) -> In x s).
  { clear s. induction n as [|n IH]; intros s Hn x.
    - destruct s; [intros [] | simpl in Hn; lia].
    - destruct s as [|c [|d s]]; [intros [] | intros Hx; exact Hx|].
      rewrite replaceCRLF_cons2. cbn [length] in Hn.
      destruct ((c =? CR)%N && (d =? LF)%N) eqn:Hcr.
      + apply andb_true_iff in Hcr as [_ Hd]. apply N.eqb_eq in Hd.
        intros [<- | Hx]; [right; left; exact Hd|].
        right. right. apply (IH s); [lia | exact Hx].
      + intros [<- | Hx]; [left; reflexivity|].
        right. apply (IH (d :: s)); [cbn [length]; lia | exact Hx]. }
  intros x. apply (H (length s)). apply le_n.
Qed.

Lemma replaceCRLF_fixed (s : string) : ~ In CR s -> replaceCRLF s = s.
Proof.
  assert (H : forall n s, length s <= n -> ~ In CR s -> replaceCRLF s = s).
  { clear s. induction n as [|n IH]; intros s Hn Hcr.
    - destruct s; [reflexivity | simpl in Hn; lia].
    - destruct s as [|c [|d s]]; [reflexivity | reflexivity|].
      rewrite replaceCRLF_cons2. cbn [length] in Hn.
      destruct (N.eqb_spec c CR) as [-> | Hc];
        [exfalso; apply Hcr; left; reflexivity|].
      cbn [andb]. rewrite (IH (d :: s)); [reflexivity | cbn [length]; lia|].
      intros Hin. apply Hcr. right. exact Hin. }
  apply (H (length s)). apply le_n.
Qed.

Lemma replaceCR_out (s : string) : ~ In CR (replaceCR s).
Proof.
  unfold replaceCR. intros H. apply in_map_iff in H as (c & Hc & _).
  destruct (c =? CR)%N eqn:E; [discriminate|].
  apply N.eqb_neq in E. congruence.
Qed.

Lemma replaceCR_fixed (s : string) : ~ In CR s -> replaceCR s = s.
Proof.
  unfold replaceCR. induction s as [|c s IH]; [reflexivity|].
  intros Hcr. cbn [map]. rewrite IH by (intros H; apply Hcr; right; exact H).
  destruct (c =? CR)%N eqn:E; [|reflexivity].
  apply N.eqb_eq in E. exfalso. apply Hcr. left. exact E.
Qed.

(** The text that the four replacements leave, before it is trimmed. *)
Lemma squeezed_normal (s : string) :
  let t := squeeze isBlank SPACE (squeeze (N.eqb LF) LF (replaceCR s)) in
  ~ In CR t /\ ~ In TAB t /\
  noRun (N.eqb LF) t = true /\ noRun isBlank t = true.
Proof.
  cbv zeta. split; [|split; [|split]].
  - intros H. apply in_squeeze in H as [H | [H _]]; [discriminate|].
    apply in_squeeze in H as [H | [H _]]; [discriminate|].
    exact (replaceCR_out s H).
  - intros H. apply in_squeeze in H as [H | [_ H]]; discriminate.
  - apply squeeze_keeps_noRun; [reflexivity | |apply squeeze_noRun;
                                                 apply N.eqb_refl].
    intros c Hc. unfold isBlank in Hc.
    apply orb_true_iff in Hc as [Hc | Hc]; apply N.eqb_eq in Hc; subst c;
      reflexivity.
  - apply squeeze_noRun. reflexivity.
Qed.

Lemma trim_normal (s : string) :
  ~ In CR s /\ ~ In TAB s /\
  noRun (N.eqb LF) s = true /\ noRun isBlank s = true ->
  ~ In CR (trim s) /\ ~ In TAB (trim s) /\
  noRun (N.eqb LF) (trim s) = true /\ noRun isBlank (trim s) = true.
Proof.
  intros (Hcr & Htab & Hlf & Hblank).
  destruct (trim_infix s) as (before & after & Hs & _).
  split; [intros H; apply Hcr, in_trim, H|].
  split; [intros H; apply Htab, in_trim, H|].
  rewrite Hs in Hlf, Hblank.
  apply noRun_app in Hlf as [_ Hlf]. apply noRun_app in Hlf as [Hlf _].
  apply noRun_app in Hblank as [_ Hblank].
  apply noRun_app in Hblank as [Hblank _].
  split; assumption.
Qed.

Lemma cleanText_normal (text : string) :
  ~ In CR (cleanText text) /\ ~ In TAB (cleanText text) /\
  noRun (N.eqb LF) (cleanText text) = true /\
  noRun isBlank (cleanText text) = true.
Proof.
  unfold cleanText. destruct (length text =? 0).
  - repeat split; intros [].
  - apply trim_normal. apply squeezed_normal.
Qed.

Lemma cleanText_shape (text : string) : cleaned (cleanText text).
Proof.
  destruct (cleanText_normal text) as (Hcr & Htab & Hlf & Hblank).
  unfold cleaned. split; [exact Hcr|]. split; [exact Htab|].
  split; [exact Hlf|]. split.
  - apply (@noRun_weaken isBlank); [|exact Hblank].
    intros c Hc. apply N.eqb_eq in Hc. subst c. reflexivity.
  - unfold cleanText. destruct (length text =? 0); [reflexivity|].
    apply trim_idem.
Qed.

Lemma cleanText_again (text : string) :
  cleanText (cleanText text) = cleanText text.
Proof.
  destruct (cleanText_normal text) as (Hcr & Htab & Hlf & Hblank).
  assert (Htrim : trim (cleanText text) = cleanText text).
  { unfold cleanText. destruct (length text =? 0); [reflexivity|].
    apply trim_idem. }
  unfold cleanText at 1.
  destruct (length (cleanText text) =? 0) eqn:Hlen.
  - apply Nat.eqb_eq, length_zero_iff_nil in Hlen. symmetry. exact Hlen.
  - rewrite (replaceCRLF_fixed _ Hcr), (replaceCR_fixed _ Hcr).
    rewrite (@squeeze_fixed (N.eqb LF) LF).
    + rewrite (@squeeze_fixed isBlank SPACE).
      * exact Htrim.
      * exact Hblank.
      * intros c Hin Hc. unfold isBlank in Hc.
        apply orb_true_iff in Hc as [Hc | Hc]; apply N.eqb_eq in Hc;
          [exact Hc|].
        subst c. contradiction.
    + exact Hlf.
    + intros c _ Hc. apply N.eqb_eq in Hc. symmetry. exact Hc.
Qed.


(** Cleaned text. Whatever the text, cleanText returns a text without
    carriage return and without tabulation, in which no two line feeds
    and no two spaces follow each other, and which neither starts nor
    ends with white space; cleaning it again changes nothing. *)
Theorem cleanText_cleans_once (text : string) :
  cleaned (cleanText text) /\ cleanText (cleanText text) = cleanText text.
Proof. split; [apply cleanText_shape | apply cleanText_again]. Qed.
(** *** wrapText *)

Section WrapFacts.

Variable overflows : string -> bool.

Lemma wrapLoop_count (m : nat) (words : list string) :
  forall (lines : list string) (currentLine : string),
  length lines < m ->
  length (fst (wrapLoop overflows (Some m) words lines currentLine)) <= m /\
  (below (Some m)
     (length (fst (wrapLoop overflows (Some m) words lines currentLine)))
   = true ->
   length (fst (wrapLoop overflows (Some m) words lines currentLine)) < m).
Proof.
  induction words as [|word rest IH]; intros lines currentLine Hlen.
  - cbn [wrapLoop fst]. split; [lia | intros _; exact Hlen].
  - cbn [wrapLoop].
    destruct (overflows (currentLine ++ word)
              && negb (length currentLine =? 0)); [|apply IH; exact Hlen].
    cbv zeta. unfold reached.
    destruct (m <=? length (lines ++ [trim currentLine])) eqn:Hfull.
    + apply Nat.leb_le in Hfull. rewrite length_app in Hfull.
      cbn [length] in Hfull. cbn [fst].
      rewrite removelast_last, length_app. cbn [length].
      split; [lia|]. unfold below. intros H. apply Nat.ltb_lt in H. lia.
    + apply Nat.leb_gt in Hfull. apply IH. exact Hfull.
Qed.

Lemma wrapLoop_lines (maxLines : option nat) (words : list string) :
  forall (lines : list string) (currentLine : string),
  Forall (fun word => nonBlank word = true) words ->
  Forall (fun line => line <> []) lines ->
  (currentLine = [] \/ hasInk currentLine = true) ->
  match wrapLoop overflows maxLines words lines currentLine with
  | (lines', currentLine') =>
      Forall (fun line => line <> []) lines' /\
      (currentLine' = [] \/ hasInk currentLine' = true)
  end.
Proof.
  induction words as [|word rest IH];
    intros lines currentLine Hwords Hlines Hcur.
  - cbn [wrapLoop]. split; assumption.
  - inversion Hwords as [|? ? Hword Hrest]; subst.
    rewrite nonBlank_hasInk in Hword.
    cbn [wrapLoop].
    destruct (overflows (currentLine ++ word)
              && negb (length currentLine =? 0)) eqn:Hover.
    + apply andb_true_iff in Hover as [_ Hne].
      assert (Hink : hasInk currentLine = true).
      { destruct Hcur as [-> | H]; [discriminate | exact H]. }
      assert (Hpushed : Forall (fun line => line <> [])
                          (lines ++ [trim currentLine])).
      { apply Forall_app. split; [exact Hlines|].
        constructor; [apply trim_not_nil; exact Hink | constructor]. }
      cbv zeta.
      match goal with
      | |- context [if ?full then _ else _] => destruct full
      end.
      * cbv beta iota. split; [|right; exact Hink].
        rewrite removelast_last. apply Forall_app. split; [exact Hlines|].
        constructor; [|constructor].
        intros H. apply app_eq_nil in H as [_ H]. discriminate.
      * apply IH; [exact Hrest | exact Hpushed | right; exact Hword].
    + apply IH; [exact Hrest | exact Hlines|].
      right. rewrite hasInk_app, Hword. apply orb_true_r.
Qed.

Lemma wrapLoop_ink (words : list string) :
  forall (lines : list string) (currentLine : string),
  ink (concat (fst (wrapLoop overflows None words lines currentLine)))
  ++ ink (snd (wrapLoop overflows None words lines currentLine))
  = ink (concat lines) ++ ink currentLine ++ ink (concat words).
Proof.
  induction words as [|word rest IH]; intros lines currentLine.
  - cbn [wrapLoop fst snd concat ink filter]. rewrite app_nil_r. reflexivity.
  - cbn [wrapLoop].
    destruct (overflows (currentLine ++ word)
              && negb (length currentLine =? 0)).
    + cbv zeta. cbn [reached]. rewrite IH.
      rewrite concat_app. cbn [concat]. rewrite app_nil_r.
      rewrite !ink_app, ink_trim, <- !app_assoc. reflexivity.
    + rewrite IH. cbn [concat]. rewrite !ink_app, <- !app_assoc. reflexivity.
Qed.

Lemma smartSplit_nonBlank (text : string) :
  Forall (fun word => nonBlank word = true) (smartSplit text).
Proof.
  unfold smartSplit. apply Forall_forall. intros word Hword.
  apply filter_In in Hword. apply Hword.
Qed.

(** Wrapped lines. With a limit of at least one line, wrapText returns
    at most that many lines; and, with or without a limit, it never
    returns an empty line. *)
Theorem wrapText_lines (maxLines : option nat) (text : string) :
  (forall m, maxLines = Some m -> 1 <= m) ->
  (forall m, maxLines = Some m ->
     length (wrapText overflows maxLines text) <= m) /\
  Forall (fun line => line <> []) (wrapText overflows maxLines text).
Proof.
  intros Hmax. split.
  - intros m ->. specialize (Hmax m eq_refl). unfold wrapText.
    destruct ((length text =? 0) || negb (nonBlank text)); [simpl; lia|].
    destruct (@wrapLoop_count m (smartSplit text) [] [] Hmax) as [Hle Hlt].
    destruct (wrapLoop overflows (Some m) (smartSplit text) [] [])
      as [lines currentLine].
    cbn [fst] in Hle, Hlt.
    destruct (nonBlank currentLine && below (Some m) (length lines)) eqn:Hpush;
      [|exact Hle].
    apply andb_true_iff in Hpush as [_ Hbelow].
    rewrite length_app. cbn [length]. specialize (Hlt Hbelow). lia.
  - unfold wrapText.
    destruct ((length text =? 0) || negb (nonBlank text)); [constructor|].
    pose proof (@wrapLoop_lines maxLines (smartSplit text) [] []
                  (smartSplit_nonBlank text) (Forall_nil _)
                  (or_introl eq_refl)) as Hlines.
    destruct (wrapLoop overflows maxLines (smartSplit text) [] [])
      as [lines currentLine].
    destruct Hlines as [Hlines _].
    destruct (nonBlank currentLine && below maxLines (length lines)) eqn:Hpush;
      [|exact Hlines].
    apply andb_true_iff in Hpush as [Hink _].
    rewrite nonBlank_hasInk in Hink.
    apply Forall_app. split; [exact Hlines|].
    constructor; [apply trim_not_nil; exact Hink | constructor].
Qed.

(** Wrapping keeps the ink. Without a limit on the number of lines, the
    lines of wrapText hold, in order, exactly the code units of the text
    that are not white space, whatever the widths that the canvas
    measures: wrapping drops and adds only white space. *)
Theorem wrapText_keeps_ink (text : string) :
  ink (concat (wrapText overflows None text)) = ink text.
Proof.
  unfold wrapText.
  destruct ((length text =? 0) || negb (nonBlank text)) eqn:Hblank.
  - cbn [concat ink filter]. symmetry. apply ink_blank.
    apply orb_true_iff in Hblank as [Hlen | Hnb].
    + apply Nat.eqb_eq, length_zero_iff_nil in Hlen. subst. reflexivity.
    + rewrite <- nonBlank_hasInk. apply negb_true_iff. exact Hnb.
  - pose proof (wrapLoop_ink (smartSplit text) [] []) as Hink.
    destruct (smartSplit_partition text) as [_ Htokens].
    rewrite Htokens in Hink. cbn [concat ink filter app] in Hink.
    fold (ink text) in Hink.
    destruct (wrapLoop overflows None (smartSplit text) [] [])
      as [lines currentLine].
    cbn [fst snd] in Hink. cbn [below]. rewrite andb_true_r.
    destruct (nonBlank currentLine) eqn:Hcur.
    + rewrite concat_app. cbn [concat]. rewrite app_nil_r, ink_app, ink_trim.
      exact Hink.
    + rewrite nonBlank_hasInk in Hcur. rewrite (ink_blank _ Hcur) in Hink.
      rewrite app_nil_r in Hink. exact Hink.
Qed.

End WrapFacts.

End TextLayoutFacts.
(* ===================================================================== *)
(** ** Properties of the character-count paginator *)
(* ===================================================================== *)

Module LegacyPaginationFacts.

Import JS LegacyPagination.

Lemma firstn_more {A} (a b : nat) (l : list A) :
  firstn a l ++ firstn b (skipn a l) = firstn (a + b) l.
Proof.
  revert l. induction a as [|a IH]; intros l; [reflexivity|].
  destruct l as [|x l]; [simpl; rewrite firstn_nil; reflexivity|].
  cbn [firstn skipn plus app]. rewrite IH. reflexivity.
Qed.

(** The comments of a prefix of the pages are a prefix of the comments
    of the pages. *)
Lemma flat_map_firstn {A B} (f : A -> list B) (n : nat) (l : list A) :
  exists k, flat_map f (firstn n l) = firstn k (flat_map f l).
Proof.
  revert l. induction n as [|n IH]; intros l; [exists 0; reflexivity|].
  destruct l as [|x l]; [exists 0; reflexivity|].
  destruct (IH l) as (k & Hk). exists (length (f x) + k).
  cbn [firstn flat_map]. rewrite Hk, firstn_app.
  rewrite (@firstn_all2 _ (length (f x) + k) (f x)) by lia.
  replace (length (f x) + k - length (f x)) with k by lia.
  reflexivity.
Qed.

Section Loops.

Variable post : Post.t.
Variable opts : Options.

(** The pages that the grouping loop appends: comments pages that carry
    consecutive groups of the comments from [i] on, each of at most
    [maxCommentsPerPage] comments. *)
Lemma groupLoop_spec (shown : list Comment.t) (fuel : nat) :
  forall i rest,
  1 <= fuel -> maxPages opts - S (length rest) <= fuel ->
  exists new k,
    groupLoop post opts shown fuel i rest = Some (rest ++ new) /\
    Forall (fun p => LegacyPage.type p = comments /\
                     length (shownOn p) <= maxCommentsPerPage opts) new /\
    flat_map shownOn new = firstn k (skipn i shown).
Proof.
  induction fuel as [|fuel IH]; intros i rest Hone Hfuel; [lia|].
  cbn [groupLoop]. destruct (i <? length shown) eqn:Hi.
  - cbv zeta. rewrite length_app. cbn [length].
    set (page := commentsPage post opts
                   (firstn (maxCommentsPerPage opts) (skipn i shown)) i).
    assert (Hpage : LegacyPage.type page = comments /\
                    length (shownOn page) <= maxCommentsPerPage opts).
    { split; [reflexivity|]. unfold page, commentsPage, shownOn.
      cbn [LegacyPage.comments]. rewrite length_firstn. lia. }
    destruct (maxPages opts <=? S (length rest + 1)) eqn:Hfull.
    + exists [page], (maxCommentsPerPage opts).
      split; [reflexivity|]. split; [constructor; [exact Hpage | constructor]|].
      cbn [flat_map]. rewrite app_nil_r. reflexivity.
    + apply Nat.leb_gt in Hfull.
      destruct (IH (i + maxCommentsPerPage opts) (rest ++ [page]))
        as (new & k & Hrun & Hall & Hflat).
      * lia.
      * rewrite length_app. cbn [length]. lia.
      * exists (page :: new), (maxCommentsPerPage opts + k).
        split; [rewrite Hrun, <- app_assoc; reflexivity|].
        split; [constructor; assumption|].
        cbn [flat_map]. rewrite Hflat.
        replace (i + maxCommentsPerPage opts)
          with (maxCommentsPerPage opts + i) by lia.
        rewrite <- skipn_skipn. apply firstn_more.
  - exists [], 0. rewrite app_nil_r. split; [reflexivity|].
    split; [constructor | reflexivity].
Qed.

(** The pages that the loop for the minimum page count makes of the
    first page: the first page, cut or not, and the pages cut off it,
    which together carry its content; a cut is made only while the pages
    are fewer than [maxPages]. *)
Lemma ensureLoop_spec (fuel : nat) :
  forall first rest,
  minPages opts - S (length rest) <= fuel ->
  exists first' cut,
    ensureLoop opts fuel first rest = Some (first' :: cut ++ rest) /\
    (LegacyPage.type first' = LegacyPage.type first /\
     LegacyPage.title first' = LegacyPage.title first) /\
    LegacyPage.comments first' = LegacyPage.comments first /\
    Forall (fun p => LegacyPage.type p = main_continued /\
                     LegacyPage.comments p = None) cut /\
    orEmpty (LegacyPage.content first')
    ++ concat (map (fun p => orEmpty (LegacyPage.content p)) cut)
    = orEmpty (LegacyPage.content first) /\
    orEmpty (LegacyPage.content_zh first')
    ++ concat (map (fun p => orEmpty (LegacyPage.content_zh p)) cut)
    = orEmpty (LegacyPage.content_zh first) /\
    (cut = [] \/ S (length (cut ++ rest)) <= maxPages opts).
Proof.
  induction fuel as [|fuel IH]; intros first rest Hfuel.
  - exists first, []. cbn [ensureLoop].
    replace (S (length rest) <? minPages opts) with false
      by (symmetry; apply Nat.ltb_ge; lia).
    cbn [andb app map concat]. rewrite !app_nil_r.
    repeat split; try reflexivity; try (left; reflexivity); constructor.
  - cbn [ensureLoop].
    destruct ((S (length rest) <? minPages opts)
              && (S (length rest) <? maxPages opts)) eqn:Hmore.
    + apply andb_true_iff in Hmore as [Hmin Hmax].
      apply Nat.ltb_lt in Hmin, Hmax.
      destruct (truthy (LegacyPage.content first)
                && (maxContentPerPage opts
                    <? length (orEmpty (LegacyPage.content first))))
        eqn:Hlong.
      * set (text := orEmpty (LegacyPage.content first)) in *.
        destruct (IH (firstHalf first text) (secondHalf first text :: rest))
          as (first' & cut & Hrun & Hty & Hcs & Hcut & Hen & Hzh & Hroom).
        { cbn [length]. lia. }
        exists first', (cut ++ [secondHalf first text]).
        split; [rewrite Hrun, <- app_assoc; reflexivity|].
        split; [exact Hty|]. split; [exact Hcs|].
        split; [apply Forall_app; split;
                  [exact Hcut | constructor; [split; reflexivity
                                             | constructor]]|].
        rewrite !map_app, !concat_app. cbn [map concat].
        rewrite !app_nil_r, !app_assoc, Hen, Hzh.
        cbn [firstHalf secondHalf LegacyPage.content LegacyPage.content_zh
             orEmpty].
        split; [apply firstn_skipn|]. split.
        -- destruct (truthy (LegacyPage.content_zh first)) eqn:Hzht.
           ++ apply firstn_skipn.
           ++ destruct (LegacyPage.content_zh first) as [[|c s]|];
                [reflexivity | discriminate | reflexivity].
        -- right. rewrite <- app_assoc. cbn [app].
           destruct Hroom as [-> | Hroom]; [cbn [app length]; lia|].
           exact Hroom.
      * exists first, []. cbn [app map concat]. rewrite !app_nil_r.
        repeat split; try reflexivity; try (left; reflexivity); constructor.
    + exists first, []. cbn [app map concat]. rewrite !app_nil_r.
      repeat split; try reflexivity; try (left; reflexivity); constructor.
Qed.

End Loops.

(** What paginateContent returns, before the last cut to [maxPages]
    pages: the pages of the body, which carry its two texts, then the
    comments pages, which carry a prefix of the selected comments. *)
Lemma paginateContent_spec (post : Post.t) (opts : Options) :
  exists body groups k,
    paginateContent post opts
    = Some (firstn (maxPages opts) (body ++ groups)) /\
    (exists first cut,
       body = first :: cut /\
       (LegacyPage.type first = main /\
        LegacyPage.title first = Some (Post.title post)) /\
       Forall (fun p => LegacyPage.type p = main_continued) cut) /\
    Forall (fun p => LegacyPage.comments p = None) body /\
    (length body = 1 \/ length body <= maxPages opts) /\
    concat (map (fun p => orEmpty (LegacyPage.content p)) body)
    = orEmpty (Post.selftext post) /\
    concat (map (fun p => orEmpty (LegacyPage.content_zh p)) body)
    = orEmpty (Post.selftext_zh post) /\
    Forall (fun p => LegacyPage.type p = comments /\
                     length (shownOn p) <= maxCommentsPerPage opts) groups /\
    flat_map shownOn groups = firstn k (selected post).
Proof.
  assert (Hgroups : exists groups k,
            (if 0 <? length (Post.commentList post) then
               groupLoop post opts (selected post) (S (maxPages opts)) 0 []
             else Some []) = Some groups /\
            Forall (fun p => LegacyPage.type p = comments /\
                             length (shownOn p) <= maxCommentsPerPage opts)
              groups /\
            flat_map shownOn groups = firstn k (selected post)).
  { destruct (0 <? length (Post.commentList post)).
    - destruct (@groupLoop_spec post opts (selected post) (S (maxPages opts))
                  0 [] ltac:(lia) ltac:(simpl; lia))
        as (new & k & Hrun & Hall & Hflat).
      exists new, k. split; [exact Hrun|]. split; [exact Hall | exact Hflat].
    - exists [], 0. split; [reflexivity|]. split; [constructor | reflexivity]. }
  destruct Hgroups as (groups & k & Hrun & Hall & Hflat).
  destruct (@ensureLoop_spec opts (minPages opts) (firstPage post) groups
              ltac:(lia))
    as (first & cut & Hensure & Hty & Hcs & Hcut & Hen & Hzh & Hroom).
  exists (first :: cut), groups, k.
  unfold paginateContent. rewrite Hrun, Hensure.
  split; [reflexivity|]. split.
  - exists first, cut. split; [reflexivity|]. split; [exact Hty|].
    eapply Forall_impl; [|exact Hcut]. intros p [Hp _]. exact Hp.
  - split.
    + constructor; [exact Hcs|].
      eapply Forall_impl; [|exact Hcut]. intros p [_ Hp]. exact Hp.
    + split.
      * destruct Hroom as [-> | Hroom]; [left; reflexivity | right].
        rewrite length_app in Hroom. cbn [length]. lia.
      * cbn [map concat]. split; [exact Hen|]. split; [exact Hzh|].
        split; [exact Hall | exact Hflat].
Qed.

Lemma filter_isBody (post : Post.t) (body groups : list LegacyPage.t) :
  (exists first cut,
     body = first :: cut /\
     (LegacyPage.type first = main /\
      LegacyPage.title first = Some (Post.title post)) /\
     Forall (fun p => LegacyPage.type p = main_continued) cut) ->
  Forall (fun p => LegacyPage.type p = comments) groups ->
  filter isBody (body ++ groups) = body.
Proof.
  intros (first & cut & -> & [Hfirst _] & Hcut) Hgroups.
  rewrite filter_app.
  rewrite (@PaginationFacts.filter_none _ isBody groups).
  - rewrite app_nil_r. apply PaginationFacts.filter_all_true.
    constructor; [unfold isBody; rewrite Hfirst; reflexivity|].
    eapply Forall_impl; [|exact Hcut].
    intros p Hp. unfold isBody. rewrite Hp. reflexivity.
  - eapply Forall_impl; [|exact Hgroups].
    intros p Hp. unfold isBody. rewrite Hp. reflexivity.
Qed.

(** Page bound. For a page limit of at least one, paginateContent
    returns between one and [maxPages] pages; the first is the Main page
    of the post, the pages cut off it follow as MainContinued pages, and
    the comments pages come last. *)
Theorem paginateContent_pages (post : Post.t) (opts : Options) :
  1 <= maxPages opts ->
  exists first cut groups,
    paginateContent post opts = Some (first :: cut ++ groups) /\
    1 <= length (first :: cut ++ groups) <= maxPages opts /\
    LegacyPage.type first = main /\
    LegacyPage.title first = Some (Post.title post) /\
    Forall (fun p => LegacyPage.type p = main_continued) cut /\
    Forall (fun p => LegacyPage.type p = comments) groups.
Proof.
  intros Hmax.
  destruct (paginateContent_spec post opts)
    as (body & groups & k & Hrun
        & (first & cut & -> & [Hfirst Htitle] & Hcut)
        & _ & Hroom & _ & _ & Hgroups & _).
  assert (Hbody : length (first :: cut) <= maxPages opts).
  { destruct Hroom as [Hone | Hle]; [rewrite Hone; exact Hmax | exact Hle]. }
  rewrite firstn_app in Hrun.
  rewrite (@firstn_all2 _ (maxPages opts) (first :: cut)) in Hrun
    by exact Hbody.
  exists first, cut, (firstn (maxPages opts - length (first :: cut)) groups).
  split; [exact Hrun|]. split; [|split; [exact Hfirst|split; [|split]]].
  - cbn [length]. rewrite length_app, length_firstn. cbn [length] in Hbody.
    lia.
  - exact Htitle.
  - exact Hcut.
  - apply PaginationFacts.Forall_firstn.
    eapply Forall_impl; [|exact Hgroups]. intros p [Hp _]. exact Hp.
Qed.

Lemma flat_map_bounded {A B} (f : A -> list B) (m : nat) (l : list A) :
  Forall (fun x => length (f x) <= m) l ->
  length (flat_map f l) <= m * length l.
Proof.
  induction 1 as [|x l Hx Hl IH]; [simpl; lia|].
  cbn [flat_map length]. rewrite length_app. lia.
Qed.

Lemma flat_map_none {A B} (f : A -> list B) (l : list A) :
  Forall (fun x => f x = []) l -> flat_map f l = [].
Proof.
  induction 1 as [|x l Hx Hl IH]; [reflexivity|].
  cbn [flat_map]. rewrite Hx, IH. reflexivity.
Qed.

(** Comments shown. Whatever the options, the comments on the pages of
    paginateContent are, in order, the first ones of the selection (the
    comments with a non-blank body, by descending score, twelve at most);
    no page carries more than [maxCommentsPerPage] of them, and the
    pages together carry at most [maxCommentsPerPage * (maxPages - 1)]:
    nine with the default options, so that the last three of twelve
    selected comments are never shown. *)
Theorem paginateContent_comments (post : Post.t) (opts : Options) :
  exists pages k,
    paginateContent post opts = Some pages /\
    flat_map shownOn pages = firstn k (selected post) /\
    Forall (fun p => length (shownOn p) <= maxCommentsPerPage opts) pages /\
    length (flat_map shownOn pages)
    <= Nat.min 12 (maxCommentsPerPage opts * (maxPages opts - 1)).
Proof.
  destruct (paginateContent_spec post opts)
    as (body & groups & k & Hrun & (first & cut & -> & _ & _)
        & Hnone & _ & _ & _ & Hgroups & Hflat).
  assert (Hbody : Forall (fun p => shownOn p = []) (first :: cut)).
  { eapply Forall_impl; [|exact Hnone].
    intros p Hp. unfold shownOn. rewrite Hp. reflexivity. }
  assert (Hcap : Forall (fun p => length (shownOn p)
                                  <= maxCommentsPerPage opts)
                   ((first :: cut) ++ groups)).
  { apply Forall_app. split.
    - eapply Forall_impl; [|exact Hbody]. intros p Hp. rewrite Hp. simpl. lia.
    - eapply Forall_impl; [|exact Hgroups]. intros p [_ Hp]. exact Hp. }
  assert (Hall : flat_map shownOn ((first :: cut) ++ groups)
                 = firstn k (selected post)).
  { rewrite flat_map_app, (flat_map_none _ Hbody). exact Hflat. }
  destruct (flat_map_firstn shownOn (maxPages opts) ((first :: cut) ++ groups))
    as (k' & Hk').
  exists (firstn (maxPages opts) ((first :: cut) ++ groups)), (Nat.min k' k).
  split; [exact Hrun|]. split; [|split].
  - rewrite Hk', Hall. apply firstn_firstn.
  - apply PaginationFacts.Forall_firstn. exact Hcap.
  - apply Nat.min_glb.
    + rewrite Hk', Hall, firstn_firstn. unfold selected.
      rewrite !length_firstn. lia.
    + destruct (maxPages opts) as [|n]; [simpl; lia|].
      cbn [app firstn flat_map]. inversion Hbody as [|? ? Hfirst _]; subst.
      rewrite Hfirst. cbn [app].
      replace (S n - 1) with n by lia.
      etransitivity.
      * apply flat_map_bounded with (m := maxCommentsPerPage opts).
        apply PaginationFacts.Forall_firstn.
        inversion Hcap; subst. assumption.
      * rewrite length_firstn. nia.
Qed.

(** The forced cut keeps the body. For a page limit of at least one, the
    contents of the Main and MainContinued pages of paginateContent,
    concatenated in order, are the body of the post, for each of its two
    texts: the cut that makes up the minimum page count loses, repeats
    and moves no code unit. *)
Theorem paginateContent_content (post : Post.t) (opts : Options) :
  1 <= maxPages opts ->
  exists pages,
    paginateContent post opts = Some pages /\
    concat (map (fun p => orEmpty (LegacyPage.content p))
              (filter isBody pages))
    = orEmpty (Post.selftext post) /\
    concat (map (fun p => orEmpty (LegacyPage.content_zh p))
              (filter isBody pages))
    = orEmpty (Post.selftext_zh post).
Proof.
  intros Hmax.
  destruct (paginateContent_spec post opts)
    as (body & groups & k & Hrun & Hshape & _ & Hroom & Hen & Hzh
        & Hgroups & _).
  assert (Hbody : length body <= maxPages opts).
  { destruct Hroom as [Hone | Hle]; [rewrite Hone; exact Hmax | exact Hle]. }
  rewrite firstn_app in Hrun.
  rewrite (@firstn_all2 _ (maxPages opts) body) in Hrun by exact Hbody.
  eexists. split; [exact Hrun|].
  rewrite (@filter_isBody post body).
  - split; [exact Hen | exact Hzh].
  - exact Hshape.
  - apply PaginationFacts.Forall_firstn.
    eapply Forall_impl; [|exact Hgroups]. intros p [Hp _]. exact Hp.
Qed.

End LegacyPaginationFacts.
(* ===================================================================== *)
(** ** Properties of the retry *)
(* ===================================================================== *)

Module ErrorHandlerFacts.

Import Async ErrorHandler.

Lemma backoff_closed (delay : Z) (waits : nat) :
  forall attempt,
  (2 * backoff delay attempt waits
   = delay * Z.of_nat waits * (2 * Z.of_nat attempt + Z.of_nat waits - 1))%Z.
Proof.
  induction waits as [|waits IH]; intros attempt; [cbn [backoff]; lia|].
  cbn [backoff]. rewrite Z.mul_add_distr_l, IH. lia.
Qed.

Lemma clock_pair (ms : Z) (calls : nat) (slept : Z) :
  clock ms (calls, slept) = (calls, (slept + ms)%Z).
Proof. reflexivity. Qed.

Section Scripted.

Context {A : Type}.
Variable script : nat -> option A.
Variable maxRetries : nat.
Variable delay : Z.

Lemma retryLoop_success (remaining : nat) :
  forall attempt calls slept k a,
  attempt + remaining = maxRetries + 1 ->
  k < remaining ->
  (forall j, j < k -> script (calls + j) = None) ->
  script (calls + k) = Some a ->
  retryLoop clock (scripted script) maxRetries delay remaining attempt
    (calls, slept)
  = (Ok a, (calls + k + 1, (slept + backoff delay attempt k)%Z)).
Proof.
  induction remaining as [|remaining IH];
    intros attempt calls slept k a Hsum Hk Hfail Hok; [lia|].
  cbn [retryLoop]. unfold try_catch, scripted at 1. cbn [fst snd].
  destruct k as [|k].
  - rewrite Nat.add_0_r in Hok. rewrite Hok. cbn [backoff].
    rewrite Nat.add_0_r, Z.add_0_r, Nat.add_1_r. reflexivity.
  - pose proof (Hfail 0 ltac:(lia)) as Hfirst.
    rewrite Nat.add_0_r in Hfirst. rewrite Hfirst.
    replace (attempt =? maxRetries) with false
      by (symmetry; apply Nat.eqb_neq; lia).
    rewrite clock_pair.
    rewrite (IH (S attempt) (S calls) (slept + delay * Z.of_nat attempt)%Z
               k a).
    + cbn [backoff]. f_equal. f_equal; [lia|]. lia.
    + lia.
    + lia.
    + intros j Hj. replace (S calls + j) with (calls + S j) by lia.
      apply Hfail. lia.
    + replace (S calls + k) with (calls + S k) by lia. exact Hok.
Qed.

Lemma retryLoop_exhausted (remaining : nat) :
  forall attempt calls slept,
  attempt + remaining = maxRetries + 1 ->
  (forall j, j < remaining -> script (calls + j) = None) ->
  retryLoop clock (scripted script) maxRetries delay remaining attempt
    (calls, slept)
  = (Throw, (calls + remaining,
             (slept + backoff delay attempt (remaining - 1))%Z)).
Proof.
  induction remaining as [|remaining IH];
    intros attempt calls slept Hsum Hfail.
  - cbn [retryLoop backoff Nat.sub]. unfold throw.
    rewrite Nat.add_0_r, Z.add_0_r. reflexivity.
  - cbn [retryLoop]. unfold try_catch, scripted at 1. cbn [fst snd].
    pose proof (Hfail 0 ltac:(lia)) as Hfirst.
    rewrite Nat.add_0_r in Hfirst. rewrite Hfirst.
    destruct (Nat.eqb_spec attempt maxRetries) as [Hlast | Hmore].
    + assert (remaining = 0) by lia. subst remaining.
      unfold throw. cbn [backoff Nat.sub].
      rewrite Z.add_0_r, Nat.add_1_r. reflexivity.
    + rewrite clock_pair.
      rewrite (IH (S attempt) (S calls)
                 (slept + delay * Z.of_nat attempt)%Z).
      * destruct remaining as [|remaining]; [lia|].
        cbn [backoff Nat.sub]. rewrite Nat.sub_0_r.
        f_equal. f_equal; [lia|]. lia.
      * lia.
      * intros j Hj. replace (S calls + j) with (calls + S j) by lia.
        apply Hfail. lia.
Qed.

(** Retry until the first success. When the first [k] invocations of
    the operation throw and the next one, within [maxRetries], returns,
    retryOperation returns what that invocation returned, after exactly
    [k + 1] invocations and after waiting [delay], [2 * delay], ...,
    [k * delay] milliseconds between them. *)
Theorem retryOperation_first_success (k : nat) (a : A) :
  k < maxRetries ->
  (forall j, j < k -> script j = None) ->
  script k = Some a ->
  exists slept,
    retryOperation clock (scripted script) maxRetries delay (0, 0%Z)
    = (Ok a, (S k, slept)) /\
    (2 * slept = delay * Z.of_nat k * (Z.of_nat k + 1))%Z.
Proof.
  intros Hk Hfail Hok. exists (backoff delay 1 k). split.
  - unfold retryOperation.
    rewrite (@retryLoop_success maxRetries 1 0 0%Z k a); try assumption;
      [|lia].
    cbn [plus]. rewrite Nat.add_1_r. reflexivity.
  - rewrite backoff_closed. lia.
Qed.

(** Retry exhausted. When the first [maxRetries] invocations of the
    operation all throw, retryOperation throws after exactly
    [maxRetries] invocations, without waiting after the last one; with
    no attempt allowed it throws without invoking the operation. *)
Theorem retryOperation_exhausted :
  (forall j, j < maxRetries -> script j = None) ->
  exists slept,
    retryOperation clock (scripted script) maxRetries delay (0, 0%Z)
    = (Throw, (maxRetries, slept)) /\
    (2 * slept
     = delay * Z.of_nat (maxRetries - 1) * Z.of_nat maxRetries)%Z.
Proof.
  intros Hfail. exists (backoff delay 1 (maxRetries - 1)). split.
  - unfold retryOperation.
    rewrite (@retryLoop_exhausted maxRetries 1 0 0%Z); [reflexivity | lia|].
    exact Hfail.
  - rewrite backoff_closed. lia.
Qed.

End Scripted.

End ErrorHandlerFacts.

(* ===================================================================== *)
(** ** Properties of the batches *)
(* ===================================================================== *)

Module BatchFacts.

Import JS Async AsyncFacts Batch.

Lemma fold_left_sum {A} (f : A -> nat) (l : list A) (start : nat) :
  fold_left (fun sum x => sum + f x) l start = start + list_sum (map f l).
Proof.
  revert start. induction l as [|x l IH]; intros start; [simpl; lia|].
  cbn [fold_left map list_sum fold_right]. rewrite IH.
  change (fold_right plus 0 (map f l)) with (list_sum (map f l)). lia.
Qed.

Section Generate.

Context {World Cards : Type}.
Variable generatePostCards : Post.t -> World -> option Cards * World.
Variable imageCount : Cards -> nat.

Lemma batchLoop_returns (posts : list Post.t) :
  forall results errors w,
  returns (fun both => exists done lost,
             fst both = results ++ done /\ snd both = errors ++ lost /\
             length done + length lost = length posts /\
             incl lost (map Post.id posts))
          (batchLoop generatePostCards posts results errors w).
Proof.
  induction posts as [|post rest IH]; intros results errors w.
  - apply returns_ret. exists [], []. rewrite !app_nil_r.
    repeat split; try reflexivity. intros x [].
  - cbn [batchLoop].
    eapply returns_bind with
      (Q := fun both =>
              (exists result, both = (results ++ [result], errors)) \/
              both = (results, errors ++ [Post.id post])).
    + apply returns_try_catch.
      * eapply ends_bind; [apply ends_await|].
        intros result w1 _. apply ends_ret. left. exists result. reflexivity.
      * intros w1. apply returns_ret. right. reflexivity.
    + intros both w1 Hboth.
      eapply returns_weaken; [|apply IH].
      intros final (done & lost & Hdone & Hlost & Hcount & Hincl).
      destruct Hboth as [(result & ->) | ->]; cbn [fst snd] in Hdone, Hlost.
      * exists (result :: done), lost.
        rewrite Hdone, Hlost, <- app_assoc. cbn [app length map].
        repeat split; try reflexivity; [lia|].
        intros x Hx. right. apply Hincl. exact Hx.
      * exists done, (Post.id post :: lost).
        rewrite Hdone, Hlost, <- app_assoc. cbn [app length map].
        repeat split; try reflexivity; [lia|].
        intros x [<- | Hx]; [left; reflexivity | right; apply Hincl; exact Hx].
Qed.

(** Batch accounting. Whatever the card generation does on each post,
    generateBatchCards returns (a post whose generation throws does not
    stop the batch): every post is counted once, as a success or as a
    failure; the counts of the summary are the lengths of the two lists;
    the failures are ids of posts of the batch; and the image total is
    the sum of the image counts of the successes. *)
Theorem generateBatchCards_accounts (posts : list Post.t) (w : World) :
  returns (fun batch =>
             successCount (summary batch) + failureCount (summary batch)
             = totalPosts (summary batch) /\
             totalPosts (summary batch) = length posts /\
             successCount (summary batch) = length (successful batch) /\
             failureCount (summary batch) = length (failed batch) /\
             incl (failed batch) (map Post.id posts) /\
             totalImages (summary batch)
             = list_sum (map imageCount (successful batch)))
          (generateBatchCards generatePostCards imageCount posts w).
Proof.
  unfold generateBatchCards.
  eapply returns_bind; [apply batchLoop_returns|].
  intros both w1 (done & lost & Hdone & Hlost & Hcount & Hincl).
  apply returns_ret. cbn [app] in Hdone, Hlost.
  cbn [summary successful failed totalPosts successCount failureCount
       totalImages].
  rewrite Hdone, Hlost, fold_left_sum.
  repeat split; try reflexivity; [lia | exact Hincl].
Qed.

End Generate.

End BatchFacts.

(* ===================================================================== *)
(** ** Properties of the data handed to the templates *)
(* ===================================================================== *)

Module HtmlRendererFacts.

Import JS JSFacts Pagination Spec HtmlRenderer PaginationFacts.

Lemma firstParagraphs_join (n : nat) (l : list string) :
  Forall cleanParagraph l ->
  firstParagraphs n (Some (join LF l))
  = match l with
    | [] => None
    | _ :: _ => Some (firstn n l)
    end.
Proof.
  intros Hl. unfold firstParagraphs. cbn [orEmpty].
  destruct l as [|p ps]; [reflexivity|].
  rewrite (paragraphs_join Hl).
  assert (Hne : join LF (p :: ps) <> []).
  { intros Hj. apply join_nil_inv in Hj; [discriminate|].
    eapply Forall_impl; [|exact Hl].
    intros q [Hq _]. apply nonBlank_not_nil. exact Hq. }
  unfold truthy. destruct (join LF (p :: ps)); [congruence | reflexivity].
Qed.

(** Display of a page of the body. Of a page that the paginator builds
    from paragraphs, the template receives the first six paragraphs of
    the Chinese track and the first five of the English track, whatever
    number the page carries: the paragraphs beyond them are on the page
    but are not handed to the template. *)
Theorem main_page_display (post : Post.t) (ty : PageType)
  (zh en : list string) (summary_zh : option string) :
  Forall cleanParagraph zh -> Forall cleanParagraph en ->
  content_zh_paragraphs (preprocessData (mainPageData post ty zh en) summary_zh)
  = match zh with
    | [] => None
    | _ :: _ => Some (firstn 6 zh)
    end /\
  content_paragraphs (preprocessData (mainPageData post ty zh en) summary_zh)
  = match en with
    | [] => None
    | _ :: _ => Some (firstn 5 en)
    end.
Proof.
  intros Hzh Hen. unfold preprocessData.
  cbn [content_zh_paragraphs content_paragraphs mainPageData
       Page.content_zh Page.content].
  split; apply firstParagraphs_join; assumption.
Qed.

(** Display of a Comments page. Every comment of a page that the packer
    emits is handed to the template, in order (the display cap of three
    never cuts a packed page); the text shown in the place of the
    Chinese body is the Chinese body, or the English body when the
    comment has no Chinese one, and the English body is repeated below
    only in the first case. *)
Theorem packed_page_display (post : Post.t) (p : Page.t)
  (summary_zh : option string) :
  packedPage post p ->
  exists shown,
    comments (preprocessData p summary_zh) = Some shown /\
    map comment shown = commentsOf p /\
    Forall (fun s =>
              (truthy (Comment.body_zh (comment s)) = true ->
               body_zh s = orEmpty (Comment.body_zh (comment s)) /\
               body s = Some (Comment.body (comment s))) /\
              (truthy (Comment.body_zh (comment s)) = false ->
               body_zh s = Comment.body (comment s) /\ body s = None))
           shown.
Proof.
  intros (cs & -> & Hlen).
  exists (map showComment cs). unfold preprocessData.
  cbn [comments commentsPageData Page.comments commentsOf].
  rewrite firstn_all2 by lia. split; [reflexivity|]. split.
  - rewrite map_map. cbn [showComment comment]. apply map_id.
  - apply Forall_forall. intros s Hs.
    apply in_map_iff in Hs as (c & <- & _).
    cbn [showComment comment body_zh body].
    destruct (truthy (Comment.body_zh c)); split; intros H;
      try discriminate; split; reflexivity.
Qed.

End HtmlRendererFacts.
(* ===================================================================== *)
(** ** Properties of the cards of a post *)
(* ===================================================================== *)

Module CardGeneratorFacts.

Import JS Async AsyncFacts Pagination Spec CardGenerator.
Import PaginationFacts.

Lemma digits_inj (d d' : Decimal.uint) : digits d = digits d' -> d = d'.
Proof.
  revert d'. induction d as [|d IH|d IH|d IH|d IH|d IH|d IH|d IH|d IH|d IH|d IH];
    intros d' H; destruct d'; cbn [digits] in H; try discriminate;
    try reflexivity; injection H as H; f_equal; apply IH; exact H.
Qed.

Lemma decimal_inj (n m : nat) : decimal n = decimal m -> n = m.
Proof.
  unfold decimal. intros H. apply DecimalNat.Unsigned.to_uint_inj.
  apply digits_inj. exact H.
Qed.

(** The file names of the pages of one run are distinct. *)
Lemma fileName_inj (post : Post.t) (timestamp i j : nat) :
  fileName post timestamp i = fileName post timestamp j -> i = j.
Proof.
  unfold fileName. intros H.
  apply app_inv_head in H. apply app_inv_head in H.
  injection H as H. apply app_inv_head in H. injection H as H.
  apply app_inv_tail in H. apply decimal_inj. exact H.
Qed.

Section Retry.

Context {World A : Type}.
Variable sleep : Z -> World -> World.

(** A retry ends as its operation does. *)
Lemma retryLoop_ends (Q : A -> Prop) (operation : M World A)
  (maxRetries : nat) (delay : Z) (remaining : nat) :
  (forall w, ends Q (operation w)) ->
  forall attempt w,
  ends Q (ErrorHandler.retryLoop sleep operation maxRetries delay
            remaining attempt w).
Proof.
  intros Hop. induction remaining as [|remaining IH]; intros attempt w.
  - exact I.
  - cbn [ErrorHandler.retryLoop]. apply endsOr_try_catch; [apply Hop|].
    intros w'. destruct (attempt =? maxRetries); [exact I | apply IH].
Qed.

End Retry.

Section WithStudio.

Context {World Html Buffer : Type}.
Context {R : Renderer World Html} {studio : Studio World Buffer}.

Lemma ends_always {B} (f : World -> B * World) (w : World) :
  ends (fun _ => True) (always f w).
Proof. unfold always, ends, endsOr. destruct (f w). exact I. Qed.

Lemma renderPage_ends (post : Post.t) (outputDir baseUrl : string)
  (timestamp : nat) (pageData : CardData.t) (pageIndex : nat) (w : World) :
  ends (fun image =>
          Image.filename image = fileName post timestamp pageIndex /\
          Image.filepath image
          = pathJoin outputDir (fileName post timestamp pageIndex) /\
          Image.pageType image = Page.type (CardData.page pageData) /\
          Image.pageIndex image = pageIndex)
       (renderPage post outputDir baseUrl timestamp pageData pageIndex w).
Proof.
  unfold renderPage. apply endsOr_try_catch; [|intros w'; exact I].
  cbv zeta. eapply ends_bind.
  - apply (@retryLoop_ends World Buffer setTimeout (fun _ => True)).
    intros w0. apply ends_await.
  - intros imageBuffer w1 _. eapply ends_bind.
    + apply (@retryLoop_ends World unit setTimeout (fun _ => True)).
      intros w0. eapply ends_bind; [apply ends_await|].
      intros u w2 _. apply ends_await.
    + intros u w2 _. apply ends_ret. repeat split.
Qed.

Lemma cardLoop_ends (post : Post.t) (outputDir baseUrl : string)
  (timestamp totalPages : nat) (pages : list Page.t) :
  forall i results w,
  ends (fun images => exists new,
          images = results ++ new /\
          map Image.pageIndex new = seq (i + 1) (length pages) /\
          map Image.pageType new = map Page.type pages /\
          map Image.filename new
          = map (fileName post timestamp) (seq (i + 1) (length pages)))
       (cardLoop post outputDir baseUrl timestamp totalPages pages i
          results w).
Proof.
  induction pages as [|page rest IH]; intros i results w.
  - apply ends_ret. exists []. rewrite app_nil_r. repeat split.
  - cbn [cardLoop]. eapply ends_bind; [apply renderPage_ends|].
    intros image w1 (Hname & _ & Htype & Hindex).
    eapply ends_weaken; [|apply IH].
    intros images (new & -> & Hidx & Hty & Hnames).
    exists (image :: new). rewrite <- app_assoc.
    split; [reflexivity|].
    cbn [map length seq CardData.page] in *.
    replace (S i + 1) with (S (i + 1)) in Hidx, Hnames by lia.
    rewrite Hidx, Hty, Hnames, Hname, Htype, Hindex. repeat split.
Qed.

(** One image for each page. For every post and every behaviour of the
    collaborators, with the fuel of the bound generatePostCards ends
    (returns, or throws when the pagination or a page fails after its
    retries) with the id of the post and one image for each page of the
    page sequence of the post, in order: the images are numbered from
    one, each has the type of its page, and totalPages is their number. *)
Theorem generatePostCards_images (fuel : nat) (post : Post.t)
  (options : GenerateOptions.t) (w : World) :
  fuelBound post <= fuel ->
  ends (fun cards =>
          Cards.postId cards = Post.id post /\
          Cards.totalPages cards = length (Cards.images cards) /\
          map Image.pageIndex (Cards.images cards)
          = seq 1 (Cards.totalPages cards) /\
          exists pages,
            paginated post pages /\
            map Image.pageType (Cards.images cards) = map Page.type pages)
       (generatePostCards fuel post options w).
Proof.
  intros Hfuel. unfold generatePostCards.
  apply endsOr_try_catch; [|intros w'; exact I].
  cbv zeta. eapply ends_bind with (Q := fun _ => True).
  - destruct (GenerateOptions.timestamp options);
      [apply ends_ret; exact I | apply ends_always].
  - intros timestamp w1 _. eapply ends_bind.
    + apply (@paginate_ends _ _ R True (or_introl I)). exact Hfuel.
    + intros pages w2 Hpages. eapply ends_bind; [apply cardLoop_ends|].
      intros images w3 (new & -> & Hidx & Hty & _). cbn [app] in *.
      eapply ends_bind; [apply ends_always|].
      intros generatedAt w4 _. apply ends_ret.
      cbn [Cards.postId Cards.totalPages Cards.images].
      split; [reflexivity|]. split.
      * rewrite <- (length_map Image.pageIndex), Hidx, length_seq.
        reflexivity.
      * split; [exact Hidx|]. exists pages. split; assumption.
Qed.

(** Distinct files. Whatever the collaborators do, the file names of
    the images that generatePostCards returns are pairwise distinct: no
    page of a run overwrites the file of another page of the run. *)
Theorem generatePostCards_distinct_files (fuel : nat) (post : Post.t)
  (options : GenerateOptions.t) (w : World) :
  fuelBound post <= fuel ->
  ends (fun cards => NoDup (map Image.filename (Cards.images cards)))
       (generatePostCards fuel post options w).
Proof.
  intros Hfuel. unfold generatePostCards.
  apply endsOr_try_catch; [|intros w'; exact I].
  cbv zeta. eapply ends_bind with (Q := fun _ => True).
  - destruct (GenerateOptions.timestamp options);
      [apply ends_ret; exact I | apply ends_always].
  - intros timestamp w1 _. eapply ends_bind.
    + apply (@paginate_ends _ _ R True (or_introl I)). exact Hfuel.
    + intros pages w2 _. eapply ends_bind; [apply cardLoop_ends|].
      intros images w3 (new & -> & _ & _ & Hnames). cbn [app] in *.
      eapply ends_bind; [apply ends_always|].
      intros generatedAt w4 _. apply ends_ret. cbn [Cards.images].
      rewrite Hnames. apply Finite.Injective_map_NoDup; [|apply seq_NoDup].
      intros i j. apply fileName_inj.
Qed.

End WithStudio.

End CardGeneratorFacts.
(* ===================================================================== *)
(** ** Properties of the cleanup service *)
(* ===================================================================== *)

Module CleanupFacts.

Import JS Async AsyncFacts Cleanup.

Section WithDisk.

Context {World : Type} {disk : Disk World}.

Lemma scanLoop_returns (config : Config) (cutoffTime : Z)
  (files : list string) :
  forall stats w,
  returns (fun final =>
             filesScanned final = filesScanned stats + length files /\
             filesDeleted final + filesSkipped final + errors final
             = filesDeleted stats + filesSkipped stats + errors stats
               + length files)
          (scanLoop config cutoffTime files stats w).
Proof.
  induction files as [|filename rest IH]; intros stats w.
  - apply returns_ret. cbn [length]. lia.
  - cbn [scanLoop]. cbv zeta.
    eapply returns_bind with
      (Q := fun stats2 =>
              filesScanned stats2 = S (filesScanned stats) /\
              filesDeleted stats2 + filesSkipped stats2 + errors stats2
              = S (filesDeleted stats + filesSkipped stats + errors stats)).
    + apply returns_try_catch.
      * destruct (negb (matchesPattern filename));
          [apply ends_ret; cbn; lia|].
        eapply ends_bind; [apply ends_await|].
        intros fileStat w1 _.
        destruct (mtime fileStat <? cutoffTime)%Z;
          [|apply ends_ret; cbn; lia].
        eapply ends_bind; [apply ends_await|].
        intros u w2 _.
        eapply ends_bind; [apply CardGeneratorFacts.ends_always|].
        intros time w3 _. apply ends_ret. cbn. lia.
      * intros w'. apply returns_ret. cbn. lia.
    + intros stats2 w1 [Hscanned Hsum].
      eapply returns_weaken; [|apply IH].
      intros final [Hs Hc]. cbn [length]. lia.
Qed.

(** One entry of the scan whose name matches the pattern, by what the
    file system answers. *)
Lemma scanLoop_matching (config : Config) (cutoffTime : Z)
  (filename : string) (rest : list string) (stats : Stats) (w : World) :
  matchesPattern filename = true ->
  scanLoop config cutoffTime (filename :: rest) stats w
  = match stat (join (imageDir config) filename) w with
    | (None, w1) =>
        scanLoop config cutoffTime rest (failed (scanned stats)) w1
    | (Some fileStat, w1) =>
        if (mtime fileStat <? cutoffTime)%Z then
          match unlink (join (imageDir config) filename) w1 with
          | (None, w2) =>
              scanLoop config cutoffTime rest (failed (scanned stats)) w2
          | (Some _, w2) =>
              scanLoop config cutoffTime rest
                (deleted (scanned stats) (size fileStat)) (snd (now w2))
          end
        else scanLoop config cutoffTime rest (skipped (scanned stats)) w1
    end.
Proof.
  intros Hmatch. cbn [scanLoop]. cbv zeta. rewrite Hmatch. cbn [negb].
  unfold bind, try_catch, await, ret, CardGenerator.always.
  destruct (stat (join (imageDir config) filename) w) as [[fileStat|] w1];
    [|reflexivity].
  destruct (mtime fileStat <? cutoffTime)%Z; [|reflexivity].
  destruct (unlink (join (imageDir config) filename) w1) as [[u|] w2];
    [|reflexivity].
  destruct (now w2) as [time w3]. reflexivity.
Qed.

(** Cleanup accounting. Whatever the file system does, cleanupOldImages
    ends, and the counters that it returns add up: every directory entry
    is scanned and counted once, as deleted, skipped or failed. The scan
    itself never throws. Of an entry whose name matches the pattern: when
    its inspection throws, or when it is older than the cutoff and its
    deletion throws, it is counted as an error and the scan goes on with
    the next entry; when it is older than the cutoff and deleted, it is
    counted as deleted with its size; otherwise it is counted as
    skipped, and is not deleted. *)
Theorem cleanupOldImages_accounts (config : Config) (w : World) :
  ends accounted (cleanupOldImages config w) /\
  (forall cutoffTime files w0,
     returns (fun stats => accounted stats /\
                           filesScanned stats = length files)
             (scanLoop config cutoffTime files noStats w0)) /\
  (forall cutoffTime filename rest stats w0 w1,
     matchesPattern filename = true ->
     stat (join (imageDir config) filename) w0 = (None, w1) ->
     scanLoop config cutoffTime (filename :: rest) stats w0
     = scanLoop config cutoffTime rest (failed (scanned stats)) w1) /\
  (forall cutoffTime filename rest stats fileStat w0 w1 w2,
     matchesPattern filename = true ->
     stat (join (imageDir config) filename) w0 = (Some fileStat, w1) ->
     (mtime fileStat < cutoffTime)%Z ->
     unlink (join (imageDir config) filename) w1 = (None, w2) ->
     scanLoop config cutoffTime (filename :: rest) stats w0
     = scanLoop config cutoffTime rest (failed (scanned stats)) w2) /\
  (forall cutoffTime filename rest stats fileStat w0 w1 w2,
     matchesPattern filename = true ->
     stat (join (imageDir config) filename) w0 = (Some fileStat, w1) ->
     (mtime fileStat < cutoffTime)%Z ->
     unlink (join (imageDir config) filename) w1 = (Some tt, w2) ->
     scanLoop config cutoffTime (filename :: rest) stats w0
     = scanLoop config cutoffTime rest
         (deleted (scanned stats) (size fileStat)) (snd (now w2))) /\
  (forall cutoffTime filename rest stats fileStat w0 w1,
     matchesPattern filename = true ->
     stat (join (imageDir config) filename) w0 = (Some fileStat, w1) ->
     (cutoffTime <= mtime fileStat)%Z ->
     scanLoop config cutoffTime (filename :: rest) stats w0
     = scanLoop config cutoffTime rest (skipped (scanned stats)) w1).
Proof.
  assert (Hscan : forall cutoffTime files w0,
            returns (fun stats => accounted stats /\
                                  filesScanned stats = length files)
                    (scanLoop config cutoffTime files noStats w0)).
  { intros cutoffTime files w0.
    eapply returns_weaken; [|apply scanLoop_returns].
    intros final [Hs Hc]. unfold accounted. cbn in Hs, Hc. lia. }
  split; [|split; [exact Hscan|]].
  - unfold cleanupOldImages.
    eapply ends_bind with (Q := fun _ => True).
    + apply endsOr_try_catch.
      * eapply ends_bind; [apply ends_await|]. intros u w1 _.
        apply ends_ret. exact I.
      * intros w'. apply ends_ret. exact I.
    + intros found w1 _. destruct found; cbn [negb].
      * eapply ends_bind; [apply CardGeneratorFacts.ends_always|].
        intros time w2 _. cbv zeta.
        match goal with |- context [if ?invalid then _ else _] =>
          destruct invalid end; [exact I|].
        eapply ends_bind; [apply ends_await|].
        intros files w3 _.
        eapply endsOr_weaken; [| |apply Hscan]; [tauto|].
        intros stats [Hacc _]. exact Hacc.
      * apply ends_ret. reflexivity.
  - split; [|split; [|split]].
    + intros cutoffTime filename rest stats w0 w1 Hmatch Hstat.
      rewrite (@scanLoop_matching config cutoffTime filename rest stats w0
                 Hmatch), Hstat. reflexivity.
    + intros cutoffTime filename rest stats fileStat w0 w1 w2
        Hmatch Hstat Hold Hunlink.
      apply Z.ltb_lt in Hold.
      rewrite (@scanLoop_matching config cutoffTime filename rest stats w0
                 Hmatch), Hstat, Hold, Hunlink.
      reflexivity.
    + intros cutoffTime filename rest stats fileStat w0 w1 w2
        Hmatch Hstat Hold Hunlink.
      apply Z.ltb_lt in Hold.
      rewrite (@scanLoop_matching config cutoffTime filename rest stats w0
                 Hmatch), Hstat, Hold, Hunlink.
      reflexivity.
    + intros cutoffTime filename rest stats fileStat w0 w1
        Hmatch Hstat Hrecent.
      apply Z.ltb_ge in Hrecent.
      rewrite (@scanLoop_matching config cutoffTime filename rest stats w0
                 Hmatch), Hstat, Hrecent.
      reflexivity.
Qed.

(** Other files are left alone. Directory entries whose names do not
    match the pattern of the card files are counted as scanned and
    skipped without any access to the file system: they are neither
    inspected nor deleted, whatever their age. *)
Theorem scanLoop_spares_other_files (config : Config) (cutoffTime : Z)
  (files : list string) (stats : Stats) (w : World) :
  Forall (fun filename => matchesPattern filename = false) files ->
  scanLoop config cutoffTime files stats w
  = (Ok {| filesScanned := filesScanned stats + length files;
           filesDeleted := filesDeleted stats;
           filesSkipped := filesSkipped stats + length files;
           errors := errors stats;
           totalSizeFreed := totalSizeFreed stats |}, w).
Proof.
  intros Hfiles. revert stats.
  induction Hfiles as [|filename rest Hname Hrest IH]; intros stats.
  - cbn [scanLoop length]. rewrite !Nat.add_0_r. destruct stats. reflexivity.
  - cbn [scanLoop]. cbv zeta. rewrite Hname. cbn [negb].
    unfold bind at 1, try_catch, ret at 1. rewrite IH.
    cbn [scanned skipped filesScanned filesDeleted filesSkipped errors
         totalSizeFreed length].
    rewrite !Nat.add_succ_r. reflexivity.
Qed.

End WithDisk.

End CleanupFacts.
(* ===================================================================== *)
(** ** Properties of the pagination service, version 2.1 *)
(* ===================================================================== *)

Module PaginationV2Facts.

Import JS Async AsyncFacts Pagination Spec.
Import PaginationFacts.

(** The middle rounded up lies in the interval. *)
Lemma ceil_bounds (low high : nat) :
  low <= high -> low <= (low + high + 1) / 2 <= high.
Proof.
  intros H.
  pose proof (Nat.div_mod_eq (low + high + 1) 2) as Hd.
  pose proof (Nat.mod_upper_bound (low + high + 1) 2) as Hm.
  lia.
Qed.

Lemma skipn_firstn_length {A} (k : nat) (l : list A) :
  skipn (length (firstn k l)) l = skipn k l.
Proof.
  rewrite length_firstn.
  destruct (Nat.le_ge_cases k (length l)) as [H | H].
  - rewrite Nat.min_l by exact H. reflexivity.
  - rewrite Nat.min_r by exact H.
    rewrite skipn_all, skipn_all2 by exact H. reflexivity.
Qed.

(** What the forced minimum makes of the slices that a search kept. *)
Lemma orFirst_slices (zh en : list string)
  (found : list string * list string) (n : nat) :
  found = ([], []) \/
  (exists mid, 1 <= mid <= n /\ found = (firstn mid zh, firstn mid en)) ->
  exists k, 1 <= k /\
            PaginationV2.orFirst zh en found = (firstn k zh, firstn k en).
Proof.
  intros [-> | (mid & Hmid & ->)].
  - exists 1. split; [lia | reflexivity].
  - unfold PaginationV2.orFirst. cbn [fst snd].
    destruct ((length (firstn mid zh) =? 0) && (length (firstn mid en) =? 0)).
    + exists 1. split; [lia | reflexivity].
    + exists mid. split; [lia | reflexivity].
Qed.

Lemma combine_seq_length {A} (start : nat) (l : list A) :
  length (combine (seq start (length l)) l) = length l.
Proof. rewrite length_combine, length_seq. lia. Qed.

Section Loops.

Context {World Html : Type} {R : Renderer World Html}.

Variable T : Prop.
Hypothesis throws_allowed : T \/ neverThrows R.

(** The search of version 2.1 ends within [high + 1 - low] rounds, and
    keeps the slices that it was given or the slices of a size of the
    interval. *)
Lemma fitSearch_slices {B : Type} (probe : nat -> M World Z)
  (take : nat -> B) (limit : Z) :
  (forall k w, endsOr T (fun _ => True) (probe k w)) ->
  forall fuel low high bestFit w,
  1 <= low -> high + 1 - low <= fuel ->
  endsOr T (fun found => found = bestFit \/
                         exists mid, low <= mid <= high /\ found = take mid)
    (PaginationV2.fitSearch probe take limit fuel low high bestFit w).
Proof.
  intros Hprobe. induction fuel as [|fuel IH];
    intros low high bestFit w Hlow Hfuel.
  - cbn [PaginationV2.fitSearch].
    destruct (low <=? high) eqn:Hle; [apply Nat.leb_le in Hle; lia|].
    apply endsOr_ret. left. reflexivity.
  - cbn [PaginationV2.fitSearch].
    destruct (low <=? high) eqn:Hle; [|apply endsOr_ret; left; reflexivity].
    apply Nat.leb_le in Hle. cbv zeta.
    pose proof (ceil_bounds Hle) as Hmid.
    eapply endsOr_bind; [apply Hprobe|].
    intros height w' _.
    destruct (height <=? limit)%Z.
    + eapply endsOr_weaken; [| |apply IH; lia]; [tauto|].
      intros found [-> | (mid & Hin & ->)]; right.
      * exists ((low + high + 1) / 2). split; [lia | reflexivity].
      * exists mid. split; [lia | reflexivity].
    + eapply endsOr_weaken; [| |apply IH; lia]; [tauto|].
      intros found [-> | (mid & Hin & ->)]; [left; reflexivity | right].
      exists mid. split; [lia | reflexivity].
Qed.

(** The outer loop of paginateMainContent, version 2.1. *)
Lemma mainLoop_v2_ends (post : Post.t) (fuel n : nat) :
  forall zh en isFirstPage pages w,
  Forall cleanParagraph zh -> Forall cleanParagraph en ->
  Nat.max (length zh) (length en) <= n ->
  Nat.max (length zh) (length en) <= fuel ->
  endsOr T (fun pages' => exists new,
          pages' = pages ++ new /\
          flat_map (fun p => splitContent (Page.content_zh p)) new = zh /\
          flat_map (fun p => splitContent (Page.content p)) new = en /\
          Forall (fun p => isMainPage p = true /\ Page.comments p = None) new /\
          (zh <> [] \/ en <> [] -> new <> []))
       (PaginationV2.mainLoop post fuel n zh en isFirstPage pages w).
Proof.
  induction n as [|n IH]; intros zh en isFirstPage pages w Hzh Hen Hn Hfuel.
  - assert (zh = []) by (apply length_zero_iff_nil; lia).
    assert (en = []) by (apply length_zero_iff_nil; lia).
    subst. simpl. apply endsOr_ret. exists []. rewrite app_nil_r.
    repeat split; try constructor. intros [H | H]; congruence.
  - cbn [PaginationV2.mainLoop].
    destruct ((0 <? length zh) || (0 <? length en)) eqn:Hnonempty.
    + eapply endsOr_bind.
      * apply fitSearch_slices with (bestFit := ([], [])) (low := 1);
          [intros; apply measureMain_ends; assumption | lia | lia].
      * intros found w' Hfound. cbv zeta.
        destruct (orFirst_slices zh en Hfound) as (k & Hk & ->).
        cbn [fst snd]. rewrite !skipn_firstn_length.
        eapply endsOr_weaken;
          [| |apply IH;
              [apply Forall_skipn; assumption | apply Forall_skipn; assumption
              | apply max_skipn_lt; assumption
              | rewrite !length_skipn; lia]]; [tauto|].
        intros pages' (new & -> & Hnzh & Hnen & Hty & _).
        eexists (_ :: new). split; [rewrite <- app_assoc; reflexivity|].
        cbn [flat_map mainPageData Page.content_zh Page.content].
        rewrite !splitContent_join by (apply Forall_firstn; assumption).
        rewrite Hnzh, Hnen, !firstn_skipn.
        repeat split; try reflexivity.
        -- constructor; [|assumption].
           destruct isFirstPage; split; reflexivity.
        -- discriminate.
    + apply orb_false_iff in Hnonempty as [H1 H2].
      apply Nat.ltb_ge in H1, H2.
      assert (zh = []) by (apply length_zero_iff_nil; lia).
      assert (en = []) by (apply length_zero_iff_nil; lia).
      subst. apply endsOr_ret. exists []. rewrite app_nil_r.
      repeat split; try constructor. intros [H | H]; congruence.
Qed.

Lemma paginateMainContent_v2_ends (fuel : nat) (post : Post.t)
  (pages : list Page.t) (w : World) :
  Nat.max (length (paragraphs (orEmpty (Post.selftext_zh post))))
          (length (paragraphs (orEmpty (Post.selftext post)))) <= fuel ->
  endsOr T (fun pages' => exists mains,
              pages' = pages ++ mains /\ mainPagesOf post mains)
    (PaginationV2.paginateMainContent fuel post pages w).
Proof.
  intros Hfuel. unfold PaginationV2.paginateMainContent.
  destruct ((length (paragraphs (orEmpty (Post.selftext_zh post))) =? 0)
            && (length (paragraphs (orEmpty (Post.selftext post))) =? 0))
    eqn:Hempty.
  - apply andb_true_iff in Hempty as [Hzh Hen].
    apply Nat.eqb_eq, length_zero_iff_nil in Hzh.
    apply Nat.eqb_eq, length_zero_iff_nil in Hen.
    apply endsOr_ret. exists [defaultPage post].
    split; [reflexivity|]. unfold mainPagesOf. rewrite Hzh, Hen.
    split; [discriminate|]. split.
    + constructor; [split; reflexivity | constructor].
    + repeat split; reflexivity.
  - eapply endsOr_weaken;
      [| |apply mainLoop_v2_ends;
          [apply paragraphs_clean | apply paragraphs_clean | | ];
          exact Hfuel]; [tauto|].
    intros pages' (new & -> & Hzh & Hen & Hty & Hne).
    exists new. split; [reflexivity|].
    assert (Hsome : paragraphs (orEmpty (Post.selftext_zh post)) <> [] \/
                    paragraphs (orEmpty (Post.selftext post)) <> []).
    { apply andb_false_iff in Hempty as [H | H]; apply Nat.eqb_neq in H;
        [left | right]; intros Hnil; rewrite Hnil in H; apply H; reflexivity. }
    split; [apply Hne; assumption|]. split; [assumption|].
    split; [assumption|]. split; [assumption|].
    intros H1 H2. exfalso. destruct Hsome as [H | H]; apply H; assumption.
Qed.

Lemma measureChunk_v2_ends comment zh en (k : nat) (w : World) :
  endsOr T (fun _ => True) (PaginationV2.measureChunk comment zh en k w).
Proof.
  unfold PaginationV2.measureChunk.
  eapply endsOr_bind;
    [apply render_ends | intros; apply measure_ends]; assumption.
Qed.

(** The outer loop of splitComment, version 2.1. *)
Lemma splitLoop_v2_ends (comment : Comment.t) (fuel n : nat) :
  forall zh en chunks w,
  Nat.max (length zh) (length en) <= n ->
  Nat.max (length zh) (length en) <= fuel ->
  endsOr T (fun chunks' => exists parts : list (list string * list string),
          chunks' = chunks ++
            map (fun ip => commentChunk comment (fst (snd ip)) (snd (snd ip))
                             (0 <? fst ip))
              (combine (seq (length chunks) (length parts)) parts) /\
          concat (map fst parts) = zh /\
          concat (map snd parts) = en /\
          length parts <= Nat.max (length zh) (length en))
       (PaginationV2.splitLoop comment fuel n zh en chunks w).
Proof.
  induction n as [|n IH]; intros zh en chunks w Hn Hfuel.
  - assert (zh = []) by (apply length_zero_iff_nil; lia).
    assert (en = []) by (apply length_zero_iff_nil; lia).
    subst. simpl. apply endsOr_ret. exists []. rewrite app_nil_r.
    repeat split; try reflexivity; cbn; lia.
  - cbn [PaginationV2.splitLoop].
    destruct ((0 <? length zh) || (0 <? length en)) eqn:Hnonempty.
    + eapply endsOr_bind.
      * apply fitSearch_slices with (bestFit := ([], [])) (low := 1);
          [intros; apply measureChunk_v2_ends | lia | lia].
      * intros found w' Hfound. cbv zeta.
        destruct (orFirst_slices zh en Hfound) as (k & Hk & ->).
        cbn [fst snd]. rewrite !skipn_firstn_length.
        eapply endsOr_weaken;
          [| |apply IH; [apply max_skipn_lt; assumption
                        | rewrite !length_skipn; lia]]; [tauto|].
        intros chunks' (parts & -> & Hzh & Hen & Hlen).
        exists ((firstn k zh, firstn k en) :: parts).
        rewrite length_app in *. cbn [length] in *.
        rewrite Nat.add_1_r in *.
        cbn [map concat fst snd length seq combine].
        rewrite Hzh, Hen, !firstn_skipn, <- app_assoc.
        repeat split; try reflexivity.
        rewrite !length_skipn in Hlen.
        apply orb_true_iff in Hnonempty as [H | H]; apply Nat.ltb_lt in H; lia.
    + apply orb_false_iff in Hnonempty as [H1 H2].
      apply Nat.ltb_ge in H1, H2.
      assert (zh = []) by (apply length_zero_iff_nil; lia).
      assert (en = []) by (apply length_zero_iff_nil; lia).
      subst. apply endsOr_ret. exists []. rewrite app_nil_r.
      repeat split; try reflexivity; cbn; lia.
Qed.

Lemma splitComment_v2_ends (fuel : nat) (comment : Comment.t) (w : World) :
  PaginationV2.chunkBound comment <= fuel ->
  endsOr T (PaginationV2.splitOf comment)
    (PaginationV2.splitComment fuel comment w).
Proof.
  intros Hfuel. unfold PaginationV2.splitComment, PaginationV2.chunkBound in *.
  eapply endsOr_weaken; [| |apply splitLoop_v2_ends; lia]; [tauto|].
  intros chunks (parts & -> & Hzh & Hen & Hlen).
  exists parts. cbn [app length]. unfold PaginationV2.chunkBound.
  repeat split; assumption.
Qed.

(** The first loop of paginateComments, version 2.1. *)
Lemma buildQueue_v2_ends (fuel : nat) (comments : list Comment.t) :
  forall commentQueue w,
  Forall (fun c => PaginationV2.chunkBound c <= fuel) comments ->
  endsOr T (fun queue => exists pieces,
              queue = commentQueue ++ concat pieces /\
              Forall2 (fun c piece => piece = [c] \/
                                      PaginationV2.splitOf c piece)
                comments pieces)
    (PaginationV2.buildQueue fuel comments commentQueue w).
Proof.
  induction comments as [|comment rest IH]; intros commentQueue w Hfuel.
  - apply endsOr_ret. exists []. cbn [concat]. rewrite app_nil_r.
    split; [reflexivity | constructor].
  - inversion Hfuel as [|c l Hc Hrest]; subst.
    cbn [PaginationV2.buildQueue].
    eapply endsOr_bind; [apply render_ends; assumption|].
    intros html w1 _.
    eapply endsOr_bind; [apply measure_ends; assumption|].
    intros height w2 _.
    eapply endsOr_bind with
      (Q := fun pushed => pushed = [comment] \/
                          PaginationV2.splitOf comment pushed).
    + destruct (PaginationV2.MAX_HEIGHT_SINGLE_COMMENT <? height)%Z.
      * eapply endsOr_weaken; [| |apply splitComment_v2_ends; exact Hc];
          [tauto|]. intros chunks Hsplit. right. exact Hsplit.
      * apply endsOr_ret. left. reflexivity.
    + intros pushed w3 Hpushed.
      eapply endsOr_weaken; [| |apply IH; exact Hrest]; [tauto|].
      intros queue (pieces & -> & Hall).
      exists (pushed :: pieces). cbn [concat]. rewrite <- app_assoc.
      split; [reflexivity|]. constructor; assumption.
Qed.

Lemma measurePage_ends post queue (k : nat) (w : World) :
  endsOr T (fun _ => True) (PaginationV2.measurePage post queue k w).
Proof.
  unfold PaginationV2.measurePage.
  eapply endsOr_bind;
    [apply render_ends | intros; apply measure_ends]; assumption.
Qed.

(** The packing loop of version 2.1 cuts the queue into non-empty
    pages. *)
Lemma packPages_v2_ends (post : Post.t) (fuel n : nat) :
  forall commentQueue pages w,
  length commentQueue <= n -> length commentQueue <= fuel ->
  endsOr T (fun pages' => exists packed,
              pages' = pages ++ map (commentsPageData post) packed /\
              concat packed = commentQueue /\
              Forall (fun cs => cs <> []) packed)
    (PaginationV2.packPages post fuel n commentQueue pages w).
Proof.
  induction n as [|n IH]; intros commentQueue pages w Hn Hfuel.
  - assert (commentQueue = []) by (apply length_zero_iff_nil; lia).
    subst. simpl. apply endsOr_ret. exists []. rewrite app_nil_r.
    repeat split. constructor.
  - cbn [PaginationV2.packPages].
    destruct (0 <? length commentQueue) eqn:Hnonempty.
    + apply Nat.ltb_lt in Hnonempty.
      eapply endsOr_bind.
      * apply fitSearch_slices with (bestFit := @nil Comment.t) (low := 1);
          [intros; apply measurePage_ends | lia | lia].
      * intros found w' Hfound. cbv zeta.
        assert (Hbest : exists k, 1 <= k /\
                  (if length found =? 0 then firstn 1 commentQueue else found)
                  = firstn k commentQueue).
        { destruct Hfound as [-> | (mid & Hmid & ->)].
          - exists 1. split; [lia | reflexivity].
          - destruct (length (firstn mid commentQueue) =? 0).
            + exists 1. split; [lia | reflexivity].
            + exists mid. split; [lia | reflexivity]. }
        destruct Hbest as (k & Hk & ->).
        rewrite skipn_firstn_length.
        eapply endsOr_weaken;
          [| |apply IH; rewrite length_skipn; lia]; [tauto|].
        intros pages' (packed & -> & Hcut & Hall).
        exists (firstn k commentQueue :: packed).
        cbn [map concat]. rewrite Hcut, firstn_skipn, <- app_assoc.
        repeat split. constructor; [|exact Hall].
        intros Hnil. apply (f_equal (@length Comment.t)) in Hnil.
        rewrite length_firstn in Hnil. cbn [length] in Hnil. lia.
    + apply Nat.ltb_ge in Hnonempty.
      assert (commentQueue = []) by (apply length_zero_iff_nil; lia).
      subst. apply endsOr_ret. exists []. rewrite app_nil_r.
      repeat split. constructor.
Qed.

(** The queue is no longer than the bound of the fuel. *)
Lemma pieces_length (comments : list Comment.t)
  (pieces : list (list Comment.t)) :
  Forall2 (fun c piece => piece = [c] \/ PaginationV2.splitOf c piece)
    comments pieces ->
  length (concat pieces)
  <= list_sum (map (fun c => Nat.max 1 (PaginationV2.chunkBound c)) comments).
Proof.
  induction 1 as [|c piece comments pieces Hpiece Hrest IH].
  - cbn. lia.
  - cbn [concat map]. rewrite length_app, list_sum_cons.
    assert (length piece <= Nat.max 1 (PaginationV2.chunkBound c)).
    { destruct Hpiece as [-> | (parts & -> & _ & _ & Hlen)].
      - cbn [length]. lia.
      - rewrite length_map, (combine_seq_length 0). lia. }
    lia.
Qed.

Lemma chunkBound_v2_le_sum (comments : list Comment.t) :
  Forall (fun c => PaginationV2.chunkBound c
                   <= list_sum (map (fun c => Nat.max 1
                                                (PaginationV2.chunkBound c))
                                  comments)) comments.
Proof.
  induction comments as [|c rest IH]; [constructor|].
  cbn [map]. rewrite list_sum_cons. constructor; [lia|].
  eapply Forall_impl; [|exact IH]. intros c' H. cbv beta in *. lia.
Qed.

Lemma paginate_v2_ends (fuel : nat) (post : Post.t) (w : World) :
  PaginationV2.fuelBound post <= fuel ->
  endsOr T (PaginationV2.paginated post)
    (PaginationV2.paginate fuel post w).
Proof.
  intros Hfuel. unfold PaginationV2.fuelBound in Hfuel.
  unfold PaginationV2.paginate.
  eapply endsOr_bind; [apply paginateMainContent_v2_ends; lia|].
  intros pages1 w1 (mains & -> & Hmains). cbn [app].
  eapply endsOr_bind with
    (Q := fun pages => exists pieces packed,
            pages = mains ++ map (commentsPageData post) packed /\
            Forall2 (fun c piece => piece = [c] \/
                                    PaginationV2.splitOf c piece)
              (Post.commentList post) pieces /\
            concat packed = concat pieces /\
            Forall (fun cs => cs <> []) packed).
  - unfold PaginationV2.paginateComments.
    destruct (length (Post.commentList post) =? 0) eqn:Hnone.
    + apply Nat.eqb_eq, length_zero_iff_nil in Hnone.
      apply endsOr_ret. exists [], []. rewrite Hnone, app_nil_r.
      repeat split; constructor.
    + eapply endsOr_bind.
      * apply buildQueue_v2_ends.
        eapply Forall_impl; [|apply chunkBound_v2_le_sum].
        intros c Hc. cbv beta in *. lia.
      * intros queue w2 (pieces & -> & Hpieces). cbn [app].
        pose proof (pieces_length Hpieces) as Hlen.
        eapply endsOr_weaken; [| |apply packPages_v2_ends; lia]; [tauto|].
        intros pages' (packed & -> & Hcut & Hall).
        exists pieces, packed. repeat split; assumption.
  - intros pages w2 (pieces & packed & -> & Hpieces & Hcut & Hall).
    assert (Hne : mains <> []) by apply Hmains.
    destruct (length (mains ++ map (commentsPageData post) packed) =? 0)
      eqn:Hlen.
    + apply Nat.eqb_eq, length_zero_iff_nil, app_eq_nil in Hlen.
      destruct Hlen as [Hnil _]. contradiction.
    + apply endsOr_ret. exists mains, pieces, packed.
      split; [reflexivity|]. split; [exact Hmains|].
      split; [exact Hpieces|]. split; assumption.
Qed.

End Loops.

(** The pages of version 2.1. For every post and every behaviour of the
    collaborator, with the fuel of the bound the paginate of version 2.1
    ends: it returns the main pages of the post, which carry the
    paragraphs of its body in order, followed by non-empty Comments
    pages that cut the working queue, in which every comment stands for
    itself or for the chunks of its paragraphs; or it throws, as it
    catches nothing. It returns when the collaborator never throws. *)
Theorem paginate_v2_pages {World Html : Type} (R : Renderer World Html)
  (fuel : nat) (post : Post.t) (w : World) :
  PaginationV2.fuelBound post <= fuel ->
  ends (PaginationV2.paginated post) (PaginationV2.paginate fuel post w) /\
  (neverThrows R ->
   returns (PaginationV2.paginated post) (PaginationV2.paginate fuel post w)).
Proof.
  intros Hfuel. split.
  - apply (@paginate_v2_ends World Html R True (or_introl I)). exact Hfuel.
  - intros Hnever.
    apply (@paginate_v2_ends World Html R False (or_intror Hnever)).
    exact Hfuel.
Qed.

End PaginationV2Facts.
(* ===================================================================== *)
(** ** The further properties on the samples *)
(* ===================================================================== *)

Module CaseFacts.

Import JS Async Pagination Spec Order Samples Cases.
Import OrderFacts PreprocessFacts TextLayoutFacts LegacyPaginationFacts.
Import ErrorHandlerFacts HtmlRendererFacts.
Import CardGeneratorFacts CleanupFacts PaginationV2Facts.

Lemma lineRenderer_measures (t : Template) (s : Selector) :
  measures lineRenderer t s lineHeight.
Proof. intros data w. exists data, w, w. split; reflexivity. Qed.

Lemma letter_clean (c : char) :
  isWhiteSpace c = false -> c <> LF -> cleanParagraph [c].
Proof.
  intros Hc Hlf. split.
  - unfold nonBlank, trim. cbn [trimStart rev app]. rewrite Hc.
    cbn [rev app trimStart]. rewrite Hc. reflexivity.
  - intros [H | []]. congruence.
Qed.

(** The worked example: a Main page and two MainContinued pages. *)
Lemma paginate_page_order_witness :
  ends ordered (paginate (R := lineRenderer) 3 workedPost tt) /\
  (neverThrows lineRenderer ->
   returns ordered (paginate (R := lineRenderer) 3 workedPost tt)).
Proof.
  apply (@paginate_page_order unit Page.t lineRenderer 3 workedPost tt).
  vm_compute. lia.
Defined.

Lemma main_pages_bounded_witness :
  ends (fun pages => 1 <= length (filter isMainPage pages) <= 3)
       (paginate (R := lineRenderer) 3 workedPost tt).
Proof.
  apply (@main_pages_bounded unit Page.t lineRenderer 3 workedPost tt).
  vm_compute. lia.
Defined.

(** Five short comments: a page of three and a page of two. *)
Lemma comments_pages_filled_witness :
  ends (fun pages =>
          Forall (fun p => 1 <= length (commentsOf p))
            (filter isCommentsPage pages) /\
          length (filter isCommentsPage pages)
          <= length (flat_map commentsOf (filter isCommentsPage pages))
          <= 3 * length (filter isCommentsPage pages))
       (paginate (R := lineRenderer) 5 fivePost tt).
Proof.
  apply (@comments_pages_filled unit Page.t lineRenderer 5 fivePost tt).
  vm_compute. lia.
Defined.

(** A comment of three lines cut into three chunks. *)
Lemma splitComment_flags_witness :
  let comment := sampleComment str_a [0x61; 0x0a; 0x62; 0x0a; 0x63]%N 1 in
  ends (fun chunks => flagged true chunks /\
                      Forall (sameIdentity comment) chunks)
       (splitComment (R := tallRenderer) 3 comment tt) /\
  (neverThrows tallRenderer ->
   returns (fun chunks => flagged true chunks /\
                          Forall (sameIdentity comment) chunks)
           (splitComment (R := tallRenderer) 3 comment tt)).
Proof.
  apply (@splitComment_flags unit unit tallRenderer 3
           (sampleComment str_a [0x61; 0x0a; 0x62; 0x0a; 0x63]%N 1) tt).
  vm_compute. lia.
Defined.

(** The worked example with a collaborator that always throws. *)
Lemma main_failure_propagates_witness :
  paginate (R := failingRenderer) 1 workedPost tt = (Throw, tt).
Proof.
  apply (@main_failure_propagates unit unit failingRenderer 1 workedPost
           tt tt).
  - vm_compute. lia.
  - lia.
  - reflexivity.
Defined.

(** The heights 400, 850, 1300 and the limit 900: two paragraphs fit. *)
Lemma fit_takes_all_that_fit_witness :
  exists k,
    fst (fit (pureProbe workedHeights) 900 3 3 tt) = Ok k /\
    1 <= k <= 3 /\
    forall k', 1 <= k' <= 3 -> (within 900 (workedHeights k') <-> k' <= k).
Proof.
  apply (@fit_takes_all_that_fit unit (pureProbe workedHeights)
           workedHeights 900 3 3 tt).
  - intros k w. reflexivity.
  - intros i j Hi Hij Hj. unfold workedHeights. lia.
  - unfold within, workedHeights. lia.
  - lia.
  - lia.
Defined.

(** A thousand paragraphs need ten probes at most. *)
Lemma fit_logarithmic_witness :
  fst (fit (pureProbe workedHeights) 800 10 1000 tt) <> OutOfFuel /\
  snd (snd (fit (counting (pureProbe workedHeights)) 800 10 1000 (tt, 0)))
  <= 0 + 10.
Proof.
  apply (@fit_logarithmic unit (pureProbe workedHeights) 800 1000 10 10 tt 0).
  - intros k w. discriminate.
  - vm_compute. lia.
  - lia.
Defined.


(** Five short comments: a page of three and a page of two. *)
Lemma packer_greedy_within_budget_witness :
  exists packed w',
    packPages (R := lineRenderer) fivePost 5 (Post.commentList fivePost) [] tt
    = (Ok ([] ++ map (commentsPageData fivePost) packed), w') /\
    concat packed = Post.commentList fivePost /\
    Forall (budgetedComments fivePost lineHeight) packed /\
    greedy fivePost lineHeight packed.
Proof.
  apply (@packer_greedy_within_budget unit Page.t lineRenderer lineHeight
           fivePost 5 (Post.commentList fivePost) [] tt).
  - apply lineRenderer_measures.
  - vm_compute. lia.
Defined.

(** The two comments of score 5 stay in the order of the post. *)
Lemma preprocessPostData_stable_witness :
  filter (fun c => (Comment.ups c =? 5)%Z)
    (Post.commentList (preprocessed tiedPost))
  = map ImageGenerator.cleanComment
      (filter (fun c => nonBlank (Comment.body c) && (Comment.ups c =? 5)%Z)
         (Post.commentList tiedPost)).
Proof.
  apply (@preprocessPostData_stable tiedPost (preprocessed tiedPost) 5).
  reflexivity.
Defined.

Lemma preprocessPostData_idempotent_witness :
  ImageGenerator.preprocessPostData (preprocessed tiedPost)
  = Some (preprocessed tiedPost).
Proof.
  apply (@preprocessPostData_idempotent tiedPost (preprocessed tiedPost)).
  - reflexivity.
  - repeat constructor.
Defined.

(** "hi yo" cut to four code units: "h..." *)
Lemma truncateText_bounded_witness :
  (Z.of_nat (length (TextLayout.truncateText latinText 4)) <= 4)%Z /\
  ((Z.of_nat (length latinText) <= 4)%Z ->
   TextLayout.truncateText latinText 4 = latinText) /\
  ((4 < Z.of_nat (length latinText))%Z ->
   TextLayout.truncateText latinText 4
   = firstn (Z.to_nat (4 - 3)) latinText ++ TextLayout.ELLIPSIS) /\
  TextLayout.truncateText (TextLayout.truncateText latinText 4) 4
  = TextLayout.truncateText latinText 4.
Proof.
  apply (@truncateText_bounded latinText 4). lia.
Defined.

Lemma smartSplit_latin_run_witness :
  TextUtils.smartSplit latinText = [latinText].
Proof.
  apply (@smartSplit_latin_run latinText).
  - repeat constructor.
  - reflexivity.
Defined.

(** "hi yo" is one token: on the narrow canvas it stays on one line. *)
Lemma wrapText_lines_witness :
  (forall m, Some 2 = Some m ->
     length (TextLayout.wrapText narrowCanvas (Some 2) latinText) <= m) /\
  Forall (fun line => line <> [])
    (TextLayout.wrapText narrowCanvas (Some 2) latinText).
Proof.
  apply (@wrapText_lines narrowCanvas (Some 2) latinText).
  intros m H. injection H as <-. lia.
Defined.

(** The worked example with the default options: its one Main page. *)
Lemma paginateContent_pages_witness :
  exists first cut groups,
    LegacyPagination.paginateContent workedPost LegacyPagination.defaults
    = Some (first :: cut ++ groups) /\
    1 <= length (first :: cut ++ groups) <= 4 /\
    LegacyPage.type first = main /\
    LegacyPage.title first = Some (Post.title workedPost) /\
    Forall (fun p => LegacyPage.type p = main_continued) cut /\
    Forall (fun p => LegacyPage.type p = comments) groups.
Proof.
  apply (@paginateContent_pages workedPost LegacyPagination.defaults).
  vm_compute. lia.
Defined.

(** The worked example cut in three for the small options. *)
Lemma paginateContent_content_witness :
  exists pages,
    LegacyPagination.paginateContent workedPost smallOptions = Some pages /\
    concat (map (fun p => orEmpty (LegacyPage.content p))
              (filter LegacyPagination.isBody pages))
    = orEmpty (Post.selftext workedPost) /\
    concat (map (fun p => orEmpty (LegacyPage.content_zh p))
              (filter LegacyPagination.isBody pages))
    = orEmpty (Post.selftext_zh workedPost).
Proof.
  apply (@paginateContent_content workedPost smallOptions).
  vm_compute. lia.
Defined.

(** Two failures, then a success at the third attempt: 1000 and 2000
    milliseconds of waiting. *)
Lemma retryOperation_first_success_witness :
  exists slept,
    ErrorHandler.retryOperation ErrorHandler.clock
      (ErrorHandler.scripted failTwice) 3 1000 (0, 0%Z)
    = (Ok 2, (3, slept)) /\
    (2 * slept = 1000 * Z.of_nat 2 * (Z.of_nat 2 + 1))%Z.
Proof.
  apply (@retryOperation_first_success nat failTwice 3 1000 2 2).
  - lia.
  - intros j Hj. unfold failTwice.
    destruct (Nat.ltb_spec j 2); [reflexivity | lia].
  - reflexivity.
Defined.

Lemma retryOperation_exhausted_witness :
  exists slept,
    ErrorHandler.retryOperation ErrorHandler.clock
      (ErrorHandler.scripted failAlways) 3 1000 (0, 0%Z)
    = (Throw, (3, slept)) /\
    (2 * slept = 1000 * Z.of_nat (3 - 1) * Z.of_nat 3)%Z.
Proof.
  apply (@retryOperation_exhausted nat failAlways 3 1000).
  intros j Hj. reflexivity.
Defined.

(** A page of seven English paragraphs: five are handed over. *)
Lemma main_page_display_witness :
  let en := [str_a; str_b; str_c; str_a; str_b; str_c; str_a] in
  HtmlRenderer.content_zh_paragraphs
    (HtmlRenderer.preprocessData (mainPageData workedPost main [] en) None)
  = None /\
  HtmlRenderer.content_paragraphs
    (HtmlRenderer.preprocessData (mainPageData workedPost main [] en) None)
  = Some (firstn 5 en).
Proof.
  apply (@main_page_display workedPost main []
           [str_a; str_b; str_c; str_a; str_b; str_c; str_a] None).
  - constructor.
  - repeat constructor; apply letter_clean; (reflexivity || discriminate).
Defined.

Lemma packed_page_display_witness :
  let p := commentsPageData commentOnlyPost
             (Post.commentList commentOnlyPost) in
  exists shown,
    HtmlRenderer.comments (HtmlRenderer.preprocessData p None) = Some shown /\
    map HtmlRenderer.comment shown = commentsOf p /\
    Forall (fun s =>
              (truthy (Comment.body_zh (HtmlRenderer.comment s)) = true ->
               HtmlRenderer.body_zh s
               = orEmpty (Comment.body_zh (HtmlRenderer.comment s)) /\
               HtmlRenderer.body s
               = Some (Comment.body (HtmlRenderer.comment s))) /\
              (truthy (Comment.body_zh (HtmlRenderer.comment s)) = false ->
               HtmlRenderer.body_zh s = Comment.body (HtmlRenderer.comment s) /\
               HtmlRenderer.body s = None))
           shown.
Proof.
  apply (@packed_page_display commentOnlyPost
           (commentsPageData commentOnlyPost
              (Post.commentList commentOnlyPost)) None).
  exists (Post.commentList commentOnlyPost).
  split; [reflexivity | simpl; lia].
Defined.

(** The cards of the worked example. *)
Lemma generatePostCards_images_witness :
  ends (fun cards =>
          Cards.postId cards = Post.id workedPost /\
          Cards.totalPages cards = length (Cards.images cards) /\
          map Image.pageIndex (Cards.images cards)
          = seq 1 (Cards.totalPages cards) /\
          exists pages,
            paginated workedPost pages /\
            map Image.pageType (Cards.images cards) = map Page.type pages)
       (CardGenerator.generatePostCards (R := lineRenderer)
          (studio := plainStudio) 3 workedPost noOptions tt).
Proof.
  apply (@generatePostCards_images unit Page.t unit lineRenderer plainStudio
           3 workedPost noOptions tt).
  vm_compute. lia.
Defined.

Lemma generatePostCards_distinct_files_witness :
  ends (fun cards => NoDup (map Image.filename (Cards.images cards)))
       (CardGenerator.generatePostCards (R := lineRenderer)
          (studio := plainStudio) 3 workedPost noOptions tt).
Proof.
  apply (@generatePostCards_distinct_files unit Page.t unit lineRenderer
           plainStudio 3 workedPost noOptions tt).
  vm_compute. lia.
Defined.

(** A card on a disk that cannot inspect it: one entry scanned, one
    error. *)
Lemma cleanupOldImages_accounts_witness :
  Cleanup.scanLoop (disk := lockedDisk) sampleConfig 0 [cardFile]
    Cleanup.noStats tt
  = (Ok {| Cleanup.filesScanned := 1;
           Cleanup.filesDeleted := 0;
           Cleanup.filesSkipped := 0;
           Cleanup.errors := 1;
           Cleanup.totalSizeFreed := 0 |}, tt).
Proof.
  apply (proj1 (proj2 (proj2 (@cleanupOldImages_accounts unit lockedDisk
                                sampleConfig tt)))
           0%Z cardFile [] Cleanup.noStats tt tt); reflexivity.
Defined.

(** Two names that are not names of cards, on a disk that would fail. *)
Lemma scanLoop_spares_other_files_witness :
  Cleanup.scanLoop (disk := lockedDisk) sampleConfig 0 otherFiles
    Cleanup.noStats tt
  = (Ok {| Cleanup.filesScanned := 0 + 2;
           Cleanup.filesDeleted := 0;
           Cleanup.filesSkipped := 0 + 2;
           Cleanup.errors := 0;
           Cleanup.totalSizeFreed := 0 |}, tt).
Proof.
  apply (@scanLoop_spares_other_files unit lockedDisk sampleConfig 0
           otherFiles Cleanup.noStats tt).
  repeat constructor.
Defined.

(** The worked example under version 2.1. *)
Lemma paginate_v2_pages_witness :
  ends (PaginationV2.paginated workedPost)
       (PaginationV2.paginate (R := lineRenderer) 3 workedPost tt) /\
  (neverThrows lineRenderer ->
   returns (PaginationV2.paginated workedPost)
           (PaginationV2.paginate (R := lineRenderer) 3 workedPost tt)).
Proof.
  apply (@paginate_v2_pages unit Page.t lineRenderer 3 workedPost tt).
  vm_compute. lia.
Defined.

End CaseFacts.
